(** * The VST2 effects rack of MLT's jackrack module

    A shallow embedding of [src/modules/jackrack/vst2_plugin.c]: the doubly
    linked chain of plugins hanging off a [vst2_process_info_t], the
    operations that edit it, the exchange of JACK auxiliary ports between
    plugins of one type, and the creation of a plugin with its holders.

    C pointers to [vst2_plugin_t] are addresses ([positive]); a nullable
    pointer is an [option]; the structs live in a finite map from addresses
    to records.  Every C function is a computation in the monad [M]: it
    threads the whole program state and has no result ([None]) where the C
    program has none, that is when it dereferences a pointer that is NULL or
    dangling, reads an array out of its bounds, runs for ever, or is
    terminated.

    The file has the data model and the functions of the source first, then
    the predicates in which the properties are stated, then the proofs: the
    exchange of ports, the segments of a chain, each operation on a well
    formed chain, the creation of a plugin, the properties of the
    specification, C1 to C10, and last further properties of the code, X1
    to X19: what the edits of the chain leave alone and how they undo each
    other, the holders and the calls of a plugin fresh from creation, the
    names of the auxiliary ports and the connection of the outputs. *)

From Stdlib Require Import ZArith QArith_base Ascii String.
From stdpp Require Import gmap list strings pretty.

#[local] Open Scope Z_scope.

(* ===================================================================== *)
(** ** Data model *)
(* ===================================================================== *)

Abbreviation ptr := positive.

(** [LADSPA_Data] is the C type [float].  The code below stores and forwards
    these values and never computes with them, so a value is represented by
    the rational it denotes; the literal [1.0] is [1]. *)
Definition LADSPA_Data : Type := Q.
Definition jack_port_t : Type := positive.
Definition jack_client_t : Type := positive.

(** The part of [AEffect] the file reads.  Calls through its function
    pointers [setParameter] and [dispatcher] are recorded as events. *)
Record AEffect := {
  effect_addr : ptr;
  numInputs : Z;
  numOutputs : Z;
}.

(** [vst2_plugin_desc_t], the fields the file reads. *)
Record vst2_plugin_desc_t := {
  desc_object_file : string;
  desc_index : N;
  desc_id : Z;
  desc_name : string;
  desc_effect : option AEffect;
  desc_channels : N;
  desc_aux_channels : N;
  desc_aux_are_input : bool;
  desc_control_port_count : N;
  desc_control_port_indicies : list N;
  desc_status_port_count : N;
  desc_audio_input_port_indicies : list N;
}.

(** A lock free fifo after [lff_init]: its capacity and object size. *)
Record lff_t := { lff_size : N; lff_object_size : N }.

(** An element of an array obtained from [g_malloc] is indeterminate
    ([None]) until it is assigned. *)
Definition cell (A : Type) : Type := option A.

(** [vst2_holder_t].  A pointer field holds [None] for NULL (and before its
    first assignment), [Some] of the array it points to otherwise. *)
Record vst2_holder_t := {
  holder_effect : option AEffect;
  ui_control_fifos : option (list (cell lff_t));
  control_memory : option (list (cell LADSPA_Data));
  status_memory : option (list (cell LADSPA_Data));
  aux_ports : option (list (cell jack_port_t));
}.

(** [vst2_plugin_t], without [dl_handle], [vst2_context] and
    [audio_input_memory], which none of the functions below reads.  The
    descriptor is immutable and stands for the pointer to it. *)
Record vst2_plugin_t := {
  desc : vst2_plugin_desc_t;
  enabled : bool;
  copies : Z;
  holders : list vst2_holder_t;
  audio_output_memory : list (cell (option ptr));
  wet_dry_enabled : bool;
  wet_dry_values : list (cell LADSPA_Data);
  wet_dry_fifos : list (cell lff_t);
  next : option ptr;
  prev : option ptr;
}.

(** [vst2_process_info_t]: the head and the tail of the chain and the JACK
    client.  A build without [WITH_JACK] has no client: it behaves as a
    build with [jack_client = NULL]. *)
Record vst2_process_info_t := {
  chain : option ptr;
  chain_end : option ptr;
  jack_client : option jack_client_t;
}.

(** [vst2_context_t]: the channel count; its [procinfo] is the one of the
    state. *)
Record vst2_context_t := { channels : N }.

(** What the program does to the world outside this file. *)
Inductive event :=
| EvSetParameter (e : ptr) (index : Z) (value : LADSPA_Data)
| EvDispatcher (e : ptr) (opcode : Z) (opt : LADSPA_Data)
| EvLffInit (size object_size : N)
| EvPortRegister (port_name : string) (is_input : bool)
| EvLogWarning
| EvLogPanic
| EvDlclose.

(** The program state: the process info, the plugins in memory, the live
    [g_malloc] blocks and the calls made so far, latest first. *)
Record state := {
  procinfo : vst2_process_info_t;
  plugins : gmap ptr vst2_plugin_t;
  blocks : gset ptr;
  trace : list event;
}.

(* --------------------------------------------------------------------- *)
(** *** Field updates *)

Definition set_next (v : option ptr) (x : vst2_plugin_t) : vst2_plugin_t :=
  {| desc := desc x; enabled := enabled x; copies := copies x;
     holders := holders x; audio_output_memory := audio_output_memory x;
     wet_dry_enabled := wet_dry_enabled x;
     wet_dry_values := wet_dry_values x; wet_dry_fifos := wet_dry_fifos x;
     next := v; prev := prev x |}.

Definition set_prev (v : option ptr) (x : vst2_plugin_t) : vst2_plugin_t :=
  {| desc := desc x; enabled := enabled x; copies := copies x;
     holders := holders x; audio_output_memory := audio_output_memory x;
     wet_dry_enabled := wet_dry_enabled x;
     wet_dry_values := wet_dry_values x; wet_dry_fifos := wet_dry_fifos x;
     next := next x; prev := v |}.

Definition set_holders (v : list vst2_holder_t) (x : vst2_plugin_t)
  : vst2_plugin_t :=
  {| desc := desc x; enabled := enabled x; copies := copies x;
     holders := v; audio_output_memory := audio_output_memory x;
     wet_dry_enabled := wet_dry_enabled x;
     wet_dry_values := wet_dry_values x; wet_dry_fifos := wet_dry_fifos x;
     next := next x; prev := prev x |}.

Definition set_audio_output_memory (v : list (cell (option ptr)))
  (x : vst2_plugin_t) : vst2_plugin_t :=
  {| desc := desc x; enabled := enabled x; copies := copies x;
     holders := holders x; audio_output_memory := v;
     wet_dry_enabled := wet_dry_enabled x;
     wet_dry_values := wet_dry_values x; wet_dry_fifos := wet_dry_fifos x;
     next := next x; prev := prev x |}.

Definition set_wet_dry_values (v : list (cell LADSPA_Data))
  (x : vst2_plugin_t) : vst2_plugin_t :=
  {| desc := desc x; enabled := enabled x; copies := copies x;
     holders := holders x; audio_output_memory := audio_output_memory x;
     wet_dry_enabled := wet_dry_enabled x;
     wet_dry_values := v; wet_dry_fifos := wet_dry_fifos x;
     next := next x; prev := prev x |}.

Definition set_wet_dry_fifos (v : list (cell lff_t)) (x : vst2_plugin_t)
  : vst2_plugin_t :=
  {| desc := desc x; enabled := enabled x; copies := copies x;
     holders := holders x; audio_output_memory := audio_output_memory x;
     wet_dry_enabled := wet_dry_enabled x;
     wet_dry_values := wet_dry_values x; wet_dry_fifos := v;
     next := next x; prev := prev x |}.

Definition set_aux_ports (v : option (list (cell jack_port_t)))
  (x : vst2_holder_t) : vst2_holder_t :=
  {| holder_effect := holder_effect x;
     ui_control_fifos := ui_control_fifos x;
     control_memory := control_memory x;
     status_memory := status_memory x; aux_ports := v |}.

Definition set_holder_effect (v : option AEffect) (x : vst2_holder_t)
  : vst2_holder_t :=
  {| holder_effect := v;
     ui_control_fifos := ui_control_fifos x;
     control_memory := control_memory x;
     status_memory := status_memory x; aux_ports := aux_ports x |}.

Definition set_ui_control_fifos (v : option (list (cell lff_t)))
  (x : vst2_holder_t) : vst2_holder_t :=
  {| holder_effect := holder_effect x;
     ui_control_fifos := v;
     control_memory := control_memory x;
     status_memory := status_memory x; aux_ports := aux_ports x |}.

Definition set_control_memory (v : option (list (cell LADSPA_Data)))
  (x : vst2_holder_t) : vst2_holder_t :=
  {| holder_effect := holder_effect x;
     ui_control_fifos := ui_control_fifos x;
     control_memory := v;
     status_memory := status_memory x; aux_ports := aux_ports x |}.

Definition set_status_memory (v : option (list (cell LADSPA_Data)))
  (x : vst2_holder_t) : vst2_holder_t :=
  {| holder_effect := holder_effect x;
     ui_control_fifos := ui_control_fifos x;
     control_memory := control_memory x;
     status_memory := v; aux_ports := aux_ports x |}.

Definition set_chain (v : option ptr) (x : vst2_process_info_t)
  : vst2_process_info_t :=
  {| chain := v; chain_end := chain_end x; jack_client := jack_client x |}.

Definition set_chain_end (v : option ptr) (x : vst2_process_info_t)
  : vst2_process_info_t :=
  {| chain := chain x; chain_end := v; jack_client := jack_client x |}.

Definition with_procinfo (v : vst2_process_info_t) (s : state) : state :=
  {| procinfo := v; plugins := plugins s; blocks := blocks s;
     trace := trace s |}.

Definition with_plugins (v : gmap ptr vst2_plugin_t) (s : state) : state :=
  {| procinfo := procinfo s; plugins := v; blocks := blocks s;
     trace := trace s |}.

Definition with_blocks (v : gset ptr) (s : state) : state :=
  {| procinfo := procinfo s; plugins := plugins s; blocks := v;
     trace := trace s |}.

Definition with_trace (v : list event) (s : state) : state :=
  {| procinfo := procinfo s; plugins := plugins s; blocks := blocks s;
     trace := v |}.

(* ===================================================================== *)
(** ** The monad of C computations *)
(* ===================================================================== *)

Definition M (A : Type) : Type := state → option (A * state).

#[global] Instance M_ret : MRet M := λ A x s, Some (x, s).
#[global] Instance M_bind : MBind M := λ A B f m s,
  match m s with
  | Some (x, s') => f x s'
  | None => None
  end.

(** No result: undefined behaviour, termination or divergence. *)
Definition fault {A} : M A := λ _, None.

Definition get_state : M state := λ s, Some (s, s).
Definition get_procinfo : M vst2_process_info_t := λ s, Some (procinfo s, s).
Definition put_procinfo (v : vst2_process_info_t) : M () :=
  λ s, Some ((), with_procinfo v s).

(** [*p] for a pointer to a plugin. *)
Definition load (p : ptr) : M vst2_plugin_t :=
  λ s, match plugins s !! p with
       | Some x => Some (x, s)
       | None => None
       end.

(** [p->field = v], given as the update [f] of the struct. *)
Definition store (p : ptr) (f : vst2_plugin_t → vst2_plugin_t) : M () :=
  λ s, match plugins s !! p with
       | Some x => Some ((), with_plugins (<[p := f x]> (plugins s)) s)
       | None => None
       end.

Definition emit (e : event) : M () :=
  λ s, Some ((), with_trace (e :: trace s) s).

(** [a[i]] and [a[i] = v] on an array of the given length. *)
Definition array_get {A} (a : list A) (i : nat) : M A :=
  match a !! i with
  | Some x => mret x
  | None => fault
  end.

Definition array_set {A} (a : list A) (i : nat) (v : A) : M (list A) :=
  if decide (i < length a)%nat then mret (<[i := v]> a) else fault.

(** [for (i = from; i < from + n; i++) body], the loop state passed on. *)
Fixpoint for_loop {A} (n : nat) (from : nat) (body : nat → A → M A) (a : A)
  : M A :=
  match n with
  | O => mret a
  | S n' => a' ← body from a; for_loop n' (S from) body a'
  end.

(* ===================================================================== *)
(** ** Editing the chain *)
(* ===================================================================== *)

(** [holders[copy].aux_ports] of a plugin, and its assignment. *)
Definition load_aux_ports (p : ptr) (copy : nat)
  : M (option (list (cell jack_port_t))) :=
  x ← load p;
  h ← array_get (holders x) copy;
  mret (aux_ports h).

Definition store_aux_ports (p : ptr) (copy : nat)
  (v : option (list (cell jack_port_t))) : M () :=
  x ← load p;
  h ← array_get (holders x) copy;
  store p (set_holders (<[copy := set_aux_ports v h]> (holders x))).

(** [guint copy; copy < plugin->copies]: the bound converted to [guint]. *)
Definition to_guint (z : Z) : nat := Z.to_nat (z mod 2 ^ 32).

(** The body of the loop of [vst2_plugin_swap_aux_ports]. *)
Definition swap_aux_ports_copy (plugin other : ptr) (copy : nat) : M () :=
  aux_ports_tmp ← load_aux_ports other copy;
  mine ← load_aux_ports plugin copy;
  store_aux_ports other copy mine;;
  store_aux_ports plugin copy aux_ports_tmp.

Definition vst2_plugin_swap_aux_ports (plugin other : ptr) : M () :=
  x ← load plugin;
  for_loop (to_guint (copies x)) 0
    (λ copy _, swap_aux_ports_copy plugin other copy) ().

Definition vst2_process_add_plugin (plugin : ptr) : M () :=
  store plugin (set_next None);;
  procinfo ← get_procinfo;
  store plugin (set_prev (chain_end procinfo));;
  match chain_end procinfo with
  | Some e => store e (set_next (Some plugin))
  | None => put_procinfo (set_chain (Some plugin) procinfo)
  end;;
  procinfo ← get_procinfo;
  put_procinfo (set_chain_end (Some plugin) procinfo).

(** [for (other = start; other; other = other->next) if (other->desc->id ==
    plugin->desc->id) vst2_plugin_swap_aux_ports (plugin, other);], the loop
    of the [WITH_JACK] block of remove and change.  The walk
    follows [next] fields, which the exchange of ports leaves alone: a walk
    that has not reached NULL after [fuel] plugins, with [fuel] above the
    number of plugins in memory, is in a cycle and never ends. *)
Fixpoint swap_matching_successors (fuel : nat) (plugin : ptr)
  (other : option ptr) : M () :=
  match other with
  | None => mret ()
  | Some o =>
    match fuel with
    | O => fault
    | S fuel' =>
      x ← load plugin;
      y ← load o;
      (if decide (desc_id (desc y) = desc_id (desc x))
       then vst2_plugin_swap_aux_ports plugin o
       else mret ());;
      y' ← load o;
      swap_matching_successors fuel' plugin (next y')
    end
  end.

(** The [WITH_JACK] block "sort out the aux ports", the same text in
    [vst2_process_remove_plugin] and [vst2_process_change_plugin]. *)
Definition sort_out_aux_ports (plugin : ptr) : M () :=
  procinfo ← get_procinfo;
  x ← load plugin;
  if decide (is_Some (jack_client procinfo)
             ∧ (0 < desc_aux_channels (desc x))%N)
  then
    s ← get_state;
    swap_matching_successors (S (size (plugins s))) plugin (next x)
  else mret ().

(** The block "sort out chain pointers" of [vst2_process_remove_plugin]. *)
Definition remove_chain_pointers (plugin : ptr) : M () :=
  x ← load plugin;
  match prev x with
  | Some p => store p (set_next (next x))
  | None => procinfo ← get_procinfo; put_procinfo (set_chain (next x) procinfo)
  end;;
  x ← load plugin;
  match next x with
  | Some n => store n (set_prev (prev x))
  | None =>
    procinfo ← get_procinfo; put_procinfo (set_chain_end (prev x) procinfo)
  end.

Definition vst2_process_remove_plugin (plugin : ptr) : M ptr :=
  remove_chain_pointers plugin;;
  sort_out_aux_ports plugin;;
  mret plugin.

(** The locals [pp], [p], [n] and [nn] of [vst2_process_move_plugin]: the
    plugins surrounding the specified one. *)
Definition move_neighbours (plugin : ptr)
  : M (option ptr * option ptr * option ptr * option ptr) :=
  x ← load plugin;
  let p := prev x in
  pp ← match p with
       | Some p' => y ← load p'; mret (prev y)
       | None => mret None
       end;
  let n := next x in
  nn ← match n with
       | Some n' => y ← load n'; mret (next y)
       | None => mret None
       end;
  mret (pp, p, n, nn).

(** The branch [if (up)]: [false] where the function returns at once. *)
Definition move_up (plugin : ptr) (pp p n : option ptr) : M bool :=
  match p with
  | None => mret false
  | Some p' =>
    match pp with
    | Some pp' => store pp' (set_next (Some plugin))
    | None =>
      procinfo ← get_procinfo;
      put_procinfo (set_chain (Some plugin) procinfo)
    end;;
    store p' (set_next n);;
    store p' (set_prev (Some plugin));;
    store plugin (set_prev pp);;
    store plugin (set_next p);;
    match n with
    | Some n' => store n' (set_prev p)
    | None =>
      procinfo ← get_procinfo; put_procinfo (set_chain_end p procinfo)
    end;;
    mret true
  end.

(** The branch [else]. *)
Definition move_down (plugin : ptr) (p n nn : option ptr) : M bool :=
  match n with
  | None => mret false
  | Some n' =>
    match p with
    | Some p' => store p' (set_next n)
    | None =>
      procinfo ← get_procinfo; put_procinfo (set_chain n procinfo)
    end;;
    store n' (set_prev p);;
    store n' (set_next (Some plugin));;
    store plugin (set_prev n);;
    store plugin (set_next nn);;
    match nn with
    | Some nn' => store nn' (set_prev (Some plugin))
    | None =>
      procinfo ← get_procinfo;
      put_procinfo (set_chain_end (Some plugin) procinfo)
    end;;
    mret true
  end.

(** The [WITH_JACK] block at the end of [vst2_process_move_plugin]. *)
Definition move_swap_aux_ports (plugin : ptr) (up : Z) : M () :=
  procinfo ← get_procinfo;
  x ← load plugin;
  if decide (is_Some (jack_client procinfo)
             ∧ (0 < desc_aux_channels (desc x))%N)
  then
    match (if decide (up ≠ 0) then next x else prev x) with
    | None => fault
    | Some other =>
      y ← load other;
      if decide (desc_id (desc y) = desc_id (desc x))
      then vst2_plugin_swap_aux_ports plugin other
      else mret ()
    end
  else mret ().

Definition vst2_process_move_plugin (plugin : ptr) (up : Z) : M () :=
  '(pp, p, n, nn) ← move_neighbours plugin;
  moved ← (if decide (up ≠ 0)
           then move_up plugin pp p n
           else move_down plugin p n nn);
  if moved : bool then move_swap_aux_ports plugin up else mret ().

(** The relinking of [vst2_process_change_plugin]. *)
Definition change_chain_pointers (plugin new_plugin : ptr) : M () :=
  x ← load plugin;
  store new_plugin (set_next (next x));;
  x ← load plugin;
  store new_plugin (set_prev (prev x));;
  x ← load plugin;
  match prev x with
  | Some p => store p (set_next (Some new_plugin))
  | None =>
    procinfo ← get_procinfo;
    put_procinfo (set_chain (Some new_plugin) procinfo)
  end;;
  x ← load plugin;
  match next x with
  | Some n => store n (set_prev (Some new_plugin))
  | None =>
    procinfo ← get_procinfo;
    put_procinfo (set_chain_end (Some new_plugin) procinfo)
  end.

Definition vst2_process_change_plugin (plugin new_plugin : ptr) : M ptr :=
  change_chain_pointers plugin new_plugin;;
  sort_out_aux_ports plugin;;
  mret plugin.

(* ===================================================================== *)
(** ** Creating a plugin *)
(* ===================================================================== *)

(** What this file takes from the rest of the program: the globals
    [vst2_sample_rate] and [vst2_buffer_size], the two queries on a
    descriptor, and the JACK server, whose answer to a registration may
    depend on all that happened before. *)
Record extern := {
  vst2_sample_rate : N;
  vst2_buffer_size : N;
  vst2_plugin_desc_get_copies : vst2_plugin_desc_t → N → Z;
  vst2_plugin_desc_get_default_control_value :
    vst2_plugin_desc_t → N → N → LADSPA_Data;
  jack_port_register : list event → string → bool → option jack_port_t;
}.

Definition CONTROL_FIFO_SIZE : N := 128.

(** [sizeof (LADSPA_Data)]. *)
Definition sizeof_LADSPA_Data : N := 4.

(** The opcode of the VST2 interface that sets the sample rate. *)
Definition effSetSampleRate : Z := 10.

(** A value converted to the 32 bit signed index of [setParameter]. *)
Definition to_int32 (z : Z) : Z := (z + 2 ^ 31) mod 2 ^ 32 - 2 ^ 31.

(** [g_malloc (sizeof (T) * count)]: NULL for no bytes at all, a block that
    is not in use otherwise.  A negative [count] is a size beyond any
    memory, on which glib terminates the program. *)
Definition g_malloc (count : Z) : M (option ptr) := λ s,
  if decide (count < 0) then None
  else if decide (count = 0) then Some (None, s)
  else
    let b := fresh (blocks s ∪ dom (plugins s)) in
    Some (Some b, with_blocks ({[b]} ∪ blocks s) s).

Definition g_free (b : option ptr) : M () := λ s,
  match b with
  | None => Some ((), s)
  | Some b' =>
    if decide (b' ∈ blocks s)
    then Some ((), with_blocks (blocks s ∖ {[b']}) s)
    else None
  end.

(** [*p] for a pointer that must not be NULL (nor indeterminate). *)
Definition deref {A} (p : option A) : M A :=
  match p with
  | Some x => mret x
  | None => fault
  end.

(** [plugin = g_malloc (sizeof (vst2_plugin_t))] and the assignments to the
    fields of the new struct that follow it. *)
Definition place_plugin (b : ptr) (x : vst2_plugin_t) : M () :=
  λ s, Some ((), with_plugins (<[b := x]> (plugins s)) s).

Definition alloc_plugin (x : vst2_plugin_t) : M ptr :=
  b ← g_malloc 1;
  b' ← deref b;
  place_plugin b' x;;
  mret b'.

(** Modelled from the spec: [lff_init] of lock_free_fifo.c, which is not
    among the sources, initialises a Parameter Update Channel of the given
    capacity. *)
Definition lff_init (size object_size : N) : M lff_t :=
  emit (EvLffInit size object_size);;
  mret {| lff_size := size; lff_object_size := object_size |}.

(** [plugin->holders + copy], read and updated. *)
Definition load_holder (plugin : ptr) (copy : nat) : M vst2_holder_t :=
  x ← load plugin;
  array_get (holders x) copy.

Definition modify_holder (plugin : ptr) (copy : nat)
  (f : vst2_holder_t → vst2_holder_t) : M () :=
  x ← load plugin;
  h ← array_get (holders x) copy;
  store plugin (set_holders (<[copy := f h]> (holders x))).

(** The holder of a fresh array of holders. *)
Definition indeterminate_holder : vst2_holder_t :=
  {| holder_effect := None; ui_control_fifos := None;
     control_memory := None; status_memory := None; aux_ports := None |}.

Definition vst2_plugin_open_plugin (desc : vst2_plugin_desc_t)
  : M (Z * option AEffect) :=
  let effect_ptr := desc_effect desc in
  match effect_ptr with
  | None => emit EvLogWarning;; mret (1, effect_ptr)
  | Some _ => mret (0, effect_ptr)
  end.

(** [tolower] in the C locale, and a blank replaced. *)
Definition jack_worthy (c : ascii) : ascii :=
  let n := nat_of_ascii c in
  if decide (n = 32)%nat then "_"%char
  else if decide (65 ≤ n ≤ 90)%nat then ascii_of_nat (n + 32)
  else c.

Fixpoint map_string (f : ascii → ascii) (s : string) : string :=
  match s with
  | EmptyString => EmptyString
  | String c s' => String (f c) (map_string f s')
  end.

Fixpoint g_strndup (s : string) (n : nat) : string :=
  match n, s with
  | S n', String c s' => String c (g_strndup s' n')
  | _, _ => EmptyString
  end.

Section create.
Variable E : extern.

(** [(float) vst2_sample_rate], exact for every rate in use. *)
Definition sample_rate_float : LADSPA_Data :=
  inject_Z (Z.of_N (vst2_sample_rate E)).

Definition vst2_plugin_instantiate (effect : option AEffect)
  (vst2_plugin_index : N) (copies : Z)
  (effects : list (cell (option AEffect)))
  : M (Z * list (cell (option AEffect))) :=
  effects ← for_loop (Z.to_nat copies) 0 (λ i effects,
    effects ← array_set effects i (Some effect);
    e ← deref effect;
    emit (EvDispatcher (effect_addr e) effSetSampleRate sample_rate_float);;
    mret effects) effects;
  mret (0, effects).

(** The name of the port of auxiliary channel [aux_channel]. *)
Definition aux_port_name (desc : vst2_plugin_desc_t) (copy : nat)
  (aux_channel : N) : string :=
  let vst2_plugin_name := map_string jack_worthy (g_strndup (desc_name desc) 7) in
  let vst2_plugin_index := 1%N in
  (vst2_plugin_name +:+ "_" +:+ pretty vst2_plugin_index +:+ "-"
   +:+ pretty (N.of_nat copy + 1)%N +:+ "_"
   +:+ (if desc_aux_are_input desc then "i" else "o")
   +:+ pretty aux_channel)%string.

(** Modelled from the spec: [mlt_log_panic] is not among the sources; a
    port that cannot be registered terminates the process. *)
Definition vst2_plugin_create_aux_ports (plugin : ptr) (copy : nat)
  (vst2_context : vst2_context_t) : M () :=
  x ← load plugin;
  let desc := desc x in
  let n := N.to_nat (desc_aux_channels desc) in
  _ ← g_malloc (Z.of_N (desc_aux_channels desc));
  modify_holder plugin copy (set_aux_ports (Some (replicate n None)));;
  for_loop n 0 (λ i _,
    let aux_channel := (1 + N.of_nat i)%N in
    let port_name := aux_port_name desc copy aux_channel in
    s ← get_state;
    let port := jack_port_register E (trace s) port_name
                  (desc_aux_are_input desc) in
    emit (EvPortRegister port_name (desc_aux_are_input desc));;
    h ← load_holder plugin copy;
    ports ← deref (aux_ports h);
    ports ← array_set ports i port;
    modify_holder plugin copy (set_aux_ports (Some ports));;
    match port with
    | None => emit EvLogPanic;; fault
    | Some _ => mret ()
    end) ().

(** [holder->effect->setParameter (holder->effect, control_port_indicies[i]
    - (numInputs + numOutputs), *(holder->control_memory + i))]. *)
Definition push_control (plugin : ptr) (copy i : nat)
  (desc : vst2_plugin_desc_t) : M () :=
  h ← load_holder plugin copy;
  e ← deref (holder_effect h);
  port ← array_get (desc_control_port_indicies desc) i;
  memory ← deref (control_memory h);
  c ← array_get memory i;
  v ← deref c;
  emit (EvSetParameter (effect_addr e)
          (to_int32 (Z.of_N port - (numInputs e + numOutputs e))) v).

Definition vst2_plugin_init_holder (plugin : ptr) (copy : nat)
  (effect : option AEffect) (vst2_context : vst2_context_t) : M () :=
  x ← load plugin;
  let desc := desc x in
  let n := N.to_nat (desc_control_port_count desc) in
  modify_holder plugin copy (set_holder_effect effect);;
  (if decide (0 < desc_control_port_count desc)%N then
     _ ← g_malloc (Z.of_N (desc_control_port_count desc));
     modify_holder plugin copy
       (set_ui_control_fifos (Some (replicate n None)));;
     _ ← g_malloc (Z.of_N (desc_control_port_count desc));
     modify_holder plugin copy (set_control_memory (Some (replicate n None)))
   else
     modify_holder plugin copy (set_ui_control_fifos None);;
     modify_holder plugin copy (set_control_memory None));;
  for_loop n 0 (λ i _,
    f ← lff_init CONTROL_FIFO_SIZE sizeof_LADSPA_Data;
    h ← load_holder plugin copy;
    fifos ← deref (ui_control_fifos h);
    fifos ← array_set fifos i (Some f);
    modify_holder plugin copy (set_ui_control_fifos (Some fifos));;
    port ← array_get (desc_control_port_indicies desc) i;
    h ← load_holder plugin copy;
    memory ← deref (control_memory h);
    memory ← array_set memory i
      (Some (vst2_plugin_desc_get_default_control_value E desc port
               (vst2_sample_rate E)));
    modify_holder plugin copy (set_control_memory (Some memory));;
    push_control plugin copy i desc) ();;
  (if decide (0 < desc_status_port_count desc)%N then
     _ ← g_malloc (Z.of_N (desc_status_port_count desc));
     modify_holder plugin copy
       (set_status_memory
          (Some (replicate (N.to_nat (desc_status_port_count desc)) None)))
   else modify_holder plugin copy (set_status_memory None));;
  h ← load_holder plugin copy;
  (if control_memory h is Some _ then
     for_loop (N.to_nat (desc_status_port_count desc)) 0
       (λ i _, push_control plugin copy i desc) ()
   else mret ());;
  procinfo ← get_procinfo;
  if decide (is_Some (jack_client procinfo)
             ∧ (0 < desc_aux_channels desc)%N)
  then vst2_plugin_create_aux_ports plugin copy vst2_context
  else mret ().

Definition vst2_plugin_new (desc : vst2_plugin_desc_t)
  (vst2_context : vst2_context_t) : M (option ptr) :=
  '(err, effect) ← vst2_plugin_open_plugin desc;
  if decide (err ≠ 0) then mret None else
  let copies :=
    vst2_plugin_desc_get_copies E desc (channels vst2_context) in
  effects_block ← g_malloc copies;
  '(err, effects) ←
    vst2_plugin_instantiate (desc_effect desc) (desc_index desc) copies
      (replicate (Z.to_nat copies) None);
  if decide (err ≠ 0)
  then g_free effects_block;; emit EvDlclose;; mret None
  else
  plugin ← alloc_plugin
    {| desc := desc; enabled := false; copies := copies; holders := [];
       audio_output_memory := []; wet_dry_enabled := false;
       wet_dry_values := []; wet_dry_fifos := [];
       next := None; prev := None |};
  let n := N.to_nat (channels vst2_context) in
  _ ← g_malloc (Z.of_N (channels vst2_context));
  store plugin (set_audio_output_memory (replicate n None));;
  _ ← g_malloc (Z.of_N (channels vst2_context));
  store plugin (set_wet_dry_fifos (replicate n None));;
  _ ← g_malloc (Z.of_N (channels vst2_context));
  store plugin (set_wet_dry_values (replicate n None));;
  for_loop n 0 (λ i _,
    buffer ← g_malloc (Z.of_N (vst2_buffer_size E));
    x ← load plugin;
    memory ← array_set (audio_output_memory x) i (Some buffer);
    store plugin (set_audio_output_memory memory);;
    f ← lff_init CONTROL_FIFO_SIZE sizeof_LADSPA_Data;
    x ← load plugin;
    fifos ← array_set (wet_dry_fifos x) i (Some f);
    store plugin (set_wet_dry_fifos fifos);;
    x ← load plugin;
    values ← array_set (wet_dry_values x) i (Some 1%Q);
    store plugin (set_wet_dry_values values)) ();;
  _ ← g_malloc copies;
  store plugin
    (set_holders (replicate (Z.to_nat copies) indeterminate_holder));;
  for_loop (Z.to_nat copies) 0 (λ i _,
    c ← array_get effects i;
    effect ← deref c;
    vst2_plugin_init_holder plugin i effect vst2_context) ();;
  mret (Some plugin).
End create.

(* ===================================================================== *)
(** ** The chain as a list of addresses *)
(* ===================================================================== *)

Definition hd_or (l : list ptr) (d : option ptr) : option ptr :=
  match l with
  | [] => d
  | p :: _ => Some p
  end.

Definition last_or (l : list ptr) (d : option ptr) : option ptr :=
  match last l with
  | Some p => Some p
  | None => d
  end.

(** [dseg m pp l qn]: the plugins at the addresses [l] are linked to each
    other in this order, the first one pointing back at [pp] and the last
    one pointing on to [qn]. *)
Fixpoint dseg (m : gmap ptr vst2_plugin_t) (pp : option ptr) (l : list ptr)
  (qn : option ptr) : Prop :=
  match l with
  | [] => True
  | p :: tl =>
    ∃ x, m !! p = Some x ∧ prev x = pp ∧ next x = hd_or tl qn
         ∧ dseg m (Some p) tl qn
  end.

(** The chain of [s] is the list [l], without repetition. *)
Definition chain_ok (s : state) (l : list ptr) : Prop :=
  NoDup l
  ∧ chain (procinfo s) = head l
  ∧ chain_end (procinfo s) = last l
  ∧ dseg (plugins s) None l None.

(** [copies] is a [gint] that counts the holders. *)
Definition holders_ok (x : vst2_plugin_t) : Prop :=
  0 ≤ copies x < 2 ^ 31 ∧ length (holders x) = Z.to_nat (copies x).

(** The plugins in memory have their holders, and plugins of one type have
    the same number of copies. *)
Definition nodes_ok (m : gmap ptr vst2_plugin_t) : Prop :=
  (∀ p x, m !! p = Some x → holders_ok x)
  ∧ (∀ p q x y, m !! p = Some x → m !! q = Some y →
       desc_id (desc x) = desc_id (desc y) → copies x = copies y).

(** Only a program with a JACK client touches the auxiliary ports. *)
Definition aux_ready (s : state) : Prop :=
  is_Some (jack_client (procinfo s)) → nodes_ok (plugins s).

(** A plugin with the auxiliary ports of its holders forgotten: two memories
    that agree after [erase_aux] differ in auxiliary ports only. *)
Definition erase_aux (x : vst2_plugin_t) : vst2_plugin_t :=
  set_holders (set_aux_ports None <$> holders x) x.

Definition same_but_aux (m m' : gmap ptr vst2_plugin_t) : Prop :=
  erase_aux <$> m = erase_aux <$> m'.

(** The auxiliary ports a plugin holds, copy by copy. *)
Definition aux_of (m : gmap ptr vst2_plugin_t) (p : ptr)
  : list (option (list (cell jack_port_t))) :=
  match m !! p with
  | Some x => aux_ports <$> holders x
  | None => []
  end.

(** The plugin at [q] has the descriptor id [i]. *)
Definition has_id (m : gmap ptr vst2_plugin_t) (i : Z) (q : ptr) : Prop :=
  (λ y, desc_id (desc y)) <$> m !! q = Some i.

#[global] Instance has_id_dec m i q : Decision (has_id m i q).
Proof. unfold has_id. apply _. Defined.

(** The holders [a] with the [aux_ports] of the holders [b], copy by copy. *)
Definition take_aux_ports (a b : list vst2_holder_t) : list vst2_holder_t :=
  zip_with (λ h h', set_aux_ports (aux_ports h') h) a b.

(** The same for the copies below [k] only. *)
Definition swap_prefix (k : nat) (a b : list vst2_holder_t)
  : list vst2_holder_t :=
  take_aux_ports (take k a) (take k b) ++ drop k a.

(** The state in which [plugin] (holding [x]) and [other] (holding [y]) have
    exchanged the auxiliary ports of their copies below [k]. *)
Definition swapped_upto (plugin other : ptr) (x y : vst2_plugin_t)
  (s : state) (k : nat) : state :=
  with_plugins
    (<[plugin := set_holders (swap_prefix k (holders x) (holders y)) x]>
       (<[other := set_holders (swap_prefix k (holders y) (holders x)) y]>
          (plugins s))) s.

(** The memory after [plugin] and [other] have exchanged all of them. *)
Definition swapped (plugin other : ptr) (x y : vst2_plugin_t)
  (m : gmap ptr vst2_plugin_t) : gmap ptr vst2_plugin_t :=
  <[plugin := set_holders (take_aux_ports (holders x) (holders y)) x]>
    (<[other := set_holders (take_aux_ports (holders y) (holders x)) y]> m).

(** The links of the plugin at an address: [None] where there is no plugin,
    [Some None] for a NULL link. *)
Definition prev_of (s : state) (q : ptr) : option (option ptr) :=
  prev <$> plugins s !! q.

Definition next_of (s : state) (q : ptr) : option (option ptr) :=
  next <$> plugins s !! q.

(** A plugin with its two links forgotten: two memories that agree after
    [erase_links] differ in links only. *)
Definition erase_links (x : vst2_plugin_t) : vst2_plugin_t :=
  set_prev None (set_next None x).

Definition same_but_links (m m' : gmap ptr vst2_plugin_t) : Prop :=
  erase_links <$> m = erase_links <$> m'.

(** What neither the links nor the auxiliary ports are part of. *)
Definition shape (x : vst2_plugin_t) : vst2_plugin_desc_t * Z * nat :=
  (desc x, copies x, length (holders x)).

Definition same_shape (m m' : gmap ptr vst2_plugin_t) : Prop :=
  shape <$> m = shape <$> m'.

(** What the [WITH_JACK] block of remove and change does to the auxiliary
    ports, from the memory [m] to the memory [m']: the plugins [F] of the
    type of [p] that follow it each take over the ports of the one before. *)
Definition ports_handed_down (jack : bool) (m m' : gmap ptr vst2_plugin_t)
  (p : ptr) (F : list ptr) : Prop :=
  if jack
  then aux_of m' <$> (F ++ [p]) = aux_of m <$> (p :: F)
       ∧ ∀ q, q ≠ p → q ∉ F → aux_of m' q = aux_of m q
  else ∀ q, aux_of m' q = aux_of m q.

(** What the [WITH_JACK] block of move does to the auxiliary ports. *)
Definition ports_exchanged (swap : bool) (m m' : gmap ptr vst2_plugin_t)
  (p q : ptr) : Prop :=
  if swap
  then aux_of m' p = aux_of m q ∧ aux_of m' q = aux_of m p
       ∧ ∀ r, r ≠ p → r ≠ q → aux_of m' r = aux_of m r
  else ∀ r, aux_of m' r = aux_of m r.

(** Two lists of addresses without a common one. *)
Definition disj (A B : list ptr) : Prop := ∀ x, x ∈ A → x ∉ B.

(* ===================================================================== *)
(** ** Traversals and sequences of operations *)
(* ===================================================================== *)

(** [for (p = start; p; p = p->link)], the plugins visited; no result for a
    walk that does not end within [fuel] plugins or leaves the memory. *)
Fixpoint walk (fuel : nat) (link : vst2_plugin_t → option ptr)
  (m : gmap ptr vst2_plugin_t) (start : option ptr) : option (list ptr) :=
  match start with
  | None => Some []
  | Some p =>
    match fuel with
    | O => None
    | S fuel' =>
      match m !! p with
      | Some x => (p ::.) <$> walk fuel' link m (link x)
      | None => None
      end
    end
  end.

(** A walk longer than the memory is in a cycle. *)
Definition traverse_forward (s : state) : option (list ptr) :=
  walk (S (size (plugins s))) next (plugins s) (chain (procinfo s)).

Definition traverse_backward (s : state) : option (list ptr) :=
  walk (S (size (plugins s))) prev (plugins s) (chain_end (procinfo s)).

(** The plugin at [p] is in the chain. *)
Definition linked (s : state) (p : ptr) : Prop :=
  p ∈ default [] (traverse_forward s).

(** The chain [l] of [s] is acyclic and doubly consistent. *)
Definition consistent (s : state) (l : list ptr) : Prop :=
  traverse_forward s = Some l
  ∧ traverse_backward s = Some (rev l)
  ∧ NoDup l
  ∧ (∀ n m, n ∈ l → next_of s n = Some (Some m) →
       prev_of s m = Some (Some n))
  ∧ (∀ n m, m ∈ l → prev_of s m = Some (Some n) →
       next_of s n = Some (Some m))
  ∧ (∀ h, chain (procinfo s) = Some h → prev_of s h = Some None)
  ∧ (∀ t, chain_end (procinfo s) = Some t → next_of s t = Some None).

(** The four operations of the topology manager. *)
Inductive operation :=
| Append (node : ptr)
| Remove (node : ptr)
| Move (node : ptr) (up : Z)
| Replace (node new_node : ptr).

Definition run_operation (o : operation) : M () :=
  match o with
  | Append p => vst2_process_add_plugin p
  | Remove p => vst2_process_remove_plugin p;; mret ()
  | Move p up => vst2_process_move_plugin p up
  | Replace p d => vst2_process_change_plugin p d;; mret ()
  end.

(** The precondition of an operation: a node that is appended or spliced in
    is a plugin in memory that is not in the chain, a node that is removed,
    moved or replaced is in the chain. *)
Definition precondition (s : state) (o : operation) : Prop :=
  match o with
  | Append p => is_Some (plugins s !! p) ∧ ¬ linked s p
  | Remove p => linked s p
  | Move p _ => linked s p
  | Replace p d => linked s p ∧ is_Some (plugins s !! d) ∧ ¬ linked s d
  end.

Fixpoint run_operations (ops : list operation) (s : state) : option state :=
  match ops with
  | [] => Some s
  | o :: ops' =>
    match run_operation o s with
    | Some (_, s') => run_operations ops' s'
    | None => None
    end
  end.

(** Every operation of the sequence is applied within its precondition. *)
Fixpoint preconditions (s : state) (ops : list operation) : Prop :=
  match ops with
  | [] => True
  | o :: ops' =>
    precondition s o
    ∧ match run_operation o s with
      | Some (_, s') => preconditions s' ops'
      | None => True
      end
  end.

(* ===================================================================== *)
(** ** Reasoning about computations *)
(* ===================================================================== *)

(** [wp m Q s]: if [m] run from [s] has a result, then [Q] holds of it. *)
Definition wp {A} (m : M A) (Q : A → state → Prop) (s : state) : Prop :=
  match m s with
  | Some (a, s') => Q a s'
  | None => True
  end.

(** [m] takes every state to a state related to it by [R]. *)
Definition preserves {A} (R : state → state → Prop) (m : M A) : Prop :=
  ∀ s, wp m (λ _ s', R s s') s.

(** Nothing but the holders of plugins, the blocks and the trace differs. *)
Definition holders_aside (s s' : state) : Prop :=
  procinfo s' = procinfo s
  ∧ dom (plugins s') = dom (plugins s)
  ∧ ∀ q, set_holders [] <$> plugins s' !! q
         = set_holders [] <$> plugins s !! q.

(** The allocations made and not released. *)
Definition outstanding (s s' : state) : gset ptr := blocks s' ∖ blocks s.

(** The wet/dry values of the plugin at [p], if there is one. *)
Definition wet_dry_of (p : ptr) (s : state)
  : option (list (cell LADSPA_Data)) :=
  wet_dry_values <$> plugins s !! p.

(** They are the same in both states. *)
Definition same_wet_dry (p : ptr) (s s' : state) : Prop :=
  wet_dry_of p s' = wet_dry_of p s.

(* ===================================================================== *)
(** ** Checking a given state *)
(* ===================================================================== *)

#[global] Instance holders_ok_dec x : Decision (holders_ok x).
Proof. unfold holders_ok. apply _. Defined.

#[global] Instance nodes_ok_dec m : Decision (nodes_ok m).
Proof.
  refine (cast_if (decide
    (map_Forall (λ _ x, holders_ok x) m
     ∧ map_Forall (λ _ x, map_Forall (λ _ y,
         desc_id (desc x) = desc_id (desc y) → copies x = copies y) m) m)));
    unfold nodes_ok, map_Forall in *.
  - destruct a as [H1 H2]. split; [exact H1|]. intros p q x y Hx Hy.
    exact (H2 p x Hx q y Hy).
  - intros [H1 H2]. apply n. split; [exact H1|]. intros p x Hx q y Hy.
    exact (H2 p q x y Hx Hy).
Defined.

#[global] Instance aux_ready_dec s : Decision (aux_ready s).
Proof. unfold aux_ready. apply _. Defined.

#[global] Instance linked_dec s p : Decision (linked s p).
Proof. unfold linked. apply _. Defined.

#[global] Instance precondition_dec s o : Decision (precondition s o).
Proof. destruct o; cbn; apply _. Defined.

#[global] Instance preconditions_dec ops : ∀ s, Decision (preconditions s ops).
Proof.
  induction ops as [|o ops IH]; intros s; cbn.
  - apply _.
  - destruct (run_operation o s) as [[[] s']|]; apply _.
Defined.

(** [dseg] and [chain_ok] as checks. *)
Fixpoint dsegb (m : gmap ptr vst2_plugin_t) (pp : option ptr) (l : list ptr)
  (qn : option ptr) : bool :=
  match l with
  | [] => true
  | p :: tl =>
    match m !! p with
    | Some x =>
      bool_decide (prev x = pp) && bool_decide (next x = hd_or tl qn)
      && dsegb m (Some p) tl qn
    | None => false
    end
  end.

Definition chain_okb (s : state) (l : list ptr) : bool :=
  bool_decide (NoDup l)
  && bool_decide (chain (procinfo s) = head l)
  && bool_decide (chain_end (procinfo s) = last l)
  && dsegb (plugins s) None l None.

(* ===================================================================== *)
(** ** Example states *)
(* ===================================================================== *)

Definition demo_effect : AEffect :=
  {| effect_addr := 100; numInputs := 2; numOutputs := 2 |}.

(** A plugin type with one control port, one status port and one auxiliary
    channel. *)
Definition demo_desc : vst2_plugin_desc_t :=
  {| desc_object_file := "demo.so"; desc_index := 0; desc_id := 7;
     desc_name := "Demo Plug In"; desc_effect := Some demo_effect;
     desc_channels := 1; desc_aux_channels := 1; desc_aux_are_input := true;
     desc_control_port_count := 1; desc_control_port_indicies := [4%N];
     desc_status_port_count := 1; desc_audio_input_port_indicies := [0%N] |}.

(** The same type, its entry point not resolved. *)
Definition dead_desc : vst2_plugin_desc_t :=
  {| desc_object_file := "dead.so"; desc_index := 0; desc_id := 8;
     desc_name := "Dead"; desc_effect := None;
     desc_channels := 1; desc_aux_channels := 0; desc_aux_are_input := true;
     desc_control_port_count := 0; desc_control_port_indicies := [];
     desc_status_port_count := 0; desc_audio_input_port_indicies := [0%N] |}.

Definition demo_extern : extern :=
  {| vst2_sample_rate := 48000; vst2_buffer_size := 256;
     vst2_plugin_desc_get_copies := λ d rack_channels, Z.of_N rack_channels;
     vst2_plugin_desc_get_default_control_value :=
       λ d port rate, inject_Z (Z.of_N port);
     jack_port_register :=
       λ tr name is_input, Some (Pos.of_nat (S (length tr))) |}.

Definition demo_context : vst2_context_t := {| channels := 2 |}.

(** A plugin of one copy that holds one auxiliary port. *)
Definition demo_plugin (port : jack_port_t) (pv nx : option ptr)
  : vst2_plugin_t :=
  {| desc := demo_desc; enabled := false; copies := 1;
     holders :=
       [ {| holder_effect := Some demo_effect; ui_control_fifos := None;
            control_memory := None; status_memory := None;
            aux_ports := Some [Some port] |} ];
     audio_output_memory := []; wet_dry_enabled := false;
     wet_dry_values := []; wet_dry_fifos := []; next := nx; prev := pv |}.

(** The chain 1 - 2 - 3 and a plugin 4 outside of it, with a JACK client. *)
Definition rack3 : state :=
  {| procinfo := {| chain := Some 1%positive; chain_end := Some 3%positive;
                    jack_client := Some 1%positive |};
     plugins :=
       <[1%positive := demo_plugin 10%positive None (Some 2%positive)]>
         (<[2%positive := demo_plugin 20%positive (Some 1%positive) (Some 3%positive)]>
            (<[3%positive := demo_plugin 30%positive (Some 2%positive) None]>
               (<[4%positive := demo_plugin 40%positive None None]> ∅)));
     blocks := ∅; trace := [] |}.

(** Four plugins and an empty chain. *)
Definition pool4 : state :=
  {| procinfo := {| chain := None; chain_end := None;
                    jack_client := Some 1%positive |};
     plugins :=
       <[1%positive := demo_plugin 10%positive None None]>
         (<[2%positive := demo_plugin 20%positive None None]>
            (<[3%positive := demo_plugin 30%positive None None]>
               (<[4%positive := demo_plugin 40%positive None None]> ∅)));
     blocks := ∅; trace := [] |}.

Definition demo_operations : list operation :=
  [Append 1%positive; Append 2%positive; Append 3%positive;
   Move 3%positive 1; Remove 1%positive; Replace 2%positive 4%positive;
   Move 4%positive 0].

(** Nothing at all, without a JACK client. *)
Definition nothing : state :=
  {| procinfo := {| chain := None; chain_end := None; jack_client := None |};
     plugins := ∅; blocks := ∅; trace := [] |}.

(** A plugin of type [demo_desc] whose array of holders has just been
    allocated. *)
Definition bare1 : state :=
  {| procinfo := {| chain := None; chain_end := None; jack_client := None |};
     plugins :=
       {[ 1%positive :=
            {| desc := demo_desc; enabled := false; copies := 1;
               holders := [indeterminate_holder];
               audio_output_memory := []; wet_dry_enabled := false;
               wet_dry_values := []; wet_dry_fifos := [];
               next := None; prev := None |} ]};
     blocks := ∅; trace := [] |}.

(** The state after the creation of a plugin of type [demo_desc]. *)
Definition demo_created : state :=
  match vst2_plugin_new demo_extern demo_desc demo_context nothing with
  | Some (_, s') => s'
  | None => nothing
  end.

(** The calls of [setParameter] in a trace, earliest first. *)
Definition set_parameter_calls (tr : list event)
  : list (ptr * Z * LADSPA_Data) :=
  omap (λ e, match e with
             | EvSetParameter a i v => Some (a, i, v)
             | _ => None
             end) (rev tr).

(** The mirror of the control ports in holder [copy] of the plugin at [p]:
    [None] where there is no such holder, [Some None] for a NULL mirror. *)
Definition control_memory_of (p : ptr) (copy : nat) (s : state)
  : option (option (list (cell LADSPA_Data))) :=
  match plugins s !! p with
  | Some x => control_memory <$> holders x !! copy
  | None => None
  end.

(** It is the same in both states. *)
Definition same_control_memory (p : ptr) (copy : nat) (s s' : state) : Prop :=
  control_memory_of p copy s' = control_memory_of p copy s.

(** The mirror [v] holds the defaults of the first [k] control ports. *)
Definition seeded (E : extern) (d : vst2_plugin_desc_t) (k : nat)
  (v : list (cell LADSPA_Data)) : Prop :=
  ∀ j port, (j < k)%nat → desc_control_port_indicies d !! j = Some port →
    v !! j = Some (Some (vst2_plugin_desc_get_default_control_value E d port
                           (vst2_sample_rate E))).


(* ===================================================================== *)
(** ** Enabling a plugin *)
(* ===================================================================== *)

Definition set_enabled (v : bool) (x : vst2_plugin_t) : vst2_plugin_t :=
  {| desc := desc x; enabled := v; copies := copies x;
     holders := holders x; audio_output_memory := audio_output_memory x;
     wet_dry_enabled := wet_dry_enabled x;
     wet_dry_values := wet_dry_values x; wet_dry_fifos := wet_dry_fifos x;
     next := next x; prev := prev x |}.

Definition set_wet_dry_enabled (v : bool) (x : vst2_plugin_t)
  : vst2_plugin_t :=
  {| desc := desc x; enabled := enabled x; copies := copies x;
     holders := holders x; audio_output_memory := audio_output_memory x;
     wet_dry_enabled := v;
     wet_dry_values := wet_dry_values x; wet_dry_fifos := wet_dry_fifos x;
     next := next x; prev := prev x |}.

(** [plugin->enabled = enable], a [gboolean] taken as the truth value it
    stands for. *)
Definition vst2_process_ablise_plugin (plugin : ptr) (enable : bool) : M () :=
  store plugin (set_enabled enable).

Definition vst2_process_ablise_vst2_plugin_wet_dry (plugin : ptr)
  (enable : bool) : M () :=
  store plugin (set_wet_dry_enabled enable).

(* ===================================================================== *)
(** ** What an edit of the chain may change *)
(* ===================================================================== *)

(** A plugin with its links and the auxiliary ports of its holders
    forgotten. *)
Definition core (x : vst2_plugin_t) : vst2_plugin_t :=
  erase_aux (erase_links x).

(** Nothing but auxiliary ports differs. *)
Definition ports_aside (s s' : state) : Prop :=
  procinfo s' = procinfo s ∧ blocks s' = blocks s ∧ trace s' = trace s
  ∧ same_but_aux (plugins s') (plugins s).

(** Nothing but links and auxiliary ports differs. *)
Definition links_and_ports_aside (s s' : state) : Prop :=
  procinfo s' = procinfo s ∧ blocks s' = blocks s ∧ trace s' = trace s
  ∧ core <$> plugins s' = core <$> plugins s.

(** Nothing but links, auxiliary ports and the two ends of the chain
    differs. *)
Definition edits_only (s s' : state) : Prop :=
  jack_client (procinfo s') = jack_client (procinfo s)
  ∧ blocks s' = blocks s ∧ trace s' = trace s
  ∧ core <$> plugins s' = core <$> plugins s.

(** [m], run from a state that [edits_only] relates to [s0], ends in such a
    state, with a result of which [P] holds. *)
Definition edits {A} (s0 : state) (P : A → Prop) (m : M A) : Prop :=
  ∀ s, edits_only s0 s → wp m (λ a s', edits_only s0 s' ∧ P a) s.

(** The state after the operations [demo_operations] on [pool4]. *)
Definition demo_edited : state :=
  default pool4 (run_operations demo_operations pool4).

(** The chain 1 - 2 - 3 of [rack3] in a program without a JACK client. *)
Definition quiet3 : state :=
  with_procinfo
    {| chain := Some 1%positive; chain_end := Some 3%positive;
       jack_client := None |} rack3.

(** Two plugins of one type, the second one without its holder. *)
Definition short2 : state :=
  {| procinfo := {| chain := None; chain_end := None;
                    jack_client := Some 1%positive |};
     plugins :=
       <[1%positive := demo_plugin 10%positive None None]>
         (<[2%positive := set_holders [] (demo_plugin 20%positive None None)]>
            ∅);
     blocks := ∅; trace := [] |}.

(* ===================================================================== *)
(** ** What the creation of a plugin leaves alone *)
(* ===================================================================== *)

(** The fields of a plugin that are assigned once, at its creation. *)
Definition header (x : vst2_plugin_t)
  : vst2_plugin_desc_t * bool * Z * bool * option ptr * option ptr :=
  (desc x, enabled x, copies x, wet_dry_enabled x, next x, prev x).

(** No block is released and neither the process info nor a plugin
    changes. *)
Definition grows (s s' : state) : Prop :=
  procinfo s' = procinfo s ∧ plugins s' = plugins s
  ∧ blocks s ⊆ blocks s'.

(** No block is released, and neither the process info, nor a plugin other
    than the one at [p], nor the header of that one changes. *)
Definition aside_from (p : ptr) (s s' : state) : Prop :=
  procinfo s' = procinfo s
  ∧ blocks s ⊆ blocks s'
  ∧ (∀ q, q ≠ p → plugins s' !! q = plugins s !! q)
  ∧ header <$> plugins s' !! p = header <$> plugins s !! p.

(** The holder [copy] of the plugin at [p], if there is one. *)
Definition holder_of (p : ptr) (copy : nat) (s : state)
  : option vst2_holder_t :=
  match plugins s !! p with
  | Some x => holders x !! copy
  | None => None
  end.

(** A field of it is the same in both states. *)
Definition same_holder_field {T} (proj : vst2_holder_t → T) (p : ptr)
  (copy : nat) (s s' : state) : Prop :=
  proj <$> holder_of p copy s' = proj <$> holder_of p copy s.

(** The mirror of the control ports of a holder is NULL for a descriptor
    without control ports and holds the default of every control port
    otherwise. *)
Definition mirror_seeded (E : extern) (d : vst2_plugin_desc_t)
  (h : vst2_holder_t) : Prop :=
  let n := N.to_nat (desc_control_port_count d) in
  if decide (0 < n)%nat
  then ∃ v, control_memory h = Some v ∧ length v = n ∧ seeded E d n v
  else control_memory h = None.

(** The calls of [setParameter] that push the defaults of the first [k]
    control ports of the descriptor [d] to the effect [e]. *)
Definition default_pushes (E : extern) (d : vst2_plugin_desc_t) (e : AEffect)
  (k : nat) : list (ptr * Z * LADSPA_Data) :=
  (λ port, (effect_addr e,
            to_int32 (Z.of_N port - (numInputs e + numOutputs e)),
            vst2_plugin_desc_get_default_control_value E d port
              (vst2_sample_rate E)))
  <$> take k (desc_control_port_indicies d).

(** The state after the creation of a plugin of type [demo_desc] beside the
    chain of [rack3]. *)
Definition rack3_created : state :=
  match vst2_plugin_new demo_extern demo_desc demo_context rack3 with
  | Some (_, s') => s'
  | None => rack3
  end.

(** The calls of [setParameter] made so far are the same in both states. *)
Definition same_calls (s s' : state) : Prop :=
  set_parameter_calls (trace s') = set_parameter_calls (trace s).

(** What the pushes of defaults by [vst2_plugin_init_holder] depend on and
    add to: the effect and the mirror of the holder, and the calls of
    [setParameter] made so far. *)
Definition pushes_state (p : ptr) (copy : nat) (s : state)
  : option (option AEffect) * option (option (list (cell LADSPA_Data)))
    * list (ptr * Z * LADSPA_Data) :=
  (holder_effect <$> holder_of p copy s,
   control_memory <$> holder_of p copy s,
   set_parameter_calls (trace s)).

(** The state after the initialisation of the holder of [bare1]. *)
Definition bare1_initialised : state :=
  match vst2_plugin_init_holder demo_extern 1%positive 0 (Some demo_effect)
          demo_context bare1 with
  | Some (_, s') => s'
  | None => bare1
  end.

(** A plugin type with more status ports than control ports. *)
Definition status_heavy_desc : vst2_plugin_desc_t :=
  {| desc_object_file := "heavy.so"; desc_index := 0; desc_id := 9;
     desc_name := "Heavy"; desc_effect := Some demo_effect;
     desc_channels := 1; desc_aux_channels := 0; desc_aux_are_input := true;
     desc_control_port_count := 1; desc_control_port_indicies := [4%N];
     desc_status_port_count := 2; desc_audio_input_port_indicies := [0%N] |}.

(** A plugin of that type whose array of holders has just been allocated. *)
Definition bare_heavy : state :=
  {| procinfo := {| chain := None; chain_end := None; jack_client := None |};
     plugins :=
       {[ 1%positive :=
            {| desc := status_heavy_desc; enabled := false; copies := 1;
               holders := [indeterminate_holder];
               audio_output_memory := []; wet_dry_enabled := false;
               wet_dry_values := []; wet_dry_fifos := [];
               next := None; prev := None |} ]};
     blocks := ∅; trace := [] |}.

(* ===================================================================== *)
(** ** The names of the auxiliary ports *)
(* ===================================================================== *)

(** [vst2_plugin_name] in [vst2_plugin_create_aux_ports]: the first seven
    characters of the name of the plugin, made jack worthy. *)
Definition aux_port_prefix (d : vst2_plugin_desc_t) : string :=
  map_string jack_worthy (g_strndup (desc_name d) 7).

(** Neither a blank nor an upper case letter. *)
Definition jack_worthy_char (c : ascii) : Prop :=
  nat_of_ascii c ≠ 32%nat ∧ ¬ (65 ≤ nat_of_ascii c ≤ 90)%nat.

Fixpoint string_Forall (P : ascii → Prop) (s : string) : Prop :=
  match s with
  | EmptyString => True
  | String c s' => P c ∧ string_Forall P s'
  end.

(** [sizeof port_name] in [vst2_plugin_create_aux_ports]. *)
Definition port_name_size : nat := 64.

(** The ports registered with JACK in a trace, earliest first: the name and
    whether the port is an input. *)
Definition port_registrations (tr : list event) : list (string * bool) :=
  omap (λ e, match e with
             | EvPortRegister name is_input => Some (name, is_input)
             | _ => None
             end) (rev tr).

(** They are the same in both states. *)
Definition same_registrations (s s' : state) : Prop :=
  port_registrations (trace s') = port_registrations (trace s).

(** The registrations of the first [k] auxiliary channels of copy [copy] of a
    plugin of the descriptor [d]. *)
Definition aux_port_registrations (d : vst2_plugin_desc_t) (copy k : nat)
  : list (string * bool) :=
  (λ i, (aux_port_name d copy (1 + N.of_nat i), desc_aux_are_input d))
  <$> seq 0 k.

(** Neither the process info nor the registrations of ports change. *)
Definition registrations_aside (s s' : state) : Prop :=
  procinfo s' = procinfo s ∧ same_registrations s s'.

(** Nothing but the plugin at [p] and the trace changes, and no port is
    registered. *)
Definition quiet (p : ptr) (s s' : state) : Prop :=
  aside_from p s s' ∧ same_registrations s s'.

(** The registrations of the auxiliary ports of the first [k] copies. *)
Definition copies_registrations (d : vst2_plugin_desc_t) (k : nat)
  : list (string * bool) :=
  concat ((λ copy, aux_port_registrations d copy
                     (N.to_nat (desc_aux_channels d))) <$> seq 0 k).

(* ===================================================================== *)
(** ** Connecting the outputs *)
(* ===================================================================== *)

Section connect.
(** [*buffer], the first sample of the buffer at an address; the buffers
    are filled by the process callback, which is not in this file. *)
Variable sample : ptr → option LADSPA_Data.

(** The body of the inner loop of [vst2_plugin_connect_output_ports], with
    [rack_channel++]. *)
Definition connect_output_port (plugin : ptr) (copy channel : nat)
  (rack_channel : nat) : M nat :=
  x ← load plugin;
  h ← array_get (holders x) copy;
  e ← deref (holder_effect h);
  port ← array_get (desc_audio_input_port_indicies (desc x)) channel;
  c ← array_get (audio_output_memory x) rack_channel;
  buffer ← deref c;
  buffer ← deref buffer;
  v ← deref (sample buffer);
  emit (EvSetParameter (effect_addr e)
          (to_int32 (Z.of_N port - (numInputs e + numOutputs e))) v);;
  mret (S rack_channel).

Definition vst2_plugin_connect_output_ports (plugin : option ptr) : M () :=
  match plugin with
  | None => mret ()
  | Some plugin =>
    x ← load plugin;
    for_loop (Z.to_nat (copies x)) 0 (λ copy rack_channel,
      for_loop (N.to_nat (desc_channels (desc x))) 0
        (λ channel rack_channel,
           connect_output_port plugin copy channel rack_channel)
        rack_channel) 0%nat;;
    mret ()
  end.

(** The call of [setParameter] for channel [channel] of copy [copy] of the
    plugin [x], the output buffer being the one of rack channel
    [rack_channel]. *)
Definition output_push (x : vst2_plugin_t) (copy channel rack_channel : nat)
  : option (ptr * Z * LADSPA_Data) :=
  h ← holders x !! copy;
  e ← holder_effect h;
  port ← desc_audio_input_port_indicies (desc x) !! channel;
  c ← audio_output_memory x !! rack_channel;
  buffer ← c;
  buffer ← buffer;
  v ← sample buffer;
  Some (effect_addr e,
        to_int32 (Z.of_N port - (numInputs e + numOutputs e)), v).
End connect.

(** Nothing but the trace changes. *)
Definition trace_aside (s s' : state) : Prop :=
  procinfo s' = procinfo s ∧ plugins s' = plugins s ∧ blocks s' = blocks s.

(** The first sample of every buffer is its address, as a number. *)
Definition demo_sample (b : ptr) : option LADSPA_Data :=
  Some (inject_Z (Z.pos b)).

(** The plugin that [demo_created] holds. *)
Definition demo_created_plugin : option ptr := Some 2%positive.

(** The state after its outputs have been connected. *)
Definition demo_connected : state :=
  match vst2_plugin_connect_output_ports demo_sample demo_created_plugin
          demo_created with
  | Some (_, s') => s'
  | None => demo_created
  end.
(* ===================================================================== *)
(** ** Running the monad *)
(* ===================================================================== *)

Lemma bind_run {A B} (m : M A) (f : A → M B) s :
  (m ≫= f) s = match m s with Some (x, s') => f x s' | None => None end.
Proof. reflexivity. Qed.

Lemma ret_run {A} (x : A) (s : state) : mret (M := M) x s = Some (x, s).
Proof. reflexivity. Qed.

Lemma load_run s p x : plugins s !! p = Some x → load p s = Some (x, s).
Proof. unfold load. by intros ->. Qed.

Lemma store_run s p x f :
  plugins s !! p = Some x →
  store p f s = Some ((), with_plugins (<[p := f x]> (plugins s)) s).
Proof. unfold store. by intros ->. Qed.

Lemma get_procinfo_run s : get_procinfo s = Some (procinfo s, s).
Proof. reflexivity. Qed.

Lemma put_procinfo_run v s : put_procinfo v s = Some ((), with_procinfo v s).
Proof. reflexivity. Qed.

Lemma array_get_run {A} (a : list A) i x s :
  a !! i = Some x → array_get a i s = Some (x, s).
Proof. unfold array_get. by intros ->. Qed.

Lemma set_holders_id x : set_holders (holders x) x = x.
Proof. by destruct x. Qed.

Lemma with_plugins_id s : with_plugins (plugins s) s = s.
Proof. by destruct s. Qed.

#[local] Arguments with_plugins _ _ /.
#[local] Arguments with_procinfo _ _ /.
#[local] Arguments with_blocks _ _ /.
#[local] Arguments with_trace _ _ /.

(** The state in normal form. *)
Ltac snorm :=
  cbn [plugins procinfo blocks trace with_plugins with_procinfo with_blocks
       with_trace].

(** Rewriting a lookup in a pile of stores. *)
Ltac lookup_tac :=
  snorm;
  repeat first [ rewrite lookup_insert_eq
               | rewrite lookup_insert_ne by congruence ];
  first [ eassumption | reflexivity ].

(** One step of a computation whose next action is determined. *)
Ltac mstep :=
  rewrite ?bind_run; snorm;
  first [ erewrite load_run by lookup_tac
        | erewrite store_run by lookup_tac
        | rewrite get_procinfo_run
        | rewrite put_procinfo_run
        | rewrite ret_run
        | erewrite array_get_run by eassumption ];
  snorm.

(* ===================================================================== *)
(** ** The exchange of auxiliary ports *)
(* ===================================================================== *)

Lemma swap_prefix_0 a b : swap_prefix 0 a b = a.
Proof. unfold swap_prefix. by rewrite !take_0, drop_0. Qed.

Lemma swap_prefix_all a b :
  length a = length b → swap_prefix (length a) a b = take_aux_ports a b.
Proof.
  intros E. unfold swap_prefix.
  rewrite take_ge, (take_ge b), drop_all by lia. apply app_nil_r.
Qed.

Lemma swap_prefix_lookup k a b :
  length a = length b → swap_prefix k a b !! k = a !! k.
Proof.
  intros E. unfold swap_prefix, take_aux_ports.
  destruct (decide (k < length a)%nat) as [Hk|Hk].
  - rewrite lookup_app_r; rewrite length_zip_with, !length_take; [|lia].
    rewrite lookup_drop. f_equal. lia.
  - rewrite (lookup_ge_None_2 a) by lia. apply lookup_ge_None_2.
    rewrite length_app, length_zip_with, !length_take, length_drop. lia.
Qed.

Lemma swap_prefix_S k a b h h' :
  length a = length b → a !! k = Some h → b !! k = Some h' →
  <[k := set_aux_ports (aux_ports h') h]> (swap_prefix k a b)
  = swap_prefix (S k) a b.
Proof.
  intros E Ha Hb. unfold swap_prefix, take_aux_ports.
  pose proof (lookup_lt_Some _ _ _ Ha) as Hk.
  rewrite (take_S_r a k h), (take_S_r b k h') by done.
  rewrite zip_with_app by (rewrite !length_take; lia).
  rewrite (drop_S a h k Ha). cbn [zip_with].
  rewrite <-app_assoc. cbn [app].
  rewrite insert_app_r_alt; rewrite length_zip_with, !length_take; [|lia].
  by replace (k - (k `min` length a) `min` (k `min` length b))%nat
    with 0%nat by lia.
Qed.

Section swap.
Variables (plugin other : ptr) (x y : vst2_plugin_t) (s : state).
Hypothesis Hne : plugin ≠ other.
Hypothesis Hx : plugins s !! plugin = Some x.
Hypothesis Hy : plugins s !! other = Some y.
Hypothesis Hlen : length (holders y) = length (holders x).

Lemma swap_aux_ports_copy_run k :
  (k < length (holders x))%nat →
  swap_aux_ports_copy plugin other k (swapped_upto plugin other x y s k)
  = Some ((), swapped_upto plugin other x y s (S k)).
Proof using Hne Hx Hy Hlen.
  intros Hk.
  destruct (lookup_lt_is_Some_2 (holders x) k Hk) as [hx Hhx].
  destruct (lookup_lt_is_Some_2 (holders y) k) as [hy Hhy]; [lia|].
  assert (swap_prefix k (holders x) (holders y) !! k = Some hx) as Ea
    by (by rewrite swap_prefix_lookup).
  assert (swap_prefix k (holders y) (holders x) !! k = Some hy) as Eb
    by (by rewrite swap_prefix_lookup).
  unfold swap_aux_ports_copy, load_aux_ports, store_aux_ports, swapped_upto.
  repeat (mstep; cbn [holders set_holders]).
  unfold with_plugins; cbn [plugins procinfo blocks trace].
  rewrite !swap_prefix_S by done.
  do 3 f_equal.
  apply map_eq. intros i.
  destruct (decide (i = plugin)) as [->|];
    [rewrite !lookup_insert_eq; reflexivity|].
  destruct (decide (i = other)) as [->|].
  - rewrite !(lookup_insert_ne _ plugin), !lookup_insert_eq by congruence.
    reflexivity.
  - by rewrite !lookup_insert_ne by congruence.
Qed.

Lemma swap_loop_run j : ∀ k,
  (k + j = length (holders x))%nat →
  for_loop j k (λ copy _, swap_aux_ports_copy plugin other copy) ()
    (swapped_upto plugin other x y s k)
  = Some ((), swapped_upto plugin other x y s (length (holders x))).
Proof using Hne Hx Hy Hlen.
  induction j as [|j IH]; intros k Hk.
  - replace k with (length (holders x)) by lia. reflexivity.
  - cbn [for_loop]. rewrite bind_run, swap_aux_ports_copy_run by lia.
    apply IH. lia.
Qed.

Lemma swap_aux_ports_run :
  holders_ok x →
  vst2_plugin_swap_aux_ports plugin other s
  = Some ((), with_plugins (swapped plugin other x y (plugins s)) s).
Proof using Hne Hx Hy Hlen.
  intros [Hc Hl]. unfold vst2_plugin_swap_aux_ports. mstep.
  replace (to_guint (copies x)) with (length (holders x)).
  2:{ unfold to_guint. rewrite Z.mod_small by lia. done. }
  assert (s = swapped_upto plugin other x y s 0) as E0.
  { unfold swapped_upto. rewrite !swap_prefix_0, !set_holders_id.
    rewrite (insert_id _ other) by done. rewrite insert_id by done.
    by rewrite with_plugins_id. }
  rewrite E0 at 1.
  rewrite swap_loop_run by lia. unfold swapped_upto, swapped.
  rewrite <-Hlen at 2. by rewrite !swap_prefix_all.
Qed.
End swap.

(* ===================================================================== *)
(** ** Memories that differ in auxiliary ports only *)
(* ===================================================================== *)

Lemma same_but_aux_lookup m m' p x :
  same_but_aux m m' → m !! p = Some x →
  ∃ x', m' !! p = Some x' ∧ erase_aux x' = erase_aux x.
Proof.
  intros E Hx. apply (f_equal (.!! p)) in E. rewrite !lookup_fmap, Hx in E.
  destruct (m' !! p) as [x'|]; [|done]. exists x'. split; [done|].
  change (Some (erase_aux x) = Some (erase_aux x')) in E. congruence.
Qed.

Lemma same_but_aux_sym m m' : same_but_aux m m' → same_but_aux m' m.
Proof. unfold same_but_aux. congruence. Qed.

Lemma same_but_aux_trans m1 m2 m3 :
  same_but_aux m1 m2 → same_but_aux m2 m3 → same_but_aux m1 m3.
Proof. unfold same_but_aux. congruence. Qed.

Lemma erase_aux_links x x' :
  erase_aux x' = erase_aux x →
  prev x' = prev x ∧ next x' = next x ∧ desc x' = desc x
  ∧ copies x' = copies x ∧ length (holders x') = length (holders x).
Proof.
  intros E. repeat split.
  - apply (f_equal prev) in E. exact E.
  - apply (f_equal next) in E. exact E.
  - apply (f_equal desc) in E. exact E.
  - apply (f_equal copies) in E. exact E.
  - apply (f_equal (λ z, length (holders z))) in E. cbn in E.
    by rewrite !length_fmap in E.
Qed.

Lemma dseg_same_but_aux m m' l : ∀ pp qn,
  same_but_aux m m' → dseg m pp l qn → dseg m' pp l qn.
Proof.
  induction l as [|p tl IH]; intros pp qn E; [done|].
  intros (x & Hx & Hp & Hn & Htl).
  destruct (same_but_aux_lookup _ _ _ _ E Hx) as (x' & Hx' & Ex).
  destruct (erase_aux_links _ _ Ex) as (Ep & En & _).
  exists x'. repeat split; [done|congruence|congruence|by apply IH].
Qed.

Lemma same_shape_lookup m m' p x :
  same_shape m m' → m !! p = Some x →
  ∃ x', m' !! p = Some x' ∧ shape x' = shape x.
Proof.
  intros E Hx. apply (f_equal (.!! p)) in E. rewrite !lookup_fmap, Hx in E.
  destruct (m' !! p) as [x'|]; [|done]. exists x'. split; [done|].
  change (Some (shape x) = Some (shape x')) in E. congruence.
Qed.

Lemma same_shape_sym m m' : same_shape m m' → same_shape m' m.
Proof. unfold same_shape. congruence. Qed.

Lemma same_but_aux_shape m m' : same_but_aux m m' → same_shape m m'.
Proof.
  unfold same_but_aux, same_shape. intros E.
  assert (∀ x, shape x = shape (erase_aux x)) as Hs.
  { intros x. unfold shape, erase_aux. cbn. by rewrite length_fmap. }
  rewrite (map_fmap_ext shape (shape ∘ erase_aux) m) by (intros; apply Hs).
  rewrite (map_fmap_ext shape (shape ∘ erase_aux) m') by (intros; apply Hs).
  by rewrite !map_fmap_compose, E.
Qed.

Lemma same_but_links_shape m m' : same_but_links m m' → same_shape m m'.
Proof.
  unfold same_but_links, same_shape. intros E.
  rewrite (map_fmap_ext shape (shape ∘ erase_links) m) by done.
  rewrite (map_fmap_ext shape (shape ∘ erase_links) m') by done.
  by rewrite !map_fmap_compose, E.
Qed.

Lemma nodes_ok_same_shape m m' : same_shape m m' → nodes_ok m → nodes_ok m'.
Proof.
  intros E [Hh Hc]. apply same_shape_sym in E. split.
  - intros p x' Hx'.
    destruct (same_shape_lookup _ _ _ _ E Hx') as (x & Hx & [= Ed Ec El]).
    destruct (Hh _ _ Hx) as [? ?]. split; congruence.
  - intros p q x' y' Hx' Hy' Hid.
    destruct (same_shape_lookup _ _ _ _ E Hx') as (x & Hx & [= Ed Ec El]).
    destruct (same_shape_lookup _ _ _ _ E Hy') as (y & Hy & [= Ed' Ec' El']).
    rewrite <-Ec, <-Ec'. apply (Hc p q); [done|done|congruence].
Qed.

Lemma has_id_same_shape m m' i q :
  same_shape m m' → has_id m i q ↔ has_id m' i q.
Proof.
  intros E. apply (f_equal (.!! q)) in E. rewrite !lookup_fmap in E.
  unfold has_id.
  destruct (m !! q) as [y|], (m' !! q) as [y'|]; try done.
  change (Some (shape y) = Some (shape y')) in E.
  injection E as Ed _ _. cbn. by rewrite Ed.
Qed.

Lemma nodes_ok_same_but_aux m m' :
  same_but_aux m m' → nodes_ok m → nodes_ok m'.
Proof. intros E. by apply nodes_ok_same_shape, same_but_aux_shape. Qed.

Lemma has_id_same_but_aux m m' i q :
  same_but_aux m m' → has_id m i q ↔ has_id m' i q.
Proof. intros E. by apply has_id_same_shape, same_but_aux_shape. Qed.

Lemma same_but_links_sym m m' : same_but_links m m' → same_but_links m' m.
Proof. unfold same_but_links. congruence. Qed.

Lemma same_but_links_insert m m' a y y' :
  m' !! a = Some y → erase_links y' = erase_links y →
  same_but_links m' m → same_but_links (<[a := y']> m') m.
Proof.
  unfold same_but_links. intros Hy Ey <-.
  by rewrite fmap_insert, Ey, <-fmap_insert, insert_id.
Qed.

Lemma aux_of_same_but_links m m' q :
  same_but_links m m' → aux_of m q = aux_of m' q.
Proof.
  intros E. apply (f_equal (.!! q)) in E. rewrite !lookup_fmap in E.
  unfold aux_of. destruct (m !! q) as [y|], (m' !! q) as [y'|]; try done.
  change (Some (erase_links y) = Some (erase_links y')) in E.
  assert (erase_links y = erase_links y') as E' by congruence.
  apply (f_equal holders) in E'. cbn in E'. by rewrite E'.
Qed.

Lemma erase_take_aux_ports a : ∀ b,
  length a = length b →
  set_aux_ports None <$> take_aux_ports a b = set_aux_ports None <$> a.
Proof.
  induction a as [|h a IH]; intros [|h' b] E; try done.
  cbn. f_equal. apply IH. cbn in E. lia.
Qed.

Lemma aux_take_aux_ports a : ∀ b,
  length a = length b → aux_ports <$> take_aux_ports a b = aux_ports <$> b.
Proof.
  induction a as [|h a IH]; intros [|h' b] E; try done.
  cbn. f_equal. apply IH. cbn in E. lia.
Qed.

Lemma same_but_aux_swapped m plugin other x y :
  m !! plugin = Some x → m !! other = Some y →
  length (holders y) = length (holders x) →
  same_but_aux (swapped plugin other x y m) m.
Proof.
  intros Hx Hy El. unfold same_but_aux, swapped. apply map_eq. intros i.
  rewrite !lookup_fmap.
  destruct (decide (i = plugin)) as [->|].
  { rewrite lookup_insert_eq, Hx. cbn. f_equal. unfold erase_aux. cbn.
    by rewrite erase_take_aux_ports. }
  rewrite lookup_insert_ne by congruence.
  destruct (decide (i = other)) as [->|].
  { rewrite lookup_insert_eq, Hy. cbn. f_equal. unfold erase_aux. cbn.
    by rewrite erase_take_aux_ports. }
  by rewrite lookup_insert_ne by congruence.
Qed.

Lemma aux_of_swapped m plugin other x y :
  plugin ≠ other →
  length (holders y) = length (holders x) →
  aux_of (swapped plugin other x y m) plugin = aux_ports <$> holders y
  ∧ aux_of (swapped plugin other x y m) other = aux_ports <$> holders x
  ∧ ∀ q, q ≠ plugin → q ≠ other →
      swapped plugin other x y m !! q = m !! q.
Proof.
  intros Hne El. unfold aux_of, swapped. repeat split.
  - rewrite lookup_insert_eq. cbn. by rewrite aux_take_aux_ports.
  - rewrite lookup_insert_ne, lookup_insert_eq by done. cbn.
    by rewrite aux_take_aux_ports.
  - intros q ? ?. by rewrite !lookup_insert_ne by congruence.
Qed.

(* ===================================================================== *)
(** ** The walk over the successors *)
(* ===================================================================== *)

Lemma head_hd_or (l : list ptr) : head l = hd_or l None.
Proof. by destruct l. Qed.

Lemma fmap_aux_of_ext m m' (l : list ptr) :
  (∀ q, q ∈ l → m' !! q = m !! q) → aux_of m' <$> l = aux_of m <$> l.
Proof.
  intros H. apply list_fmap_ext. intros i q Hq. unfold aux_of.
  rewrite H; [done|]. by eapply list_elem_of_lookup_2.
Qed.

Lemma filter_has_id_ext m m' i (l : list ptr) :
  same_but_aux m m' → filter (has_id m i) l = filter (has_id m' i) l.
Proof.
  intros E. apply list_filter_iff. intros q. by apply has_id_same_but_aux.
Qed.

Lemma swap_matching_successors_run plugin l : ∀ s fuel pp x,
  plugins s !! plugin = Some x →
  plugin ∉ l → NoDup l →
  dseg (plugins s) pp l None →
  nodes_ok (plugins s) →
  (length l < fuel)%nat →
  ∃ m',
    swap_matching_successors fuel plugin (head l) s
    = Some ((), with_plugins m' s)
    ∧ same_but_aux m' (plugins s)
    ∧ (∀ q, q ≠ plugin →
         q ∉ filter (has_id (plugins s) (desc_id (desc x))) l →
         m' !! q = plugins s !! q)
    ∧ aux_of m' <$>
        (filter (has_id (plugins s) (desc_id (desc x))) l ++ [plugin])
      = aux_of (plugins s) <$>
        (plugin :: filter (has_id (plugins s) (desc_id (desc x))) l).
Proof.
  induction l as [|o tl IH]; intros s fuel pp x Hx Hnin Hnd Hseg Hok Hfuel.
  { exists (plugins s). rewrite with_plugins_id. by destruct fuel. }
  destruct Hseg as (y & Hy & _ & Hny & Htl).
  apply not_elem_of_cons in Hnin as [Hpo Hnin].
  apply NoDup_cons in Hnd as [Hotl Hnd].
  destruct fuel as [|fuel]; [cbn in Hfuel; lia|].
  cbn [head swap_matching_successors]. do 2 mstep.
  destruct (decide (desc_id (desc y) = desc_id (desc x))) as [Hid|Hid].
  - destruct Hok as [Hh Hc].
    assert (length (holders y) = length (holders x)) as El.
    { destruct (Hh _ _ Hx) as [_ ->], (Hh _ _ Hy) as [_ ->].
      f_equal. by apply (Hc o plugin). }
    rewrite bind_run, (swap_aux_ports_run plugin o x y) by eauto.
    pose proof (same_but_aux_swapped _ _ _ _ _ Hx Hy El) as Esw.
    destruct (aux_of_swapped (plugins s) plugin o x y Hpo El)
      as (Ap & Ao & Afr).
    set (m1 := swapped plugin o x y (plugins s)) in *.
    assert (m1 !! o
            = Some (set_holders (take_aux_ports (holders y) (holders x)) y))
      as Hy1.
    { unfold m1, swapped. by rewrite lookup_insert_ne, lookup_insert_eq. }
    assert (m1 !! plugin
            = Some (set_holders (take_aux_ports (holders x) (holders y)) x))
      as Hx1.
    { unfold m1, swapped. by rewrite lookup_insert_eq. }
    mstep. cbn [next set_holders]. rewrite Hny, <-head_hd_or.
    destruct (IH (with_plugins m1 s) fuel (Some o) _ Hx1 Hnin Hnd)
      as (m' & Hrun & Esb & Hfr & Hrot).
    { apply (dseg_same_but_aux (plugins s)); [by apply same_but_aux_sym|].
      done. }
    { cbn. apply (nodes_ok_same_but_aux (plugins s));
        [by apply same_but_aux_sym|done]. }
    { cbn in Hfuel. lia. }
    cbn [plugins with_plugins desc set_holders] in *.
    rewrite <-(filter_has_id_ext (plugins s) m1) in Hfr, Hrot
      by (by apply same_but_aux_sym).
    exists m'. split; [exact Hrun|]. split.
    { by eapply same_but_aux_trans. }
    rewrite filter_cons_True by (unfold has_id; rewrite Hy; cbn; congruence).
    set (F := filter (has_id (plugins s) (desc_id (desc x))) tl) in *.
    assert (∀ q, q ∈ F → q ∈ tl) as HF.
    { intros q Hq. by apply list_elem_of_filter in Hq as [_ ?]. }
    split.
    { intros q Hq Hqn. apply not_elem_of_cons in Hqn as [Hqo Hqn].
      rewrite Hfr by done. by apply Afr. }
    cbn [app fmap list_fmap]. rewrite Hrot. cbn [fmap list_fmap].
    f_equal.
    { unfold aux_of at 1. rewrite Hfr; [|done|by intros ?%HF].
      fold (aux_of m1 o). rewrite Ao. unfold aux_of. by rewrite Hx. }
    f_equal.
    { rewrite Ap. unfold aux_of. by rewrite Hy. }
    apply fmap_aux_of_ext. intros q Hq%HF. apply Afr; congruence.
  - do 2 mstep. rewrite Hny, <-head_hd_or.
    destruct (IH s fuel (Some o) x Hx Hnin Hnd Htl Hok)
      as (m' & Hrun & Esb & Hfr & Hrot).
    { cbn in Hfuel. lia. }
    exists m'. split; [exact Hrun|]. split; [done|].
    rewrite filter_cons_False by (unfold has_id; rewrite Hy; cbn; congruence).
    done.
Qed.

(* ===================================================================== *)
(** ** Segments of the chain *)
(* ===================================================================== *)

Lemma hd_or_app l1 l2 d : hd_or (l1 ++ l2) d = hd_or l1 (hd_or l2 d).
Proof. by destruct l1. Qed.

Lemma last_or_nil d : last_or [] d = d.
Proof. done. Qed.

Lemma last_or_snoc l a d : last_or (l ++ [a]) d = Some a.
Proof. unfold last_or. by rewrite last_snoc. Qed.

Lemma last_or_cons a l d : last_or (a :: l) d = last_or l (Some a).
Proof.
  unfold last_or. destruct l as [|b l] using rev_ind; [done|].
  by rewrite app_comm_cons, !last_snoc.
Qed.

Lemma last_or_app l1 l2 d : last_or (l1 ++ l2) d = last_or l2 (last_or l1 d).
Proof.
  destruct l2 as [|b l2] using rev_ind.
  - by rewrite app_nil_r.
  - by rewrite app_assoc, !last_or_snoc.
Qed.

Lemma head_app_hd_or (l1 l2 : list ptr) : head (l1 ++ l2) = hd_or l1 (head l2).
Proof. by destruct l1. Qed.

Lemma last_last_or (l : list ptr) : last l = last_or l None.
Proof. unfold last_or. by destruct (last l). Qed.

Lemma last_app_last_or (l1 l2 : list ptr) :
  last (l1 ++ l2) = last_or l2 (last l1).
Proof. by rewrite !last_last_or, last_or_app. Qed.

Lemma last_cons_last_or (a : ptr) l : last (a :: l) = last_or l (Some a).
Proof. by rewrite last_last_or, last_or_cons. Qed.

Lemma last_nil_None : last (@nil ptr) = None.
Proof. done. Qed.

Lemma dseg_cons m pp p tl qn :
  dseg m pp (p :: tl) qn ↔
  (∃ x, m !! p = Some x ∧ prev x = pp ∧ next x = hd_or tl qn)
  ∧ dseg m (Some p) tl qn.
Proof.
  cbn. split.
  - intros (x & ? & ? & ? & ?). eauto 10.
  - intros [(x & ? & ? & ?) ?]. eauto 10.
Qed.

Lemma dseg_app m l1 : ∀ pp l2 qn,
  dseg m pp (l1 ++ l2) qn ↔
  dseg m pp l1 (hd_or l2 qn) ∧ dseg m (last_or l1 pp) l2 qn.
Proof.
  induction l1 as [|p l1 IH]; intros pp l2 qn.
  - cbn. tauto.
  - rewrite <-app_comm_cons, !dseg_cons, IH, hd_or_app, last_or_cons.
    tauto.
Qed.

Lemma dseg_single m pp p qn :
  dseg m pp [p] qn ↔ ∃ x, m !! p = Some x ∧ prev x = pp ∧ next x = qn.
Proof.
  cbn. split.
  - intros (x & ? & ? & ? & _). eauto.
  - intros (x & ? & ? & ?). eauto 10.
Qed.

Lemma dseg_snoc m pp l p qn :
  dseg m pp (l ++ [p]) qn ↔
  dseg m pp l (Some p)
  ∧ ∃ x, m !! p = Some x ∧ prev x = last_or l pp ∧ next x = qn.
Proof. by rewrite dseg_app, dseg_single. Qed.

(** A segment only depends on the plugins it goes through. *)
Lemma dseg_frame m m' l : ∀ pp qn,
  (∀ p, p ∈ l → m' !! p = m !! p) → dseg m pp l qn → dseg m' pp l qn.
Proof.
  induction l as [|p tl IH]; intros pp qn Hfr; [done|].
  intros (x & Hx & Hp & Hn & Htl). exists x. repeat split; try done.
  - rewrite Hfr; [done|]. by left.
  - apply IH; [|done]. intros q Hq. apply Hfr. by right.
Qed.

Lemma dseg_lookup m l : ∀ pp qn p,
  dseg m pp l qn → p ∈ l → is_Some (m !! p).
Proof.
  induction l as [|a tl IH]; intros pp qn p Hs Hp.
  - by apply elem_of_nil in Hp.
  - destruct Hs as (x & Hx & _ & _ & Htl).
    apply elem_of_cons in Hp as [->|Hp]; [by eexists|by eapply IH].
Qed.

Lemma dseg_length m l pp qn :
  NoDup l → dseg m pp l qn → (length l ≤ size m)%nat.
Proof.
  intros Hnd Hs.
  rewrite <-(size_list_to_set (C := gset ptr) l), <-size_dom by done.
  apply subseteq_size. intros p Hp. apply elem_of_list_to_set in Hp.
  apply elem_of_dom. by eapply dseg_lookup.
Qed.

(** The links of a segment, read from either end. *)
Lemma dseg_next m l : ∀ pp qn i p,
  dseg m pp l qn → l !! i = Some p →
  next <$> m !! p = Some (hd_or (drop (S i) l) qn).
Proof.
  induction l as [|a tl IH]; intros pp qn i p Hs Hi; [done|].
  destruct Hs as (x & Hx & _ & Hn & Htl). destruct i as [|i].
  - injection Hi as <-. rewrite Hx. cbn. by rewrite drop_0, Hn.
  - cbn in Hi. cbn [drop]. by eapply IH.
Qed.

Lemma dseg_prev m l : ∀ pp qn i p,
  dseg m pp l qn → l !! i = Some p →
  prev <$> m !! p = Some (last_or (take i l) pp).
Proof.
  induction l as [|a tl IH]; intros pp qn i p Hs Hi; [done|].
  destruct Hs as (x & Hx & Hp & _ & Htl). destruct i as [|i].
  - injection Hi as <-. rewrite Hx. cbn. by rewrite Hp.
  - cbn in Hi. cbn [take]. rewrite last_or_cons. by eapply IH.
Qed.

(** The [WITH_JACK] block of remove and change, run after a plugin whose
    [next] still leads through the successors [l] it had. *)
Lemma sort_out_aux_ports_run s plugin x l pp :
  plugins s !! plugin = Some x → next x = head l →
  plugin ∉ l → NoDup l → dseg (plugins s) pp l None → aux_ready s →
  ∃ m',
    sort_out_aux_ports plugin s = Some ((), with_plugins m' s)
    ∧ same_but_aux m' (plugins s)
    ∧ if decide (is_Some (jack_client (procinfo s))
                 ∧ (0 < desc_aux_channels (desc x))%N)
      then
        (∀ q, q ≠ plugin →
           q ∉ filter (has_id (plugins s) (desc_id (desc x))) l →
           m' !! q = plugins s !! q)
        ∧ aux_of m' <$>
            (filter (has_id (plugins s) (desc_id (desc x))) l ++ [plugin])
          = aux_of (plugins s) <$>
            (plugin :: filter (has_id (plugins s) (desc_id (desc x))) l)
      else m' = plugins s.
Proof.
  intros Hx Hn Hnin Hnd Hs Hready. unfold sort_out_aux_ports. do 2 mstep.
  case_decide as Hj.
  - unfold get_state. rewrite bind_run, Hn.
    destruct (swap_matching_successors_run plugin l s (S (size (plugins s)))
                pp x Hx Hnin Hnd Hs) as (m' & Hrun & Esb & Hfr & Hrot).
    { apply Hready, Hj. }
    { pose proof (dseg_length _ _ _ _ Hnd Hs). lia. }
    exists m'. done.
  - exists (plugins s). mstep. by destruct s.
Qed.

(* ===================================================================== *)
(** ** The operations on a well formed chain *)
(* ===================================================================== *)

(** Links that are known are rewritten on the way. *)
Ltac link_rw :=
  cbn [prev next desc copies holders set_next set_prev set_holders
       chain chain_end jack_client set_chain set_chain_end];
  repeat match goal with
         | H : prev ?x = _ |- context [prev ?x] => rewrite H
         | H : next ?x = _ |- context [next ?x] => rewrite H
         | H : chain ?x = _ |- context [chain ?x] => rewrite H
         | H : chain_end ?x = _ |- context [chain_end ?x] => rewrite H
         end;
  cbn [hd_or last_or].

Ltac run := repeat (mstep; link_rw).


(** Memories that differ in links only, store after store. *)
Ltac links_tac :=
  snorm;
  repeat (eapply same_but_links_insert; [lookup_tac|reflexivity|]);
  reflexivity.

(** Lists without repetition, taken apart into what they say of their
    segments and of the plugins between them. *)
Lemma nd_app (A B : list ptr) : NoDup (A ++ B) ↔ NoDup A ∧ disj A B ∧ NoDup B.
Proof. apply NoDup_app. Qed.

Lemma nd_cons (a : ptr) A : NoDup (a :: A) ↔ (a ∉ A) ∧ NoDup A.
Proof. apply NoDup_cons. Qed.

Lemma nd_nil : NoDup (@nil ptr) ↔ True.
Proof. split; [done|]. intros _. apply NoDup_nil_2. Qed.

Lemma disj_sym A B : disj A B → disj B A.
Proof. unfold disj. intros H x Hx Hx'. by apply (H x). Qed.

Lemma disj_nil_l B : disj [] B ↔ True.
Proof. split; [done|]. intros _ x Hx. by apply elem_of_nil in Hx. Qed.

Lemma disj_cons_l a A B : disj (a :: A) B ↔ (a ∉ B) ∧ disj A B.
Proof.
  unfold disj. split.
  - intros H. split; [apply H; by left|]. intros x Hx. apply H. by right.
  - intros [Ha H] x Hx. apply elem_of_cons in Hx as [->|Hx]; [done|].
    by apply H.
Qed.

Lemma disj_app_l A1 A2 B : disj (A1 ++ A2) B ↔ disj A1 B ∧ disj A2 B.
Proof.
  unfold disj. split.
  - intros H. split; intros x Hx; apply H; apply elem_of_app; auto.
  - intros [H1 H2] x Hx. apply elem_of_app in Hx as [Hx|Hx]; auto.
Qed.

Lemma disj_nil_r A : disj A [] ↔ True.
Proof. split; [done|]. intros _ x _ Hx. by apply elem_of_nil in Hx. Qed.

Lemma disj_cons_r A b B : disj A (b :: B) ↔ (b ∉ A) ∧ disj A B.
Proof.
  split.
  - intros H%disj_sym%disj_cons_l. split; [tauto|]. apply disj_sym. tauto.
  - intros [Hb H]. apply disj_sym, disj_cons_l. split; [done|].
    by apply disj_sym.
Qed.

Lemma disj_app_r A B1 B2 : disj A (B1 ++ B2) ↔ disj A B1 ∧ disj A B2.
Proof.
  split.
  - intros H%disj_sym%disj_app_l. split; apply disj_sym; tauto.
  - intros [H1 H2]. apply disj_sym, disj_app_l. split; by apply disj_sym.
Qed.

Lemma notin_nil (a : ptr) : a ∉ [] ↔ True.
Proof. split; [done|]. intros _ H. by apply elem_of_nil in H. Qed.

Lemma notin_cons (a b : ptr) B : a ∉ b :: B ↔ a ≠ b ∧ (a ∉ B).
Proof. apply not_elem_of_cons. Qed.

Lemma notin_app (a : ptr) A B : a ∉ A ++ B ↔ (a ∉ A) ∧ (a ∉ B).
Proof. apply not_elem_of_app. Qed.

Ltac nd_rw :=
  repeat (progress rewrite ?nd_app, ?nd_cons, ?nd_nil, ?disj_app_l,
            ?disj_cons_l, ?disj_nil_l, ?disj_app_r, ?disj_cons_r,
            ?disj_nil_r, ?notin_app, ?notin_cons, ?notin_nil).

Ltac nd_rw_in H :=
  repeat (progress rewrite ?nd_app, ?nd_cons, ?nd_nil, ?disj_app_l,
            ?disj_cons_l, ?disj_nil_l, ?disj_app_r, ?disj_cons_r,
            ?disj_nil_r, ?notin_app, ?notin_cons, ?notin_nil in H).

Ltac nodup_hyps :=
  repeat match goal with
         | H : NoDup (_ ++ _) |- _ => nd_rw_in H
         | H : NoDup (_ :: _) |- _ => nd_rw_in H
         | H : _ ∉ _ ++ _ |- _ => nd_rw_in H
         | H : _ ∉ _ :: _ |- _ => nd_rw_in H
         | H : _ ∧ _ |- _ => destruct H
         | H : True |- _ => clear H
         end.

Ltac nd_atom :=
  first [ assumption | congruence | by apply disj_sym | exact I ].

Ltac nodup_goal := nd_rw; repeat split; nd_atom.

Ltac list_rw :=
  repeat (progress rewrite ?app_nil_r, ?head_app_hd_or, ?hd_or_app,
            ?last_nil_None, ?last_cons_last_or, ?last_app_last_or,
            ?last_or_snoc, ?last_or_app, ?last_or_cons, ?last_or_nil);
  cbn [hd_or head app].

Ltac frame_goal H :=
  eapply dseg_frame; [|exact H];
  let q := fresh "q" in let Hq := fresh "Hq" in
  intros q Hq; snorm;
  rewrite !lookup_insert_ne; [done|intros ?; subst; contradiction..].

Ltac dseg_goal :=
  repeat first
    [ match goal with
      | H : dseg _ ?pp ?l ?qn |- dseg _ ?pp ?l ?qn => frame_goal H
      | |- dseg _ _ (_ ++ [_]) _ => apply dseg_snoc; split
      | |- dseg _ _ (_ ++ _) _ => apply dseg_app; split
      | |- dseg _ _ (_ :: _) _ => apply dseg_cons; split
      | |- dseg _ _ [] _ => exact I
      end
    | progress list_rw
    | eexists; split; [lookup_tac|]; link_rw; list_rw; split; congruence ].

(** The goals left after a run of pointer stores. *)
Ltac chain_goals :=
  repeat split; try done; unfold chain_ok; snorm;
  repeat split; link_rw; list_rw; try done;
  try match goal with
      | |- NoDup _ => nodup_goal
      | |- same_but_links _ _ => links_tac
      | |- _ !! _ = _ => lookup_tac
      | |- _ <$> _ !! _ = _ =>
        repeat first [ rewrite lookup_insert_eq
                     | rewrite lookup_insert_ne by congruence ];
        reflexivity
      | |- dseg _ _ _ _ => dseg_goal
      end.

Lemma remove_chain_pointers_run s l1 p l2 :
  chain_ok s (l1 ++ p :: l2) →
  ∃ x s1,
    plugins s !! p = Some x
    ∧ prev x = last_or l1 None ∧ next x = hd_or l2 None
    ∧ remove_chain_pointers p s = Some ((), s1)
    ∧ chain_ok s1 (l1 ++ l2)
    ∧ jack_client (procinfo s1) = jack_client (procinfo s)
    ∧ blocks s1 = blocks s ∧ trace s1 = trace s
    ∧ same_but_links (plugins s1) (plugins s)
    ∧ plugins s1 !! p = Some x
    ∧ (∀ q, Some q ≠ last l1 → Some q ≠ head l2 →
         plugins s1 !! q = plugins s !! q).
Proof.
  intros (Hnd & Hh & Ht & Hs).
  apply dseg_app in Hs as [Hs1 Hs2].
  apply dseg_cons in Hs2 as [(x & Hx & Hpx & Hnx) Hs2].
  exists x. unfold remove_chain_pointers.
  destruct l1 as [|a l1 _] using rev_ind; destruct l2 as [|c l2].
  - cbn in *. run. eexists. chain_goals.
  - apply dseg_cons in Hs2 as [(y & Hy & Hpy & Hny) Hs2].
    nodup_hyps. revert Hh Ht. list_rw. intros Hh Ht. cbn in Hpx, Hnx.
    run. eexists. chain_goals.
    intros q _ Hq. rewrite lookup_insert_ne; congruence.
  - rewrite last_or_snoc in Hpx.
    apply dseg_snoc in Hs1 as (Hs1 & y & Hy & Hpy & Hny).
    nodup_hyps. revert Hh Ht. list_rw. intros Hh Ht. cbn in Hpx, Hnx.
    run. eexists. chain_goals.
    intros q Hq _. rewrite lookup_insert_ne; congruence.
  - rewrite last_or_snoc in Hpx.
    apply dseg_snoc in Hs1 as (Hs1 & y & Hy & Hpy & Hny).
    apply dseg_cons in Hs2 as [(z & Hz & Hpz & Hnz) Hs2].
    nodup_hyps. revert Hh Ht. list_rw. intros Hh Ht. cbn in Hpx, Hnx.
    run. eexists. chain_goals.
    intros q Hq Hq'. rewrite !lookup_insert_ne; congruence.
Qed.

Lemma add_plugin_run s l plugin x :
  chain_ok s l → plugin ∉ l → plugins s !! plugin = Some x →
  ∃ s',
    vst2_process_add_plugin plugin s = Some ((), s')
    ∧ chain_ok s' (l ++ [plugin])
    ∧ jack_client (procinfo s') = jack_client (procinfo s)
    ∧ blocks s' = blocks s ∧ trace s' = trace s
    ∧ same_but_links (plugins s') (plugins s)
    ∧ plugins s' !! plugin = Some (set_prev (last l) (set_next None x))
    ∧ (∀ t, last l = Some t →
         ∃ y, plugins s !! t = Some y
              ∧ plugins s' !! t = Some (set_next (Some plugin) y))
    ∧ (∀ q, q ≠ plugin → Some q ≠ last l →
         plugins s' !! q = plugins s !! q).
Proof.
  intros (Hnd & Hh & Ht & Hs) Hnin Hx.
  unfold vst2_process_add_plugin.
  destruct l as [|e l _] using rev_ind.
  - cbn in Ht. run. eexists. chain_goals.
    intros q Hq _. by rewrite !lookup_insert_ne.
  - apply dseg_snoc in Hs as (Hs & y & Hy & Hpy & Hny).
    nodup_hyps. revert Hh Ht. list_rw. intros Hh Ht.
    run. eexists. chain_goals.
    + intros t [= <-]. exists y. split; [done|]. lookup_tac.
    + intros q Hq Hqe. rewrite !lookup_insert_ne; congruence.
Qed.

Lemma aux_ready_same_shape s s' :
  jack_client (procinfo s') = jack_client (procinfo s) →
  same_shape (plugins s) (plugins s') → aux_ready s → aux_ready s'.
Proof.
  unfold aux_ready. intros -> E H Hj. eapply nodes_ok_same_shape; eauto.
Qed.

Lemma same_shape_trans m1 m2 m3 :
  same_shape m1 m2 → same_shape m2 m3 → same_shape m1 m3.
Proof. unfold same_shape. congruence. Qed.

Lemma chain_ok_same_but_aux s s' l :
  procinfo s' = procinfo s → same_but_aux (plugins s) (plugins s') →
  chain_ok s l → chain_ok s' l.
Proof.
  intros Ep E (? & ? & ? & ?). unfold chain_ok. rewrite Ep.
  repeat split; try done. by eapply dseg_same_but_aux.
Qed.

Lemma same_but_aux_links m m' q :
  same_but_aux m m' → prev <$> m !! q = prev <$> m' !! q
                      ∧ next <$> m !! q = next <$> m' !! q.
Proof.
  intros E. apply (f_equal (.!! q)) in E. rewrite !lookup_fmap in E.
  destruct (m !! q) as [y|], (m' !! q) as [y'|]; try done.
  change (Some (erase_aux y) = Some (erase_aux y')) in E.
  assert (erase_aux y = erase_aux y') as E' by congruence.
  destruct (erase_aux_links _ _ E') as (Ep & En & _). cbn. by rewrite Ep, En.
Qed.

Lemma filter_has_id_ext' m m' i (l : list ptr) :
  same_shape m m' → filter (has_id m i) l = filter (has_id m' i) l.
Proof.
  intros E. apply list_filter_iff. intros q. by apply has_id_same_shape.
Qed.


Lemma change_chain_pointers_run s l1 p l2 d xd :
  chain_ok s (l1 ++ p :: l2) → d ∉ l1 ++ p :: l2 →
  plugins s !! d = Some xd →
  ∃ x s1,
    plugins s !! p = Some x
    ∧ prev x = last_or l1 None ∧ next x = hd_or l2 None
    ∧ change_chain_pointers p d s = Some ((), s1)
    ∧ chain_ok s1 (l1 ++ d :: l2)
    ∧ jack_client (procinfo s1) = jack_client (procinfo s)
    ∧ blocks s1 = blocks s ∧ trace s1 = trace s
    ∧ same_but_links (plugins s1) (plugins s)
    ∧ plugins s1 !! p = Some x
    ∧ (∀ q, q ≠ d → Some q ≠ last l1 → Some q ≠ head l2 →
         plugins s1 !! q = plugins s !! q).
Proof.
  intros (Hnd & Hh & Ht & Hs) Hd Hxd.
  apply dseg_app in Hs as [Hs1 Hs2].
  apply dseg_cons in Hs2 as [(x & Hx & Hpx & Hnx) Hs2].
  exists x. unfold change_chain_pointers.
  destruct l1 as [|a l1 _] using rev_ind; destruct l2 as [|c l2].
  - nodup_hyps. cbn in *. run. eexists. chain_goals.
    intros q Hq _ _. rewrite !lookup_insert_ne; congruence.
  - apply dseg_cons in Hs2 as [(y & Hy & Hpy & Hny) Hs2].
    nodup_hyps. revert Hh Ht. list_rw. intros Hh Ht. cbn in Hpx, Hnx.
    run. eexists. chain_goals.
    intros q Hq _ Hq'. rewrite !lookup_insert_ne; congruence.
  - rewrite last_or_snoc in Hpx.
    apply dseg_snoc in Hs1 as (Hs1 & y & Hy & Hpy & Hny).
    nodup_hyps. revert Hh Ht. list_rw. intros Hh Ht. cbn in Hpx, Hnx.
    run. eexists. chain_goals.
    intros q Hq Hq' _. rewrite !lookup_insert_ne; congruence.
  - rewrite last_or_snoc in Hpx.
    apply dseg_snoc in Hs1 as (Hs1 & y & Hy & Hpy & Hny).
    apply dseg_cons in Hs2 as [(z & Hz & Hpz & Hnz) Hs2].
    nodup_hyps. revert Hh Ht. list_rw. intros Hh Ht. cbn in Hpx, Hnx.
    run. eexists. chain_goals.
    intros q Hq Hq' Hq''. rewrite !lookup_insert_ne; congruence.
Qed.

(** The [WITH_JACK] block of remove and change after their stores of
    pointers, which took the state [s] to [s1]. *)
Lemma sort_out_after_links s s1 p x l2 pp :
  plugins s !! p = Some x → plugins s1 !! p = Some x →
  next x = hd_or l2 None → p ∉ l2 → NoDup l2 →
  dseg (plugins s1) pp l2 None →
  aux_ready s →
  jack_client (procinfo s1) = jack_client (procinfo s) →
  same_but_links (plugins s1) (plugins s) →
  ∃ m',
    sort_out_aux_ports p s1 = Some ((), with_plugins m' s1)
    ∧ same_but_aux (plugins s1) m'
    ∧ same_shape (plugins s) m'
    ∧ aux_ready (with_plugins m' s1)
    ∧ prev <$> m' !! p = prev_of s p ∧ next <$> m' !! p = next_of s p
    ∧ ports_handed_down
        (bool_decide (is_Some (jack_client (procinfo s))
                      ∧ (0 < desc_aux_channels (desc x))%N))
        (plugins s) m' p
        (filter (has_id (plugins s) (desc_id (desc x))) l2).
Proof.
  intros Hx Hx1 Hnx Hp2 Hnd2 Hs2 Hready Hj Hlinks.
  pose proof (same_but_links_shape _ _ Hlinks) as Hshape1.
  assert (aux_ready s1) as Hready1.
  { eapply aux_ready_same_shape; [done|by apply same_shape_sym|done]. }
  destruct (sort_out_aux_ports_run s1 p x l2 pp Hx1)
    as (m' & Hsort & Esb & Haux);
    [by rewrite head_hd_or|done|done|exact Hs2|done|].
  pose proof (same_but_aux_shape _ _ Esb) as Hshape2.
  exists m'. split; [done|]. split; [by apply same_but_aux_sym|].
  assert (same_shape (plugins s) m') as Hshape.
  { eapply same_shape_trans; by apply same_shape_sym. }
  split; [done|]. split.
  { eapply aux_ready_same_shape; [|exact Hshape|exact Hready]. done. }
  destruct (same_but_aux_links _ _ p Esb) as [Ep En].
  unfold prev_of, next_of. rewrite Ep, En, Hx1, Hx.
  repeat split; try done.
  unfold ports_handed_down.
  rewrite <-Hj.
  rewrite (filter_has_id_ext' (plugins s1) (plugins s)) in Haux by done.
  case_bool_decide as Hc.
  - rewrite decide_True in Haux by done. destruct Haux as [Hfr' Hrot].
    split.
    + rewrite Hrot. apply list_fmap_ext. intros ? q _.
      by apply aux_of_same_but_links.
    + intros q Hq HqF. unfold aux_of at 1. rewrite Hfr' by done.
      by apply aux_of_same_but_links.
  - rewrite decide_False in Haux by done. subst m'.
    intros q. by apply aux_of_same_but_links.
Qed.

Lemma remove_plugin_run s l1 p l2 :
  chain_ok s (l1 ++ p :: l2) → aux_ready s →
  ∃ x s',
    plugins s !! p = Some x
    ∧ vst2_process_remove_plugin p s = Some (p, s')
    ∧ chain_ok s' (l1 ++ l2)
    ∧ aux_ready s'
    ∧ jack_client (procinfo s') = jack_client (procinfo s)
    ∧ blocks s' = blocks s ∧ trace s' = trace s
    ∧ same_shape (plugins s) (plugins s')
    ∧ prev_of s' p = prev_of s p ∧ next_of s' p = next_of s p
    ∧ ports_handed_down
        (bool_decide (is_Some (jack_client (procinfo s))
                      ∧ (0 < desc_aux_channels (desc x))%N))
        (plugins s) (plugins s') p
        (filter (has_id (plugins s) (desc_id (desc x))) l2).
Proof.
  intros Hok Hready.
  destruct (remove_chain_pointers_run _ _ _ _ Hok)
    as (x & s1 & Hx & Hpx & Hnx & Hrun & Hok1 & Hj & Hb & Htr & Hlinks
        & Hx1 & Hfr).
  destruct Hok as (Hnd & _). pose proof Hok1 as (_ & _ & _ & Hs2).
  apply dseg_app in Hs2 as [_ Hs2]. nodup_hyps.
  destruct (sort_out_after_links s s1 p x l2 (last_or l1 None))
    as (m' & Hsort & Esb & Hshape & Hready' & Hp & Hn & Hports); try done.
  exists x, (with_plugins m' s1).
  split; [done|]. split.
  { unfold vst2_process_remove_plugin.
    rewrite bind_run, Hrun, bind_run, Hsort. done. }
  split; [by eapply (chain_ok_same_but_aux s1)|].
  done.
Qed.

Lemma change_plugin_run s l1 p l2 d :
  chain_ok s (l1 ++ p :: l2) → aux_ready s →
  d ∉ l1 ++ p :: l2 → is_Some (plugins s !! d) →
  ∃ x s',
    plugins s !! p = Some x
    ∧ vst2_process_change_plugin p d s = Some (p, s')
    ∧ chain_ok s' (l1 ++ d :: l2)
    ∧ aux_ready s'
    ∧ jack_client (procinfo s') = jack_client (procinfo s)
    ∧ blocks s' = blocks s ∧ trace s' = trace s
    ∧ same_shape (plugins s) (plugins s')
    ∧ prev_of s' p = prev_of s p ∧ next_of s' p = next_of s p
    ∧ ports_handed_down
        (bool_decide (is_Some (jack_client (procinfo s))
                      ∧ (0 < desc_aux_channels (desc x))%N))
        (plugins s) (plugins s') p
        (filter (has_id (plugins s) (desc_id (desc x))) l2).
Proof.
  intros Hok Hready Hd [xd Hxd].
  destruct (change_chain_pointers_run _ _ _ _ _ _ Hok Hd Hxd)
    as (x & s1 & Hx & Hpx & Hnx & Hrun & Hok1 & Hj & Hb & Htr & Hlinks
        & Hx1 & Hfr).
  destruct Hok as (Hnd & _). pose proof Hok1 as (_ & _ & _ & Hs2).
  apply dseg_app in Hs2 as [_ Hs2]. apply dseg_cons in Hs2 as [_ Hs2].
  nodup_hyps.
  destruct (sort_out_after_links s s1 p x l2 (Some d))
    as (m' & Hsort & Esb & Hshape & Hready' & Hp & Hn & Hports); try done.
  exists x, (with_plugins m' s1).
  split; [done|]. split.
  { unfold vst2_process_change_plugin.
    rewrite bind_run, Hrun, bind_run, Hsort. done. }
  split; [by eapply (chain_ok_same_but_aux s1)|].
  done.
Qed.

Lemma move_up_run s l0 q p l3 :
  chain_ok s (l0 ++ q :: p :: l3) →
  ∃ s1,
    move_up p (last_or l0 None) (Some q) (hd_or l3 None) s = Some (true, s1)
    ∧ chain_ok s1 (l0 ++ p :: q :: l3)
    ∧ jack_client (procinfo s1) = jack_client (procinfo s)
    ∧ blocks s1 = blocks s ∧ trace s1 = trace s
    ∧ same_but_links (plugins s1) (plugins s)
    ∧ next_of s1 p = Some (Some q).
Proof.
  intros (Hnd & Hh & Ht & Hs).
  apply dseg_app in Hs as [Hs1 Hs2].
  apply dseg_cons in Hs2 as [(y & Hy & Hpy & Hny) Hs2].
  apply dseg_cons in Hs2 as [(x & Hx & Hpx & Hnx) Hs2].
  unfold move_up, next_of.
  destruct l0 as [|a l0 _] using rev_ind; destruct l3 as [|c l3].
  - nodup_hyps. cbn in *. run. eexists. chain_goals.
  - apply dseg_cons in Hs2 as [(z & Hz & Hpz & Hnz) Hs2].
    nodup_hyps. revert Hh Ht. list_rw. intros Hh Ht. cbn in Hpx, Hnx, Hpy, Hny.
    run. eexists. chain_goals.
  - rewrite last_or_snoc in Hpy |- *.
    apply dseg_snoc in Hs1 as (Hs1 & w & Hw & Hpw & Hnw).
    nodup_hyps. revert Hh Ht. list_rw. intros Hh Ht. cbn in Hpx, Hnx, Hpy, Hny.
    run. eexists. chain_goals.
  - rewrite last_or_snoc in Hpy |- *.
    apply dseg_snoc in Hs1 as (Hs1 & w & Hw & Hpw & Hnw).
    apply dseg_cons in Hs2 as [(z & Hz & Hpz & Hnz) Hs2].
    nodup_hyps. revert Hh Ht. list_rw. intros Hh Ht. cbn in Hpx, Hnx, Hpy, Hny.
    run. eexists. chain_goals.
Qed.

Lemma move_down_run s l0 p n l3 :
  chain_ok s (l0 ++ p :: n :: l3) →
  ∃ s1,
    move_down p (last_or l0 None) (Some n) (hd_or l3 None) s = Some (true, s1)
    ∧ chain_ok s1 (l0 ++ n :: p :: l3)
    ∧ jack_client (procinfo s1) = jack_client (procinfo s)
    ∧ blocks s1 = blocks s ∧ trace s1 = trace s
    ∧ same_but_links (plugins s1) (plugins s)
    ∧ prev_of s1 p = Some (Some n).
Proof.
  intros (Hnd & Hh & Ht & Hs).
  apply dseg_app in Hs as [Hs1 Hs2].
  apply dseg_cons in Hs2 as [(x & Hx & Hpx & Hnx) Hs2].
  apply dseg_cons in Hs2 as [(y & Hy & Hpy & Hny) Hs2].
  unfold move_down, prev_of.
  destruct l0 as [|a l0 _] using rev_ind; destruct l3 as [|c l3].
  - nodup_hyps. cbn in *. run. eexists. chain_goals.
  - apply dseg_cons in Hs2 as [(z & Hz & Hpz & Hnz) Hs2].
    nodup_hyps. revert Hh Ht. list_rw. intros Hh Ht. cbn in Hpx, Hnx, Hpy, Hny.
    run. eexists. chain_goals.
  - rewrite last_or_snoc in Hpx |- *.
    apply dseg_snoc in Hs1 as (Hs1 & w & Hw & Hpw & Hnw).
    nodup_hyps. revert Hh Ht. list_rw. intros Hh Ht. cbn in Hpx, Hnx, Hpy, Hny.
    run. eexists. chain_goals.
  - rewrite last_or_snoc in Hpx |- *.
    apply dseg_snoc in Hs1 as (Hs1 & w & Hw & Hpw & Hnw).
    apply dseg_cons in Hs2 as [(z & Hz & Hpz & Hnz) Hs2].
    nodup_hyps. revert Hh Ht. list_rw. intros Hh Ht. cbn in Hpx, Hnx, Hpy, Hny.
    run. eexists. chain_goals.
Qed.

(** The [WITH_JACK] block of move, the neighbour [other] having been passed. *)
Lemma move_swap_aux_ports_run s1 p up other x y :
  plugins s1 !! p = Some x → plugins s1 !! other = Some y →
  (if decide (up ≠ 0) then next x else prev x) = Some other →
  p ≠ other → aux_ready s1 →
  ∃ m',
    move_swap_aux_ports p up s1 = Some ((), with_plugins m' s1)
    ∧ same_but_aux (plugins s1) m'
    ∧ ports_exchanged
        (bool_decide ((is_Some (jack_client (procinfo s1))
                       ∧ (0 < desc_aux_channels (desc x))%N)
                      ∧ desc_id (desc y) = desc_id (desc x)))
        (plugins s1) m' p other.
Proof.
  intros Hx Hy Ho Hne Hready. unfold move_swap_aux_ports. do 2 mstep.
  unfold ports_exchanged.
  destruct (decide (is_Some (jack_client (procinfo s1)) ∧ _)) as [Hj|Hj].
  - rewrite Ho. cbv beta iota. mstep.
    destruct (decide (desc_id (desc y) = _)) as [Hid|Hid].
    + rewrite bool_decide_eq_true_2 by done.
      destruct (Hready (proj1 Hj)) as [Hh Hc].
      assert (length (holders y) = length (holders x)) as El.
      { destruct (Hh _ _ Hx) as [_ ->], (Hh _ _ Hy) as [_ ->].
        f_equal. by apply (Hc other p). }
      rewrite (swap_aux_ports_run p other x y) by eauto.
      eexists. split; [reflexivity|]. split.
      { by apply same_but_aux_sym, same_but_aux_swapped. }
      destruct (aux_of_swapped (plugins s1) p other x y Hne El)
        as (Ap & Ao & Afr).
      rewrite Ap, Ao. unfold aux_of. rewrite Hx, Hy.
      repeat split; try done.
      intros r ? ?. unfold aux_of. by rewrite Afr.
    + rewrite bool_decide_eq_false_2 by tauto.
      exists (plugins s1). mstep. split; [by destruct s1|]. done.
  - rewrite bool_decide_eq_false_2 by tauto.
    exists (plugins s1). mstep. split; [by destruct s1|]. done.
Qed.

Lemma chain_ok_lookup s l p :
  chain_ok s l → p ∈ l → is_Some (plugins s !! p).
Proof. intros (_ & _ & _ & Hs) Hp. by eapply dseg_lookup. Qed.

Lemma move_neighbours_run s l1 p l2 :
  chain_ok s (l1 ++ p :: l2) →
  ∃ x,
    plugins s !! p = Some x
    ∧ prev x = last_or l1 None ∧ next x = hd_or l2 None
    ∧ move_neighbours p s
      = Some ((last_or (removelast l1) None, last_or l1 None,
               hd_or l2 None, hd_or (tail l2) None), s).
Proof.
  intros (Hnd & Hh & Ht & Hs).
  apply dseg_app in Hs as [Hs1 Hs2].
  apply dseg_cons in Hs2 as [(x & Hx & Hpx & Hnx) Hs2].
  exists x. repeat split; try done. unfold move_neighbours.
  destruct l1 as [|a l1 _] using rev_ind; destruct l2 as [|c l2].
  - cbn in *. by run.
  - apply dseg_cons in Hs2 as [(y & Hy & Hpy & Hny) Hs2].
    cbn in Hpx, Hnx. by run.
  - rewrite last_or_snoc in Hpx |- *. rewrite removelast_last.
    apply dseg_snoc in Hs1 as (Hs1 & y & Hy & Hpy & Hny).
    cbn in Hnx. by run.
  - rewrite last_or_snoc in Hpx |- *. rewrite removelast_last.
    apply dseg_snoc in Hs1 as (Hs1 & y & Hy & Hpy & Hny).
    apply dseg_cons in Hs2 as [(z & Hz & Hpz & Hnz) Hs2].
    cbn in Hnx. by run.
Qed.

(** Moving the first plugin up, or the last one down, changes nothing. *)
Lemma move_plugin_boundary_run s l1 p l2 up :
  chain_ok s (l1 ++ p :: l2) →
  (if decide (up ≠ 0) then l1 = [] else l2 = []) →
  vst2_process_move_plugin p up s = Some ((), s).
Proof.
  intros Hok Hb.
  destruct (move_neighbours_run _ _ _ _ Hok) as (x & Hx & Hpx & Hnx & Hrun).
  unfold vst2_process_move_plugin. rewrite bind_run, Hrun.
  case_decide; subst; cbn; done.
Qed.

Lemma move_plugin_up_run s l0 q p l3 up :
  up ≠ 0 → chain_ok s (l0 ++ q :: p :: l3) → aux_ready s →
  ∃ x y s',
    plugins s !! p = Some x ∧ plugins s !! q = Some y
    ∧ vst2_process_move_plugin p up s = Some ((), s')
    ∧ chain_ok s' (l0 ++ p :: q :: l3)
    ∧ aux_ready s'
    ∧ jack_client (procinfo s') = jack_client (procinfo s)
    ∧ blocks s' = blocks s ∧ trace s' = trace s
    ∧ same_shape (plugins s) (plugins s')
    ∧ ports_exchanged
        (bool_decide ((is_Some (jack_client (procinfo s))
                       ∧ (0 < desc_aux_channels (desc x))%N)
                      ∧ desc_id (desc y) = desc_id (desc x)))
        (plugins s) (plugins s') p q.
Proof.
  intros Hup Hok Hready.
  assert (chain_ok s ((l0 ++ [q]) ++ p :: l3)) as Hok'
    by (by rewrite <-app_assoc).
  destruct (move_neighbours_run _ _ _ _ Hok') as (x & Hx & Hpx & Hnx & Hnb).
  rewrite removelast_last, last_or_snoc in Hnb. rewrite last_or_snoc in Hpx.
  destruct (chain_ok_lookup s _ q Hok) as [y Hy].
  { apply elem_of_app. right. by left. }
  destruct (move_up_run _ _ _ _ _ Hok)
    as (s1 & Hrun & Hok1 & Hj & Hb & Htr & Hlinks & Hn1).
  pose proof (same_but_links_shape _ _ Hlinks) as Hshape1.
  assert (aux_ready s1) as Hready1.
  { eapply aux_ready_same_shape; [done|by apply same_shape_sym|done]. }
  destruct (same_shape_lookup _ _ p x (same_shape_sym _ _ Hshape1) Hx)
    as (x1 & Hx1 & [= Edx Ecx Elx]).
  destruct (same_shape_lookup _ _ q y (same_shape_sym _ _ Hshape1) Hy)
    as (y1 & Hy1 & [= Edy Ecy Ely]).
  unfold next_of in Hn1. rewrite Hx1 in Hn1. injection Hn1 as Hn1.
  assert (p ≠ q) as Hpq.
  { destruct Hok as (Hnd & _). nodup_hyps. congruence. }
  destruct (move_swap_aux_ports_run s1 p up q x1 y1 Hx1 Hy1)
    as (m' & Hsw & Esb & Hports); try done.
  { by rewrite decide_True. }
  exists x, y, (with_plugins m' s1).
  split; [done|]. split; [done|]. split.
  { unfold vst2_process_move_plugin. rewrite bind_run, Hnb.
    rewrite decide_True by done. rewrite bind_run, Hrun. exact Hsw. }
  split; [by eapply (chain_ok_same_but_aux s1)|].
  pose proof (same_but_aux_shape _ _ Esb) as Hshape2.
  assert (same_shape (plugins s) m') as Hshape.
  { eapply same_shape_trans; [by apply same_shape_sym|done]. }
  split.
  { eapply aux_ready_same_shape; [|exact Hshape|exact Hready]. done. }
  repeat split; try done.
  rewrite Hj, Edx, Edy in Hports.
  unfold ports_exchanged in *.
  destruct (bool_decide _).
  - destruct Hports as (H1 & H2 & H3).
    rewrite <-!(aux_of_same_but_links _ _ _ Hlinks). repeat split; try done.
    intros r ? ?. rewrite <-(aux_of_same_but_links _ _ _ Hlinks). by apply H3.
  - intros r. rewrite <-(aux_of_same_but_links _ _ _ Hlinks). apply Hports.
Qed.

Lemma move_plugin_down_run s l0 p n l3 up :
  up = 0 → chain_ok s (l0 ++ p :: n :: l3) → aux_ready s →
  ∃ x y s',
    plugins s !! p = Some x ∧ plugins s !! n = Some y
    ∧ vst2_process_move_plugin p up s = Some ((), s')
    ∧ chain_ok s' (l0 ++ n :: p :: l3)
    ∧ aux_ready s'
    ∧ jack_client (procinfo s') = jack_client (procinfo s)
    ∧ blocks s' = blocks s ∧ trace s' = trace s
    ∧ same_shape (plugins s) (plugins s')
    ∧ ports_exchanged
        (bool_decide ((is_Some (jack_client (procinfo s))
                       ∧ (0 < desc_aux_channels (desc x))%N)
                      ∧ desc_id (desc y) = desc_id (desc x)))
        (plugins s) (plugins s') p n.
Proof.
  intros Hup Hok Hready.
  destruct (move_neighbours_run _ _ _ _ Hok) as (x & Hx & Hpx & Hnx & Hnb).
  cbn [hd_or tail] in Hnb, Hnx.
  destruct (chain_ok_lookup s _ n Hok) as [y Hy].
  { apply elem_of_app. right. right. by left. }
  destruct (move_down_run _ _ _ _ _ Hok)
    as (s1 & Hrun & Hok1 & Hj & Hb & Htr & Hlinks & Hn1).
  pose proof (same_but_links_shape _ _ Hlinks) as Hshape1.
  assert (aux_ready s1) as Hready1.
  { eapply aux_ready_same_shape; [done|by apply same_shape_sym|done]. }
  destruct (same_shape_lookup _ _ p x (same_shape_sym _ _ Hshape1) Hx)
    as (x1 & Hx1 & [= Edx Ecx Elx]).
  destruct (same_shape_lookup _ _ n y (same_shape_sym _ _ Hshape1) Hy)
    as (y1 & Hy1 & [= Edy Ecy Ely]).
  unfold prev_of in Hn1. rewrite Hx1 in Hn1. injection Hn1 as Hn1.
  assert (p ≠ n) as Hpq.
  { destruct Hok as (Hnd & _). nodup_hyps. congruence. }
  destruct (move_swap_aux_ports_run s1 p up n x1 y1 Hx1 Hy1)
    as (m' & Hsw & Esb & Hports); try done.
  { by rewrite decide_False by (subst up; tauto). }
  exists x, y, (with_plugins m' s1).
  split; [done|]. split; [done|]. split.
  { unfold vst2_process_move_plugin. rewrite bind_run, Hnb.
    rewrite decide_False by (subst up; tauto).
    rewrite bind_run, Hrun. exact Hsw. }
  split; [by eapply (chain_ok_same_but_aux s1)|].
  pose proof (same_but_aux_shape _ _ Esb) as Hshape2.
  assert (same_shape (plugins s) m') as Hshape.
  { eapply same_shape_trans; [by apply same_shape_sym|done]. }
  split.
  { eapply aux_ready_same_shape; [|exact Hshape|exact Hready]. done. }
  repeat split; try done.
  rewrite Hj, Edx, Edy in Hports.
  unfold ports_exchanged in *.
  destruct (bool_decide _).
  - destruct Hports as (H1 & H2 & H3).
    rewrite <-!(aux_of_same_but_links _ _ _ Hlinks). repeat split; try done.
    intros r ? ?. rewrite <-(aux_of_same_but_links _ _ _ Hlinks). by apply H3.
  - intros r. rewrite <-(aux_of_same_but_links _ _ _ Hlinks). apply Hports.
Qed.

(* ===================================================================== *)
(** ** Consistency of the chain *)
(* ===================================================================== *)

Lemma walk_next m l : ∀ pp fuel,
  dseg m pp l None → (length l ≤ fuel)%nat →
  walk fuel next m (head l) = Some l.
Proof.
  induction l as [|p tl IH]; intros pp fuel Hs Hf.
  - by destruct fuel.
  - destruct Hs as (x & Hx & _ & Hn & Htl).
    destruct fuel as [|fuel]; [cbn in Hf; lia|].
    cbn [head walk]. rewrite Hx, Hn, <-head_hd_or.
    rewrite (IH (Some p) fuel Htl); [done|]. cbn in Hf. lia.
Qed.

Lemma walk_prev m l : ∀ qn fuel,
  dseg m None l qn → (length l ≤ fuel)%nat →
  walk fuel prev m (last l) = Some (rev l).
Proof.
  induction l as [|p l IH] using rev_ind; intros qn fuel Hs Hf.
  - by destruct fuel.
  - apply dseg_snoc in Hs as (Hs & x & Hx & Hp & _).
    rewrite length_app in Hf. cbn in Hf.
    destruct fuel as [|fuel]; [lia|].
    rewrite last_snoc, rev_unit. cbn [walk].
    rewrite Hx, Hp, <-last_last_or.
    rewrite (IH (Some p) fuel Hs); [done|]. lia.
Qed.

Lemma chain_ok_traverse s l :
  chain_ok s l →
  traverse_forward s = Some l ∧ traverse_backward s = Some (rev l).
Proof.
  intros (Hnd & Hh & Ht & Hs).
  pose proof (dseg_length _ _ _ _ Hnd Hs) as Hlen.
  unfold traverse_forward, traverse_backward. rewrite Hh, Ht. split.
  - eapply walk_next; [done|lia].
  - eapply walk_prev; [done|lia].
Qed.

Lemma chain_ok_linked s l p : chain_ok s l → linked s p ↔ p ∈ l.
Proof.
  intros Hok. unfold linked.
  destruct (chain_ok_traverse _ _ Hok) as [-> _]. done.
Qed.

Lemma hd_or_drop_lookup (l : list ptr) i :
  hd_or (drop i l) None = l !! i.
Proof.
  revert i. induction l as [|a l IH]; intros [|i]; try done. cbn. apply IH.
Qed.

Lemma last_or_take_S (l : list ptr) i n :
  l !! i = Some n → last_or (take (S i) l) None = Some n.
Proof.
  intros Hi. by rewrite (take_S_r _ _ _ Hi), last_or_snoc.
Qed.

Lemma last_or_take_lookup (l : list ptr) j n :
  (j < length l)%nat → last_or (take j l) None = Some n →
  ∃ i, j = S i ∧ l !! i = Some n.
Proof.
  intros Hj. destruct j as [|i]; [by rewrite take_0|]. intros H.
  exists i. split; [done|].
  destruct (lookup_lt_is_Some_2 l i) as [n' Hi]; [lia|].
  rewrite (last_or_take_S _ _ _ Hi) in H. congruence.
Qed.

Lemma chain_ok_consistent s l : chain_ok s l → consistent s l.
Proof.
  intros Hok. destruct (chain_ok_traverse _ _ Hok) as [Hf Hb].
  destruct Hok as (Hnd & Hh & Ht & Hs).
  unfold consistent, next_of, prev_of. repeat split; try done.
  - intros n m Hn Hnm. apply list_elem_of_lookup in Hn as [i Hi].
    rewrite (dseg_next _ _ _ _ _ _ Hs Hi), hd_or_drop_lookup in Hnm.
    injection Hnm as Hm.
    rewrite (dseg_prev _ _ _ _ _ _ Hs Hm). by rewrite (last_or_take_S _ _ n).
  - intros n m Hm Hmn. apply list_elem_of_lookup in Hm as [j Hj].
    rewrite (dseg_prev _ _ _ _ _ _ Hs Hj) in Hmn. injection Hmn as Hmn.
    apply last_or_take_lookup in Hmn as (i & -> & Hi);
      [|by eapply lookup_lt_Some].
    rewrite (dseg_next _ _ _ _ _ _ Hs Hi), hd_or_drop_lookup. by rewrite Hj.
  - intros h Hc. rewrite Hh in Hc. destruct l as [|a l]; [done|].
    injection Hc as ->. by rewrite (dseg_prev _ _ _ _ 0 _ Hs eq_refl).
  - intros t Hc. rewrite Ht in Hc.
    destruct l as [|a l _] using rev_ind; [done|].
    rewrite last_snoc in Hc. injection Hc as ->.
    erewrite (dseg_next _ _ _ _ (length l)); [|done|].
    + rewrite drop_ge; [done|]. rewrite length_app. cbn. lia.
    + by rewrite lookup_app_r, Nat.sub_diag.
Qed.

Lemma chain_ok_nil s :
  chain (procinfo s) = None → chain_end (procinfo s) = None → chain_ok s [].
Proof. intros Hc He. unfold chain_ok. rewrite Hc, He. by repeat constructor. Qed.

(** An operation applied within its precondition keeps the chain well
    formed. *)
Lemma run_operation_chain_ok s l o :
  chain_ok s l → aux_ready s → precondition s o →
  ∃ s' l',
    run_operation o s = Some ((), s') ∧ chain_ok s' l' ∧ aux_ready s'.
Proof.
  intros Hok Hready Hpre. destruct o as [p|p|p up|p d]; cbn in Hpre.
  - destruct Hpre as [[x Hx] Hnl]. rewrite (chain_ok_linked _ _ _ Hok) in Hnl.
    destruct (add_plugin_run _ _ _ _ Hok Hnl Hx)
      as (s' & Hrun & Hok' & Hj & _ & _ & Hlinks & _).
    exists s', (l ++ [p]). split; [done|]. split; [done|].
    eapply aux_ready_same_shape; [done| |done].
    by apply same_shape_sym, same_but_links_shape.
  - rewrite (chain_ok_linked _ _ _ Hok) in Hpre.
    apply list_elem_of_split in Hpre as (l1 & l2 & ->).
    destruct (remove_plugin_run _ _ _ _ Hok Hready)
      as (x & s' & _ & Hrun & Hok' & Hready' & _).
    exists s', (l1 ++ l2). cbn. rewrite bind_run, Hrun. done.
  - rewrite (chain_ok_linked _ _ _ Hok) in Hpre.
    apply list_elem_of_split in Hpre as (l1 & l2 & ->).
    destruct (decide (up ≠ 0)) as [Hup|Hup].
    + destruct l1 as [|q l0 _] using rev_ind.
      * exists s, ([] ++ p :: l2). cbn [run_operation].
        rewrite (move_plugin_boundary_run s [] p l2 up Hok);
          [done|by rewrite decide_True].
      * rewrite <-app_assoc in Hok. cbn [app] in Hok.
        destruct (move_plugin_up_run _ _ _ _ _ _ Hup Hok Hready)
          as (x & y & s' & _ & _ & Hrun & Hok' & Hready' & _).
        by exists s', (l0 ++ p :: q :: l2).
    + assert (up = 0) as Hup0 by lia. destruct l2 as [|n l3].
      * exists s, (l1 ++ [p]). cbn [run_operation].
        rewrite (move_plugin_boundary_run s l1 p [] up Hok);
          [done|by rewrite decide_False].
      * destruct (move_plugin_down_run _ _ _ _ _ _ Hup0 Hok Hready)
          as (x & y & s' & _ & _ & Hrun & Hok' & Hready' & _).
        by exists s', (l1 ++ n :: p :: l3).
  - destruct Hpre as (Hp & Hd & Hnl).
    rewrite (chain_ok_linked _ _ p Hok) in Hp.
    rewrite (chain_ok_linked _ _ d Hok) in Hnl.
    apply list_elem_of_split in Hp as (l1 & l2 & ->).
    destruct (change_plugin_run _ _ _ _ _ Hok Hready Hnl Hd)
      as (x & s' & _ & Hrun & Hok' & Hready' & _).
    exists s', (l1 ++ d :: l2). cbn. rewrite bind_run, Hrun. done.
Qed.

(* ===================================================================== *)
(** ** Rules for [wp] *)
(* ===================================================================== *)

Lemma wp_bind {A B} (m : M A) (f : A → M B) Q s :
  wp m (λ a s1, wp (f a) Q s1) s → wp (m ≫= f) Q s.
Proof. unfold wp. rewrite bind_run. by destruct (m s) as [[a s1]|]. Qed.

Lemma wp_bind_any {A B} (m : M A) (f : A → M B) Q s :
  (∀ a s1, wp (f a) Q s1) → wp (m ≫= f) Q s.
Proof.
  intros H. unfold wp. rewrite bind_run.
  destruct (m s) as [[a s1]|]; [apply H|done].
Qed.

Lemma wp_ret {A} (a : A) (Q : A → state → Prop) s : Q a s → wp (mret a) Q s.
Proof. done. Qed.

Lemma wp_mono {A} (m : M A) (Q Q' : A → state → Prop) s :
  (∀ a s', Q a s' → Q' a s') → wp m Q s → wp m Q' s.
Proof. unfold wp. intros H. destruct (m s) as [[]|]; auto. Qed.

Lemma wp_run {A} (m : M A) Q s a s' : wp m Q s → m s = Some (a, s') → Q a s'.
Proof. unfold wp. intros H E. by rewrite E in H. Qed.

Lemma wp_for_loop {A} (I : nat → A → state → Prop) body n : ∀ from (a : A) s,
  (∀ i a s, (from ≤ i < from + n)%nat → I i a s →
     wp (body i a) (I (S i)) s) →
  I from a s → wp (for_loop n from body a) (I (from + n)%nat) s.
Proof.
  induction n as [|n IH]; intros from a s Hbody HI.
  - cbn. by rewrite Nat.add_0_r.
  - cbn [for_loop]. apply wp_bind.
    eapply wp_mono; [|apply Hbody; [lia|done]].
    intros a' s' HI'. cbn beta.
    replace (from + S n)%nat with (S from + n)%nat by lia.
    apply IH; [|done]. intros i a'' s'' Hi. apply Hbody. lia.
Qed.

Section preserves.
Variable R : state → state → Prop.
Hypothesis R_refl : ∀ s, R s s.
Hypothesis R_trans : ∀ s1 s2 s3, R s1 s2 → R s2 s3 → R s1 s3.

Lemma preserves_ret {A} (a : A) : preserves R (mret a).
Proof using R_refl. intros s. apply R_refl. Qed.

Lemma preserves_fault {A} : preserves R (@fault A).
Proof. by intros s. Qed.

Lemma preserves_bind {A B} (m : M A) (f : A → M B) :
  preserves R m → (∀ a, preserves R (f a)) → preserves R (m ≫= f).
Proof using R_trans.
  intros Hm Hf s. unfold preserves, wp in *. rewrite bind_run.
  specialize (Hm s). destruct (m s) as [[a s1]|]; [|done].
  specialize (Hf a s1). destruct (f a s1) as [[b s2]|]; [|done].
  by eapply R_trans.
Qed.

Lemma preserves_for_loop {A} (body : nat → A → M A) n : ∀ from a,
  (∀ i a, preserves R (body i a)) → preserves R (for_loop n from body a).
Proof using R_refl R_trans.
  induction n as [|n IH]; intros from a Hb.
  - apply preserves_ret.
  - cbn [for_loop]. apply preserves_bind; [apply Hb|]. intros a'. by apply IH.
Qed.

Lemma preserves_load p : preserves R (load p).
Proof using R_refl.
  intros s. unfold wp, load. destruct (plugins s !! p); [apply R_refl|done].
Qed.

Lemma preserves_array_get {A} (a : list A) i : preserves R (array_get a i).
Proof using R_refl.
  unfold array_get. destruct (a !! i);
    [apply preserves_ret|apply preserves_fault].
Qed.

Lemma preserves_array_set {A} (a : list A) i v :
  preserves R (array_set a i v).
Proof using R_refl.
  unfold array_set. case_decide; [apply preserves_ret|apply preserves_fault].
Qed.

Lemma preserves_deref {A} (p : option A) : preserves R (deref p).
Proof using R_refl.
  destruct p; [apply preserves_ret|apply preserves_fault].
Qed.

Lemma preserves_get_procinfo : preserves R get_procinfo.
Proof using R_refl. intros s. apply R_refl. Qed.

Lemma preserves_get_state : preserves R get_state.
Proof using R_refl. intros s. apply R_refl. Qed.
End preserves.

(* --------------------------------------------------------------------- *)
(** *** What the initialisation of a holder leaves alone *)

Lemma holders_aside_refl s : holders_aside s s.
Proof. done. Qed.

Lemma holders_aside_trans s1 s2 s3 :
  holders_aside s1 s2 → holders_aside s2 s3 → holders_aside s1 s3.
Proof.
  intros (? & ? & H1) (? & ? & H2).
  split; [congruence|]. split; [congruence|].
  intros q. by rewrite H2, H1.
Qed.

Lemma preserves_emit e : preserves holders_aside (emit e).
Proof. by intros s. Qed.

Lemma preserves_g_malloc n : preserves holders_aside (g_malloc n).
Proof. intros s. unfold wp, g_malloc. by repeat case_decide. Qed.

Lemma preserves_store_holders p v :
  preserves holders_aside (store p (set_holders v)).
Proof.
  intros s. unfold wp, store. destruct (plugins s !! p) as [x|] eqn:Hx; [|done].
  repeat split; cbn.
  - rewrite dom_insert_L. apply subseteq_union_1_L, singleton_subseteq_l.
    by eapply elem_of_dom_2.
  - intros q. destruct (decide (q = p)) as [->|].
    + by rewrite lookup_insert_eq, Hx.
    + by rewrite lookup_insert_ne.
Qed.

(** The rules, applied along the structure of a computation. *)
Ltac preserves_tac :=
  repeat first
    [ apply preserves_emit | apply preserves_g_malloc
    | apply preserves_store_holders
    | apply preserves_ret; [apply holders_aside_refl]
    | apply preserves_fault
    | apply preserves_load; [apply holders_aside_refl]
    | apply preserves_array_get; [apply holders_aside_refl]
    | apply preserves_array_set; [apply holders_aside_refl]
    | apply preserves_deref; [apply holders_aside_refl]
    | apply preserves_get_procinfo; [apply holders_aside_refl]
    | apply preserves_get_state; [apply holders_aside_refl]
    | apply preserves_for_loop;
        [apply holders_aside_refl|apply holders_aside_trans|intros ? ?]
    | apply preserves_bind; [apply holders_aside_trans| |intros ?]
    | match goal with
      | |- preserves _ (if ?c then _ else _) => destruct c
      | |- preserves _ (match ?x with _ => _ end) => destruct x
      end ].

Lemma preserves_modify_holder p copy f :
  preserves holders_aside (modify_holder p copy f).
Proof. unfold modify_holder. preserves_tac. Qed.

Lemma preserves_load_holder p copy :
  preserves holders_aside (load_holder p copy).
Proof. unfold load_holder. preserves_tac. Qed.

Lemma preserves_lff_init a b : preserves holders_aside (lff_init a b).
Proof. unfold lff_init. preserves_tac. Qed.

Lemma preserves_push_control p copy i d :
  preserves holders_aside (push_control p copy i d).
Proof.
  unfold push_control.
  repeat first [ apply preserves_load_holder | preserves_tac ].
Qed.

Lemma preserves_create_aux_ports E p copy ctx :
  preserves holders_aside (vst2_plugin_create_aux_ports E p copy ctx).
Proof.
  unfold vst2_plugin_create_aux_ports.
  repeat first [ apply preserves_load_holder | apply preserves_modify_holder
               | preserves_tac ].
Qed.

Lemma preserves_init_holder E p copy e ctx :
  preserves holders_aside (vst2_plugin_init_holder E p copy e ctx).
Proof.
  unfold vst2_plugin_init_holder.
  repeat first [ apply preserves_load_holder | apply preserves_modify_holder
               | apply preserves_lff_init | apply preserves_push_control
               | apply preserves_create_aux_ports
               | preserves_tac ].
Qed.

(* --------------------------------------------------------------------- *)
(** *** The wet/dry values of a new plugin *)

Section wet_dry.
Variable p : ptr.

Lemma same_wet_dry_refl s : same_wet_dry p s s.
Proof. done. Qed.

Lemma same_wet_dry_trans s1 s2 s3 :
  same_wet_dry p s1 s2 → same_wet_dry p s2 s3 → same_wet_dry p s1 s3.
Proof. unfold same_wet_dry. congruence. Qed.

Lemma holders_aside_wet_dry s s' : holders_aside s s' → same_wet_dry p s s'.
Proof.
  intros (_ & _ & H). specialize (H p). unfold same_wet_dry, wet_dry_of.
  destruct (plugins s' !! p) as [x'|], (plugins s !! p) as [x|]; try done.
  change (Some (set_holders [] x') = Some (set_holders [] x)) in H.
  assert (set_holders [] x' = set_holders [] x) as H' by congruence.
  apply (f_equal wet_dry_values) in H'. cbn in H'. cbn. by rewrite H'.
Qed.

Lemma wet_dry_emit e : preserves (same_wet_dry p) (emit e).
Proof. by intros s. Qed.

Lemma wet_dry_g_malloc n : preserves (same_wet_dry p) (g_malloc n).
Proof. intros s. unfold wp, g_malloc. by repeat case_decide. Qed.

Lemma wet_dry_lff_init a b : preserves (same_wet_dry p) (lff_init a b).
Proof. by intros s. Qed.

Lemma wet_dry_store q f :
  (∀ x, wet_dry_values (f x) = wet_dry_values x) →
  preserves (same_wet_dry p) (store q f).
Proof.
  intros Hf s. unfold wp, store.
  destruct (plugins s !! q) as [x|] eqn:Hx; [|done].
  unfold same_wet_dry, wet_dry_of. cbn.
  destruct (decide (p = q)) as [->|].
  - by rewrite lookup_insert_eq, Hx; cbn; rewrite Hf.
  - by rewrite lookup_insert_ne.
Qed.

Lemma wet_dry_init_holder E q copy e ctx :
  preserves (same_wet_dry p) (vst2_plugin_init_holder E q copy e ctx).
Proof.
  intros s. eapply wp_mono; [|apply preserves_init_holder].
  intros ? s'. apply holders_aside_wet_dry.
Qed.

(** A step that leaves the values alone. *)
Lemma wp_same_wet_dry {A B} (m : M A) (k : A → M B) Q v s :
  preserves (same_wet_dry p) m →
  wet_dry_of p s = Some v →
  (∀ a s1, wet_dry_of p s1 = Some v → wp (k a) Q s1) →
  wp (m ≫= k) Q s.
Proof.
  intros Hm Hv Hk. apply wp_bind. eapply wp_mono; [|apply Hm].
  intros a s1 H1. cbn beta. apply Hk. unfold same_wet_dry in H1. congruence.
Qed.

(** [plugin->wet_dry_values[i] = 1.0]. *)
Lemma wp_set_wet_dry_value i v s :
  wet_dry_of p s = Some v →
  wp (x ← load p;
      values ← array_set (wet_dry_values x) i (Some 1%Q);
      store p (set_wet_dry_values values))
     (λ _ s', (i < length v)%nat
              ∧ wet_dry_of p s' = Some (<[i := Some 1%Q]> v)) s.
Proof.
  unfold wet_dry_of. intros Hv.
  destruct (plugins s !! p) as [x|] eqn:Hx; [|done]. injection Hv as <-.
  unfold wp. mstep. unfold array_set. case_decide; [|done].
  do 2 mstep. split; [done|]. by rewrite lookup_insert_eq.
Qed.
End wet_dry.

(** The loop of [vst2_plugin_new] over the channels. *)
Lemma wp_channels_loop E p n : ∀ s,
  (∃ v, wet_dry_of p s = Some v ∧ length v = n) →
  wp (for_loop n 0 (λ i _,
        buffer ← g_malloc (Z.of_N (vst2_buffer_size E));
        x ← load p;
        memory ← array_set (audio_output_memory x) i (Some buffer);
        store p (set_audio_output_memory memory);;
        f ← lff_init CONTROL_FIFO_SIZE sizeof_LADSPA_Data;
        x ← load p;
        fifos ← array_set (wet_dry_fifos x) i (Some f);
        store p (set_wet_dry_fifos fifos);;
        x ← load p;
        values ← array_set (wet_dry_values x) i (Some 1%Q);
        store p (set_wet_dry_values values)) ())
     (λ _ s', ∃ v, wet_dry_of p s' = Some v ∧ length v = n
                   ∧ ∀ j, (j < n)%nat → v !! j = Some (Some 1%Q)) s.
Proof.
  intros s Hv.
  eapply wp_mono;
    [|apply (wp_for_loop (λ i _ s', ∃ v, wet_dry_of p s' = Some v
                            ∧ length v = n
                            ∧ ∀ j, (j < i)%nat → v !! j = Some (Some 1%Q)))].
  - cbn beta. intros _ s' (v & ? & ? & ?). eauto.
  - intros i [] s1 Hi (v & Hv1 & Hl & Hj).
    eapply wp_same_wet_dry; [apply wet_dry_g_malloc|done|]. intros buffer s2 H2.
    eapply wp_same_wet_dry;
      [apply preserves_load, same_wet_dry_refl|done|]. intros x s3 H3.
    eapply wp_same_wet_dry;
      [apply preserves_array_set, same_wet_dry_refl|done|]. intros m s4 H4.
    eapply wp_same_wet_dry; [by apply wet_dry_store|done|]. intros _ s5 H5.
    eapply wp_same_wet_dry; [apply wet_dry_lff_init|done|]. intros f s6 H6.
    eapply wp_same_wet_dry;
      [apply preserves_load, same_wet_dry_refl|done|]. intros y s7 H7.
    eapply wp_same_wet_dry;
      [apply preserves_array_set, same_wet_dry_refl|done|]. intros fs s8 H8.
    eapply wp_same_wet_dry; [by apply wet_dry_store|done|]. intros _ s9 H9.
    eapply wp_mono; [|by apply wp_set_wet_dry_value].
    cbn beta. intros _ s' [Hlt Hv']. eexists. split; [done|].
    rewrite length_insert. split; [done|]. intros j Hjs.
    destruct (decide (j = i)) as [->|].
    + by rewrite list_lookup_insert_eq.
    + rewrite list_lookup_insert_ne by done. apply Hj. lia.
  - destruct Hv as (v & ? & ?). exists v. repeat split; try done. lia.
Qed.

Lemma wp_instantiate E effect index copies effects s :
  wp (vst2_plugin_instantiate E effect index copies effects)
     (λ r _, r.1 = 0) s.
Proof.
  unfold vst2_plugin_instantiate. apply wp_bind_any. intros a s1. by apply wp_ret.
Qed.

Lemma wp_alloc_plugin x s :
  wp (alloc_plugin x) (λ p s', plugins s' !! p = Some x) s.
Proof.
  unfold alloc_plugin. apply wp_bind_any. intros [b|] s1; [|done].
  unfold wp, deref, place_plugin, mbind, M_bind, mret, M_ret. snorm.
  by rewrite lookup_insert_eq.
Qed.

(** The wet/dry values of the plugin that [vst2_plugin_new] returns. *)
Lemma vst2_plugin_new_wet_dry E desc ctx s p s' :
  vst2_plugin_new E desc ctx s = Some (Some p, s') →
  ∃ v, wet_dry_of p s' = Some v
       ∧ length v = N.to_nat (channels ctx)
       ∧ ∀ j, (j < N.to_nat (channels ctx))%nat → v !! j = Some (Some 1%Q).
Proof.
  intros Hrun.
  refine (wp_run _ (λ r s', ∀ p, r = Some p → _) _ _ _ _ Hrun p eq_refl).
  clear Hrun. unfold vst2_plugin_new, vst2_plugin_open_plugin.
  destruct (desc_effect desc) as [e|]; [|done].
  apply wp_bind. apply wp_ret. cbn beta iota. rewrite decide_False by lia.
  apply wp_bind_any. intros blk s1.
  apply wp_bind. eapply wp_mono; [|apply wp_instantiate].
  intros [err effects] s2 Herr. cbn in Herr. subst err. cbn beta iota.
  rewrite decide_False by lia.
  apply wp_bind. eapply wp_mono; [|apply wp_alloc_plugin].
  intros q s3 Hq. cbn beta.
  assert (wet_dry_of q s3 = Some []) as H3.
  { unfold wet_dry_of. by rewrite Hq. }
  eapply wp_same_wet_dry; [apply wet_dry_g_malloc|done|]. intros _ s4 H4.
  eapply wp_same_wet_dry; [by apply wet_dry_store|done|]. intros _ s5 H5.
  eapply wp_same_wet_dry; [apply wet_dry_g_malloc|done|]. intros _ s6 H6.
  eapply wp_same_wet_dry; [by apply wet_dry_store|done|]. intros _ s7 H7.
  apply wp_bind_any. intros _ s8. clear.
  apply wp_bind. unfold wp at 1, store.
  destruct (plugins s8 !! q) as [x|] eqn:Hx; [|done].
  apply wp_bind. eapply wp_mono; [|apply wp_channels_loop].
  2:{ eexists. unfold wet_dry_of. cbn. rewrite lookup_insert_eq. cbn.
      split; [done|]. by rewrite length_replicate. }
  cbn beta. intros _ s9 (v & Hv & Hl & Hall).
  eapply wp_same_wet_dry; [apply wet_dry_g_malloc|done|]. intros _ s10 H10.
  eapply wp_same_wet_dry; [by apply wet_dry_store|done|]. intros _ s11 H11.
  eapply wp_same_wet_dry; [|done|].
  { apply preserves_for_loop;
      [apply same_wet_dry_refl|apply same_wet_dry_trans|].
    intros i []. apply preserves_bind; [apply same_wet_dry_trans| |].
    { apply preserves_array_get, same_wet_dry_refl. }
    intros c. apply preserves_bind; [apply same_wet_dry_trans| |].
    { apply preserves_deref, same_wet_dry_refl. }
    intros eff. apply wet_dry_init_holder. }
  intros _ s12 H12. apply wp_ret. intros ? [= <-]. eauto.
Qed.

(** A creation that fails has released what it allocated and has touched
    neither the process info nor the plugins. *)
Lemma vst2_plugin_new_failure E desc ctx s s' :
  vst2_plugin_new E desc ctx s = Some (None, s') →
  blocks s' = blocks s ∧ plugins s' = plugins s ∧ procinfo s' = procinfo s.
Proof.
  intros Hrun.
  refine (wp_run _ (λ r s', r = None → _) _ _ _ _ Hrun eq_refl).
  clear Hrun. unfold vst2_plugin_new, vst2_plugin_open_plugin.
  destruct (desc_effect desc) as [e|]; [|done].
  apply wp_bind. apply wp_ret. cbn beta iota. rewrite decide_False by lia.
  apply wp_bind_any. intros blk s1.
  apply wp_bind. eapply wp_mono; [|apply wp_instantiate].
  intros [err effects] s2 Herr. cbn in Herr. subst err. cbn beta iota.
  rewrite decide_False by lia.
  repeat (apply wp_bind_any; intros).
  by apply wp_ret.
Qed.

(* --------------------------------------------------------------------- *)
(** *** The mirror of a new holder *)

(** A step that leaves an observation of the state alone. *)
Lemma wp_keep {A B T} (obs : state → T) (m : M A) (k : A → M B) Q v s :
  preserves (λ s s', obs s' = obs s) m →
  obs s = v →
  (∀ a s1, obs s1 = v → wp (k a) Q s1) →
  wp (m ≫= k) Q s.
Proof.
  intros Hm Hv Hk. apply wp_bind. eapply wp_mono; [|apply Hm].
  intros a s1 H1. cbn beta. apply Hk. congruence.
Qed.

Section mirror.
Variables (p : ptr) (copy : nat).

Lemma same_control_memory_refl s : same_control_memory p copy s s.
Proof. done. Qed.

Lemma same_control_memory_trans s1 s2 s3 :
  same_control_memory p copy s1 s2 → same_control_memory p copy s2 s3 →
  same_control_memory p copy s1 s3.
Proof. unfold same_control_memory. congruence. Qed.

Lemma mirror_emit e : preserves (same_control_memory p copy) (emit e).
Proof. by intros s. Qed.

Lemma mirror_g_malloc n : preserves (same_control_memory p copy) (g_malloc n).
Proof. intros s. unfold wp, g_malloc. by repeat case_decide. Qed.

Lemma mirror_lff_init a b :
  preserves (same_control_memory p copy) (lff_init a b).
Proof. by intros s. Qed.

(** An update of a holder that is not one of its mirror. *)
Lemma mirror_modify_holder q c f :
  (∀ h, control_memory (f h) = control_memory h) →
  preserves (same_control_memory p copy) (modify_holder q c f).
Proof.
  intros Hf s. unfold wp, modify_holder, load, array_get, store.
  rewrite !bind_run.
  destruct (plugins s !! q) as [x|] eqn:Hx; [|done].
  rewrite bind_run.
  destruct (holders x !! c) as [h|] eqn:Hh; [|done].
  rewrite ret_run, Hx.
  unfold same_control_memory, control_memory_of. snorm.
  destruct (decide (p = q)) as [->|]; [|by rewrite lookup_insert_ne].
  rewrite lookup_insert_eq, Hx. cbn [holders set_holders].
  destruct (decide (copy = c)) as [->|]; [|by rewrite list_lookup_insert_ne].
  rewrite list_lookup_insert_eq by (by eapply lookup_lt_Some).
  rewrite Hh. cbn. by rewrite Hf.
Qed.

(** [holder->control_memory = v]. *)
Lemma wp_set_control_memory v s :
  wp (modify_holder p copy (set_control_memory v))
     (λ _ s', control_memory_of p copy s' = Some v) s.
Proof.
  unfold wp, modify_holder, load, array_get, store. rewrite !bind_run.
  destruct (plugins s !! p) as [x|] eqn:Hx; [|done].
  rewrite bind_run.
  destruct (holders x !! copy) as [h|] eqn:Hh; [|done].
  rewrite ret_run, Hx. unfold control_memory_of. snorm.
  rewrite lookup_insert_eq. cbn [holders set_holders].
  by rewrite list_lookup_insert_eq by (by eapply lookup_lt_Some).
Qed.

Lemma mirror_load_holder q c :
  preserves (same_control_memory p copy) (load_holder q c).
Proof.
  unfold load_holder. apply preserves_bind; [apply same_control_memory_trans| |].
  - apply preserves_load, same_control_memory_refl.
  - intros x. apply preserves_array_get, same_control_memory_refl.
Qed.

Lemma mirror_push_control q c i d :
  preserves (same_control_memory p copy) (push_control q c i d).
Proof.
  unfold push_control.
  repeat first
    [ apply mirror_load_holder | apply mirror_emit
    | apply preserves_array_get; [apply same_control_memory_refl]
    | apply preserves_deref; [apply same_control_memory_refl]
    | apply preserves_bind; [apply same_control_memory_trans| |intros ?] ].
Qed.

Lemma mirror_create_aux_ports E q c ctx :
  preserves (same_control_memory p copy)
    (vst2_plugin_create_aux_ports E q c ctx).
Proof.
  unfold vst2_plugin_create_aux_ports.
  repeat first
    [ apply mirror_load_holder | apply mirror_emit | apply mirror_g_malloc
    | apply mirror_modify_holder; [done]
    | apply preserves_fault
    | apply preserves_ret; [apply same_control_memory_refl]
    | apply preserves_load; [apply same_control_memory_refl]
    | apply preserves_get_state; [apply same_control_memory_refl]
    | apply preserves_array_set; [apply same_control_memory_refl]
    | apply preserves_deref; [apply same_control_memory_refl]
    | apply preserves_for_loop;
        [apply same_control_memory_refl|apply same_control_memory_trans
        |intros ? ?]
    | apply preserves_bind; [apply same_control_memory_trans| |intros ?]
    | match goal with
      | |- preserves _ (match ?x with _ => _ end) => destruct x
      end ].
Qed.
End mirror.

(** The loop of [vst2_plugin_init_holder] over the control ports. *)
Lemma wp_control_ports_loop E p copy d n : ∀ s,
  (∃ v, control_memory_of p copy s = Some (Some v) ∧ length v = n) →
  wp (for_loop n 0 (λ i _,
        f ← lff_init CONTROL_FIFO_SIZE sizeof_LADSPA_Data;
        h ← load_holder p copy;
        fifos ← deref (ui_control_fifos h);
        fifos ← array_set fifos i (Some f);
        modify_holder p copy (set_ui_control_fifos (Some fifos));;
        port ← array_get (desc_control_port_indicies d) i;
        h ← load_holder p copy;
        memory ← deref (control_memory h);
        memory ← array_set memory i
          (Some (vst2_plugin_desc_get_default_control_value E d port
                   (vst2_sample_rate E)));
        modify_holder p copy (set_control_memory (Some memory));;
        push_control p copy i d) ())
     (λ _ s', ∃ v, control_memory_of p copy s' = Some (Some v)
                   ∧ length v = n ∧ seeded E d n v) s.
Proof.
  intros s Hv.
  eapply wp_mono;
    [|apply (wp_for_loop (λ i _ s', ∃ v,
               control_memory_of p copy s' = Some (Some v)
               ∧ length v = n ∧ seeded E d i v))].
  - cbn beta. intros _ s' (v & ? & ? & ?). eauto.
  - intros i [] s1 Hi (v & Hv1 & Hl & Hj).
    eapply (wp_keep (control_memory_of p copy));
      [apply mirror_lff_init|done|]. intros f s2 H2.
    eapply (wp_keep (control_memory_of p copy));
      [apply mirror_load_holder|done|]. intros h s3 H3.
    eapply (wp_keep (control_memory_of p copy));
      [apply preserves_deref, same_control_memory_refl|done|].
    intros fs s4 H4.
    eapply (wp_keep (control_memory_of p copy));
      [apply preserves_array_set, same_control_memory_refl|done|].
    intros fs' s5 H5.
    eapply (wp_keep (control_memory_of p copy));
      [by apply mirror_modify_holder|done|]. intros _ s6 H6.
    unfold array_get at 1.
    destruct (desc_control_port_indicies d !! i) as [port|] eqn:Hport;
      [|done].
    apply wp_bind, wp_ret. cbn beta.
    apply wp_bind. unfold wp at 1, load_holder, load, array_get.
    rewrite bind_run.
    unfold control_memory_of in H6.
    destruct (plugins s6 !! p) as [x|] eqn:Hx; [|done].
    destruct (holders x !! copy) as [h'|] eqn:Hh'; [|done].
    rewrite ret_run. cbn in H6. injection H6 as H6. rewrite H6.
    apply wp_bind, wp_ret. cbn beta.
    unfold array_set. case_decide as Hlt; [|done].
    apply wp_bind, wp_ret. cbn beta.
    apply wp_bind. eapply wp_mono; [|apply wp_set_control_memory].
    cbn beta. intros _ s7 H7.
    eapply wp_mono; [|apply (mirror_push_control p copy)].
    cbn beta. intros _ s8 H8. unfold same_control_memory in H8.
    eexists. split; [by rewrite H8, H7|].
    rewrite length_insert. split; [done|].
    intros j port' Hjs Hport'.
    destruct (decide (j = i)) as [->|].
    + rewrite list_lookup_insert_eq by done. congruence.
    + rewrite list_lookup_insert_ne by done. apply Hj; [lia|done].
  - destruct Hv as (v & ? & ?). exists v. repeat split; try done.
    intros j port Hj. lia.
Qed.

(** Default parameter seeding: when [vst2_plugin_init_holder] returns, the
    mirror of the holder is NULL for a descriptor without control ports,
    and holds the default of every control port otherwise. *)
Lemma init_holder_seeds_mirror E p copy e ctx s s' x :
  plugins s !! p = Some x →
  vst2_plugin_init_holder E p copy e ctx s = Some ((), s') →
  let n := N.to_nat (desc_control_port_count (desc x)) in
  if decide (0 < n)%nat
  then ∃ v, control_memory_of p copy s' = Some (Some v)
            ∧ length v = n ∧ seeded E (desc x) n v
  else control_memory_of p copy s' = Some None.
Proof.
  intros Hx Hrun n.
  refine (wp_run _ (λ _ s', _) _ _ _ _ Hrun). clear Hrun.
  unfold vst2_plugin_init_holder. apply wp_bind. unfold wp at 1, load.
  rewrite Hx. cbn zeta. fold n.
  apply wp_bind_any. intros _ s1. clear s Hx.
  set (Q := λ s',
    if decide (0 < n)%nat
    then ∃ v, control_memory_of p copy s' = Some (Some v)
              ∧ length v = n ∧ seeded E (desc x) n v
    else control_memory_of p copy s' = Some None).
  assert (∀ s2, Q s2 →
    wp ((if decide (0 < desc_status_port_count (desc x))%N then
           _ ← g_malloc (Z.of_N (desc_status_port_count (desc x)));
           modify_holder p copy
             (set_status_memory
                (Some (replicate
                         (N.to_nat (desc_status_port_count (desc x))) None)))
         else modify_holder p copy (set_status_memory None));;
        h ← load_holder p copy;
        (if control_memory h is Some _ then
           for_loop (N.to_nat (desc_status_port_count (desc x))) 0
             (λ i _, push_control p copy i (desc x)) ()
         else mret ());;
        procinfo ← get_procinfo;
        if decide (is_Some (jack_client procinfo)
                   ∧ (0 < desc_aux_channels (desc x))%N)
        then vst2_plugin_create_aux_ports E p copy ctx
        else mret ()) (λ _ s', Q s') s2) as Hrest.
  { intros s2 HQ.
    assert (∃ v, control_memory_of p copy s2 = v ∧
              ∀ s', control_memory_of p copy s' = v → Q s') as (v & Hv & HQ').
    { eexists. split; [reflexivity|]. intros s0 Hs0. unfold Q in *.
      case_decide; by rewrite Hs0. }
    clear HQ.
    eapply (wp_keep (control_memory_of p copy)); [|exact Hv|].
    { case_decide.
      - apply preserves_bind; [apply same_control_memory_trans| |intros ?].
        + apply mirror_g_malloc.
        + by apply mirror_modify_holder.
      - by apply mirror_modify_holder. }
    intros _ s3 H3.
    eapply (wp_keep (control_memory_of p copy));
      [apply mirror_load_holder|done|]. intros h s4 H4.
    eapply (wp_keep (control_memory_of p copy)); [|exact H4|].
    { destruct (control_memory h).
      - apply preserves_for_loop;
          [apply same_control_memory_refl|apply same_control_memory_trans|].
        intros i []. apply mirror_push_control.
      - apply preserves_ret, same_control_memory_refl. }
    intros _ s5 H5.
    apply wp_bind, wp_ret. cbn beta.
    case_decide.
    - eapply wp_mono; [|apply (mirror_create_aux_ports p copy)].
      cbn beta. intros _ s6 H6. apply HQ'. unfold same_control_memory in H6.
      congruence.
    - apply wp_ret. by apply HQ'. }
  destruct (decide (0 < desc_control_port_count (desc x))%N) as [Hc|Hc].
  - apply wp_bind. apply wp_bind_any. intros _ s2.
    apply wp_bind_any. intros _ s3. apply wp_bind_any. intros _ s4.
    eapply wp_mono; [|apply wp_set_control_memory].
    cbn beta. intros _ s5 H5.
    apply wp_bind. eapply wp_mono; [|apply wp_control_ports_loop].
    2:{ eexists. split; [done|]. by rewrite length_replicate. }
    cbn beta. intros _ s6 H6. apply Hrest. unfold Q.
    rewrite decide_True by lia. done.
  - apply wp_bind. apply wp_bind_any. intros _ s2.
    eapply wp_mono; [|apply wp_set_control_memory].
    cbn beta. intros _ s3 H3.
    replace n with 0%nat by lia. cbn [for_loop].
    apply wp_bind, wp_ret. cbn beta. apply Hrest. unfold Q.
    rewrite decide_False by lia. done.
Qed.

(* ===================================================================== *)
(** ** Checks that decide well formedness *)
(* ===================================================================== *)

Lemma dsegb_correct m l : ∀ pp qn, dsegb m pp l qn = true → dseg m pp l qn.
Proof.
  induction l as [|p tl IH]; intros pp qn H; [done|]. cbn in H.
  destruct (m !! p) as [x|] eqn:Hx; [|done].
  apply andb_true_iff in H as [H H3]. apply andb_true_iff in H as [H1 H2].
  apply bool_decide_eq_true in H1, H2.
  exists x. repeat split; try done. by apply IH.
Qed.

Lemma chain_okb_correct s l : chain_okb s l = true → chain_ok s l.
Proof.
  unfold chain_okb. intros H.
  apply andb_true_iff in H as [H H4]. apply andb_true_iff in H as [H H3].
  apply andb_true_iff in H as [H1 H2].
  apply bool_decide_eq_true in H1, H2, H3.
  repeat split; try done. by apply dsegb_correct.
Qed.

Lemma chain_ok_links s l1 p l2 :
  chain_ok s (l1 ++ p :: l2) →
  prev_of s p = Some (last l1) ∧ next_of s p = Some (head l2).
Proof.
  intros (_ & _ & _ & Hs). apply dseg_app in Hs as [_ Hs].
  apply dseg_cons in Hs as [(x & Hx & Hp & Hn) _].
  unfold prev_of, next_of. rewrite Hx. cbn.
  by rewrite Hp, Hn, last_last_or, head_hd_or.
Qed.

(* ===================================================================== *)
(** ** The properties of the specification *)
(* ===================================================================== *)

(** C1.  Chain consistency: after every operation of a sequence of appends,
    removes, moves and replaces that starts from an empty chain, each
    applied within its precondition, the operation has returned and the
    chain is acyclic and doubly consistent: the walk from the head along
    [next] and the walk from the tail along [prev] visit the same plugins,
    each once, in opposite orders; [n.next = m] if and only if
    [m.prev = n]; the head has no predecessor and the tail no successor. *)
Theorem chain_consistent_after_operations s0 ops :
  chain (procinfo s0) = None → chain_end (procinfo s0) = None →
  aux_ready s0 → preconditions s0 ops →
  ∀ k, ∃ s l, run_operations (take k ops) s0 = Some s ∧ consistent s l.
Proof.
  intros Hc He Hready Hpre k.
  pose proof (chain_ok_nil s0 Hc He) as Hok. clear Hc He.
  revert k s0 Hready Hpre Hok. generalize (@nil ptr).
  induction ops as [|o ops IH]; intros l k s Hready Hpre Hok.
  - rewrite take_nil. exists s, l. split; [done|]. by apply chain_ok_consistent.
  - destruct k as [|k].
    { exists s, l. split; [done|]. by apply chain_ok_consistent. }
    destruct Hpre as [Hpo Hpre].
    destruct (run_operation_chain_ok s l o Hok Hready Hpo)
      as (s' & l' & Hrun & Hok' & Hready').
    rewrite Hrun in Hpre. cbn [take run_operations]. rewrite Hrun.
    by apply (IH l').
Qed.

Lemma chain_consistent_after_operations_witness :
  ∃ s l, run_operations (take 7 demo_operations) pool4 = Some s
         ∧ consistent s l.
Proof.
  apply (chain_consistent_after_operations pool4 demo_operations).
  - reflexivity.
  - reflexivity.
  - refine (bool_decide_unpack _ _). vm_compute. exact I.
  - refine (bool_decide_unpack _ _). vm_compute. exact I.
Defined.

(** C2, as stated, fails: with two plugins of the type of the removed one
    after it, the second of them does not receive the ports of the removed
    plugin. *)
Lemma remove_ports_counterexample :
  ∃ s' x,
    chain_ok rack3 [1; 2; 3]%positive
    ∧ plugins rack3 !! 1%positive = Some x
    ∧ is_Some (jack_client (procinfo rack3))
    ∧ (0 < desc_aux_channels (desc x))%N
    ∧ vst2_process_remove_plugin 1%positive rack3 = Some (1%positive, s')
    ∧ has_id (plugins s') (desc_id (desc x)) 3%positive
    ∧ linked s' 3%positive
    ∧ aux_of (plugins s') 3%positive ≠ aux_of (plugins rack3) 1%positive.
Proof.
  eexists _, _. split; [by apply chain_okb_correct|].
  split; [reflexivity|]. split; [by eexists|]. split; [done|].
  split; [vm_compute; reflexivity|].
  split; [by vm_compute|]. split; [refine (bool_decide_unpack _ _); vm_compute; exact I|].
  by vm_compute.
Qed.

(** C2, amended.  When remove is called on a plugin whose descriptor
    declares auxiliary channels while the JACK client is active, the
    plugins of the same descriptor id that follow it hand the ports down
    the chain: the first of them holds the ports the removed plugin held,
    each further one holds the ports that the one before it held, the
    removed plugin is left with the ports of the last one, and every other
    plugin keeps its own. *)
Theorem remove_hands_ports_down s l1 p l2 x :
  chain_ok s (l1 ++ p :: l2) → aux_ready s →
  plugins s !! p = Some x →
  is_Some (jack_client (procinfo s)) →
  (0 < desc_aux_channels (desc x))%N →
  ∃ s',
    vst2_process_remove_plugin p s = Some (p, s')
    ∧ let F := filter (has_id (plugins s) (desc_id (desc x))) l2 in
      (∀ q, head F = Some q →
         aux_of (plugins s') q = aux_of (plugins s) p)
      ∧ (∀ i q' q, F !! i = Some q' → F !! S i = Some q →
           aux_of (plugins s') q = aux_of (plugins s) q')
      ∧ aux_of (plugins s') p = aux_of (plugins s) (default p (last F))
      ∧ (∀ q, q ≠ p → q ∉ F →
           aux_of (plugins s') q = aux_of (plugins s) q).
Proof.
  intros Hok Hready Hx Hj Haux.
  destruct (remove_plugin_run _ _ _ _ Hok Hready)
    as (x' & s' & Hx' & Hrun & _ & _ & _ & _ & _ & _ & _ & _ & Hports).
  rewrite Hx in Hx'. injection Hx' as <-.
  rewrite bool_decide_eq_true_2 in Hports by done.
  destruct Hports as [Hrot Hfr].
  exists s'. split; [done|]. cbn zeta.
  set (F := filter (has_id (plugins s) (desc_id (desc x))) l2) in *.
  assert (∀ i q, (F ++ [p]) !! i = Some q →
            Some (aux_of (plugins s') q)
            = aux_of (plugins s) <$> (p :: F) !! i) as Hi.
  { intros i q Hq. rewrite <-list_lookup_fmap, <-Hrot, list_lookup_fmap.
    by rewrite Hq. }
  repeat split; try done.
  - intros q Hq. destruct F as [|q0 F']; [done|]. injection Hq as ->.
    specialize (Hi 0%nat q eq_refl). cbn in Hi. congruence.
  - intros i q' q Hq' Hq.
    specialize (Hi (S i) q). rewrite lookup_app_l in Hi
      by (by eapply lookup_lt_Some).
    specialize (Hi Hq).
    assert ((p :: F) !! S i = Some q') as E by exact Hq'.
    rewrite E in Hi. cbn in Hi. congruence.
  - specialize (Hi (length F) p). rewrite lookup_app_r, Nat.sub_diag in Hi
      by done.
    specialize (Hi eq_refl).
    destruct F as [|q0 F' _] using rev_ind.
    + cbn in Hi. cbn. congruence.
    + rewrite last_snoc. cbn.
      assert ((p :: F' ++ [q0]) !! length (F' ++ [q0]) = Some q0) as E.
      { rewrite length_app, Nat.add_1_r.
        change ((F' ++ [q0]) !! length F' = Some q0).
        by rewrite lookup_app_r, Nat.sub_diag. }
      rewrite E in Hi. cbn in Hi. unfold id. congruence.
Qed.

Lemma remove_hands_ports_down_witness :
  ∃ s',
    vst2_process_remove_plugin 1%positive rack3 = Some (1%positive, s')
    ∧ let F := filter (has_id (plugins rack3) 7) [2; 3]%positive in
      (∀ q, head F = Some q →
         aux_of (plugins s') q = aux_of (plugins rack3) 1%positive)
      ∧ (∀ i q' q, F !! i = Some q' → F !! S i = Some q →
           aux_of (plugins s') q = aux_of (plugins rack3) q')
      ∧ aux_of (plugins s') 1%positive
        = aux_of (plugins rack3) (default 1%positive (last F))
      ∧ (∀ q, q ≠ 1%positive → q ∉ F →
           aux_of (plugins s') q = aux_of (plugins rack3) q).
Proof.
  apply (remove_hands_ports_down rack3 [] 1%positive [2; 3]%positive
           (demo_plugin 10%positive None (Some 2%positive))).
  - by apply chain_okb_correct.
  - refine (bool_decide_unpack _ _). vm_compute. exact I.
  - reflexivity.
  - by eexists.
  - reflexivity.
Defined.

(** C3.  The mirror of a new holder holds the default of its control port,
    but the default is not pushed exactly once: for a descriptor with one
    control port and one status port, [vst2_plugin_init_holder] calls
    [setParameter] twice with that default, the second time from its loop
    over the status ports. *)
Theorem init_holder_pushes_default_twice :
  ∃ s' x h,
    vst2_plugin_init_holder demo_extern 1%positive 0 (Some demo_effect)
      demo_context bare1 = Some ((), s')
    ∧ plugins s' !! 1%positive = Some x
    ∧ holders x !! 0%nat = Some h
    ∧ control_memory h
      = Some [Some (vst2_plugin_desc_get_default_control_value demo_extern
                      demo_desc 4 48000)]
    ∧ set_parameter_calls (trace s')
      = [(100%positive, 0, 4%Q); (100%positive, 0, 4%Q)].
Proof.
  eexists _, _, _. split; [vm_compute; reflexivity|].
  split; [vm_compute; reflexivity|]. split; [reflexivity|].
  split; reflexivity.
Qed.

(** In [vst2_plugin_new] the copies share the one effect of the descriptor,
    which so receives the default twice for each copy. *)
Lemma new_pushes_default_for_each_copy :
  set_parameter_calls (trace demo_created)
  = [(100%positive, 0, 4%Q); (100%positive, 0, 4%Q);
     (100%positive, 0, 4%Q); (100%positive, 0, 4%Q)].
Proof. reflexivity. Qed.

(** C4.  Move boundary no-op: moving the head of a chain up, or its tail
    down, returns without any effect on the state: the chain, every link,
    the head and the tail are what they were. *)
Theorem move_at_boundary_is_noop s l p up :
  chain_ok s l →
  (up ≠ 0 ∧ head l = Some p) ∨ (up = 0 ∧ last l = Some p) →
  vst2_process_move_plugin p up s = Some ((), s).
Proof.
  intros Hok [[Hup Hp]|[Hup Hp]].
  - destruct l as [|p' l2]; [done|]. injection Hp as ->.
    apply (move_plugin_boundary_run s [] p l2 up Hok).
    by rewrite decide_True.
  - apply last_Some in Hp as [l1 ->].
    apply (move_plugin_boundary_run s l1 p [] up Hok).
    rewrite decide_False; [done|]. lia.
Qed.

Lemma move_at_boundary_is_noop_witness :
  vst2_process_move_plugin 1%positive 1 rack3 = Some ((), rack3).
Proof.
  apply (move_at_boundary_is_noop rack3 [1; 2; 3]%positive).
  - by apply chain_okb_correct.
  - left. split; [lia|reflexivity].
Defined.

(** C5.  Replace preserves position: replacing the plugin [B] of a chain,
    between the plugins before it [l1] and after it [l2], by a plugin [D]
    that is not in the chain returns [B] and leaves the chain
    [l1 ++ D :: l2]: [D] points back at the predecessor [A] of [B] and on
    to its successor [C], which point at [D]; where [A] or [C] is missing,
    the head or the tail of the chain is [D]. *)
Theorem change_plugin_splices s l1 B l2 D :
  chain_ok s (l1 ++ B :: l2) → aux_ready s →
  D ∉ l1 ++ B :: l2 → is_Some (plugins s !! D) →
  ∃ s',
    vst2_process_change_plugin B D s = Some (B, s')
    ∧ chain_ok s' (l1 ++ D :: l2)
    ∧ prev_of s' D = Some (last l1) ∧ next_of s' D = Some (head l2)
    ∧ (∀ A, last l1 = Some A → next_of s' A = Some (Some D))
    ∧ (∀ C, head l2 = Some C → prev_of s' C = Some (Some D))
    ∧ (last l1 = None → chain (procinfo s') = Some D)
    ∧ (head l2 = None → chain_end (procinfo s') = Some D).
Proof.
  intros Hok Hready HD HxD.
  destruct (change_plugin_run _ _ _ _ _ Hok Hready HD HxD)
    as (x & s' & _ & Hrun & Hok' & _).
  exists s'. split; [done|]. split; [done|].
  destruct (chain_ok_links _ _ _ _ Hok') as [Hp Hn].
  split; [done|]. split; [done|]. repeat split.
  - intros A HA. apply last_Some in HA as [l0 ->].
    rewrite <-app_assoc in Hok'. cbn [app] in Hok'.
    by destruct (chain_ok_links _ _ _ _ Hok') as [_ ->].
  - intros C HC. destruct l2 as [|C' l3]; [done|]. injection HC as ->.
    assert (chain_ok s' ((l1 ++ [D]) ++ C :: l3)) as Hok''
      by (by rewrite <-app_assoc).
    destruct (chain_ok_links _ _ _ _ Hok'') as [-> _].
    by rewrite last_snoc.
  - intros Hl. destruct Hok' as (_ & -> & _).
    destruct l1 as [|a l1 _] using rev_ind; [done|].
    by rewrite last_snoc in Hl.
  - intros Hl. destruct Hok' as (_ & _ & -> & _).
    destruct l2; [|done]. by rewrite last_snoc.
Qed.

Lemma change_plugin_splices_witness :
  ∃ s',
    vst2_process_change_plugin 2%positive 4%positive rack3
    = Some (2%positive, s')
    ∧ chain_ok s' ([1%positive] ++ 4%positive :: [3%positive])
    ∧ prev_of s' 4%positive = Some (last [1%positive])
    ∧ next_of s' 4%positive = Some (head [3%positive])
    ∧ (∀ A, last [1%positive] = Some A →
         next_of s' A = Some (Some 4%positive))
    ∧ (∀ C, head [3%positive] = Some C →
         prev_of s' C = Some (Some 4%positive))
    ∧ (last [1%positive] = None → chain (procinfo s') = Some 4%positive)
    ∧ (head [3%positive] = None → chain_end (procinfo s') = Some 4%positive).
Proof.
  apply (change_plugin_splices rack3 [1%positive] 2%positive [3%positive]
           4%positive).
  - by apply chain_okb_correct.
  - refine (bool_decide_unpack _ _). vm_compute. exact I.
  - refine (bool_decide_unpack _ _). vm_compute. exact I.
  - by eexists.
Defined.

(** C6.  Aux-port identity swap: when move takes the plugin [X] past its
    neighbour [Y] while the JACK client is active and the descriptor of [X]
    declares auxiliary channels, then if both have the same descriptor id
    the auxiliary ports of their holders are exchanged copy by copy, [X]
    holding the former ports of [Y] and [Y] those of [X]; if the ids
    differ, no plugin's auxiliary ports change. *)
Theorem move_exchanges_ports s l0 X Y l3 up x y :
  aux_ready s →
  plugins s !! X = Some x → plugins s !! Y = Some y →
  is_Some (jack_client (procinfo s)) →
  (0 < desc_aux_channels (desc x))%N →
  (up ≠ 0 ∧ chain_ok s (l0 ++ Y :: X :: l3))
  ∨ (up = 0 ∧ chain_ok s (l0 ++ X :: Y :: l3)) →
  ∃ s',
    vst2_process_move_plugin X up s = Some ((), s')
    ∧ (desc_id (desc x) = desc_id (desc y) →
         aux_of (plugins s') X = aux_of (plugins s) Y
         ∧ aux_of (plugins s') Y = aux_of (plugins s) X)
    ∧ (desc_id (desc x) ≠ desc_id (desc y) →
         ∀ r, aux_of (plugins s') r = aux_of (plugins s) r)
    ∧ chain_ok s' (if decide (up ≠ 0)
                   then l0 ++ X :: Y :: l3 else l0 ++ Y :: X :: l3).
Proof.
  intros Hready Hx Hy Hj Haux Hcase.
  assert (∃ s',
    vst2_process_move_plugin X up s = Some ((), s')
    ∧ ports_exchanged
        (bool_decide ((is_Some (jack_client (procinfo s))
                       ∧ (0 < desc_aux_channels (desc x))%N)
                      ∧ desc_id (desc y) = desc_id (desc x)))
        (plugins s) (plugins s') X Y
    ∧ chain_ok s' (if decide (up ≠ 0)
                   then l0 ++ X :: Y :: l3 else l0 ++ Y :: X :: l3))
    as (s' & Hrun & Hports & Hok').
  { destruct Hcase as [[Hup Hok]|[Hup Hok]].
    - destruct (move_plugin_up_run _ _ _ _ _ _ Hup Hok Hready)
        as (x' & y' & s' & Hx' & Hy' & Hrun & Hok' & _ & _ & _ & _ & _
            & Hports).
      rewrite Hx in Hx'. rewrite Hy in Hy'.
      injection Hx' as <-. injection Hy' as <-.
      exists s'. by rewrite decide_True.
    - destruct (move_plugin_down_run _ _ _ _ _ _ Hup Hok Hready)
        as (x' & y' & s' & Hx' & Hy' & Hrun & Hok' & _ & _ & _ & _ & _
            & Hports).
      rewrite Hx in Hx'. rewrite Hy in Hy'.
      injection Hx' as <-. injection Hy' as <-.
      exists s'. rewrite decide_False by lia. done. }
  exists s'. split; [done|]. unfold ports_exchanged in Hports.
  split; [|split; [|done]].
  - intros Hid. rewrite bool_decide_eq_true_2 in Hports by done. tauto.
  - intros Hid r. rewrite bool_decide_eq_false_2 in Hports; [done|].
    intros [_ ?]. congruence.
Qed.

Lemma move_exchanges_ports_witness :
  ∃ s',
    vst2_process_move_plugin 2%positive 1 rack3 = Some ((), s')
    ∧ (7 = 7 →
         aux_of (plugins s') 2%positive = aux_of (plugins rack3) 1%positive
         ∧ aux_of (plugins s') 1%positive = aux_of (plugins rack3) 2%positive)
    ∧ (7 ≠ 7 → ∀ r, aux_of (plugins s') r = aux_of (plugins rack3) r)
    ∧ chain_ok s' [2; 1; 3]%positive.
Proof.
  apply (move_exchanges_ports rack3 [] 2%positive 1%positive [3%positive] 1
           (demo_plugin 20%positive (Some 1%positive) (Some 3%positive))
           (demo_plugin 10%positive None (Some 2%positive))).
  - refine (bool_decide_unpack _ _). vm_compute. exact I.
  - reflexivity.
  - reflexivity.
  - by eexists.
  - reflexivity.
  - left. split; [lia|]. by apply chain_okb_correct.
Defined.

(** C7.  Append: appending to a chain, empty or not, a plugin that is not
    in it returns with the plugin at the tail: its [prev] is the old tail
    (NULL for an empty chain), its [next] is NULL, the [next] of the old
    tail, or else the head of the chain, is the plugin, and so is the tail
    of the chain; no other link changes. *)
Theorem add_plugin_appends s l plugin :
  chain_ok s l → plugin ∉ l → is_Some (plugins s !! plugin) →
  ∃ s',
    vst2_process_add_plugin plugin s = Some ((), s')
    ∧ chain_ok s' (l ++ [plugin])
    ∧ prev_of s' plugin = Some (last l)
    ∧ next_of s' plugin = Some None
    ∧ match last l with
      | Some t =>
        next_of s' t = Some (Some plugin)
        ∧ prev_of s' t = prev_of s t
        ∧ chain (procinfo s') = chain (procinfo s)
      | None => chain (procinfo s') = Some plugin
      end
    ∧ chain_end (procinfo s') = Some plugin
    ∧ (∀ q, q ≠ plugin → Some q ≠ last l →
         prev_of s' q = prev_of s q ∧ next_of s' q = next_of s q).
Proof.
  intros Hok Hnin [x Hx].
  destruct (add_plugin_run _ _ _ _ Hok Hnin Hx)
    as (s' & Hrun & Hok' & _ & _ & _ & _ & Hp & Ht & Hfr).
  exists s'. split; [done|]. split; [done|].
  unfold prev_of, next_of. rewrite Hp. cbn.
  split; [done|]. split; [done|].
  pose proof Hok' as (_ & Hh' & Ht' & _). pose proof Hok as (_ & Hh & _).
  rewrite last_snoc in Ht'. split; [|split; [done|]].
  - destruct (last l) as [t|] eqn:Hl.
    + destruct (Ht t eq_refl) as (y & Hy & Hy'). rewrite Hy', Hy. cbn.
      repeat split. rewrite Hh', Hh. apply last_Some in Hl as [l' ->].
      by rewrite !head_app_hd_or, !hd_or_app.
    + rewrite Hh'. destruct l as [|a l _] using rev_ind; [done|].
      by rewrite last_snoc in Hl.
  - intros q Hq Hq'. by rewrite Hfr.
Qed.

Lemma add_plugin_appends_witness :
  ∃ s',
    vst2_process_add_plugin 4%positive rack3 = Some ((), s')
    ∧ chain_ok s' ([1; 2; 3]%positive ++ [4%positive])
    ∧ prev_of s' 4%positive = Some (last [1; 2; 3]%positive)
    ∧ next_of s' 4%positive = Some None
    ∧ match last [1; 2; 3]%positive with
      | Some t =>
        next_of s' t = Some (Some 4%positive)
        ∧ prev_of s' t = prev_of rack3 t
        ∧ chain (procinfo s') = chain (procinfo rack3)
      | None => chain (procinfo s') = Some 4%positive
      end
    ∧ chain_end (procinfo s') = Some 4%positive
    ∧ (∀ q, q ≠ 4%positive → Some q ≠ last [1; 2; 3]%positive →
         prev_of s' q = prev_of rack3 q ∧ next_of s' q = next_of rack3 q).
Proof.
  apply (add_plugin_appends rack3 [1; 2; 3]%positive 4%positive).
  - by apply chain_okb_correct.
  - refine (bool_decide_unpack _ _). vm_compute. exact I.
  - by eexists.
Defined.

(** C8.  Creation fails, returning no plugin, when the descriptor carries
    no effect; and whenever creation returns no plugin, every block it
    allocated has been released and neither the process info, with the head
    and the tail of the chain, nor any plugin in memory has changed. *)
Theorem new_fails_cleanly E desc ctx s :
  (desc_effect desc = None →
     ∃ s', vst2_plugin_new E desc ctx s = Some (None, s'))
  ∧ (∀ s', vst2_plugin_new E desc ctx s = Some (None, s') →
       outstanding s s' = ∅ ∧ blocks s' = blocks s
       ∧ plugins s' = plugins s ∧ procinfo s' = procinfo s).
Proof.
  split.
  - intros Hd. unfold vst2_plugin_new, vst2_plugin_open_plugin.
    rewrite Hd. by eexists.
  - intros s' Hrun.
    destruct (vst2_plugin_new_failure _ _ _ _ _ Hrun) as (Hb & Hp & Hi).
    repeat split; try done. unfold outstanding. rewrite Hb.
    apply difference_diag_L.
Qed.

Lemma new_fails_cleanly_witness :
  ∃ s', vst2_plugin_new demo_extern dead_desc demo_context rack3
        = Some (None, s')
        ∧ outstanding rack3 s' = ∅ ∧ blocks s' = blocks rack3
        ∧ plugins s' = plugins rack3 ∧ procinfo s' = procinfo rack3.
Proof.
  destruct (new_fails_cleanly demo_extern dead_desc demo_context rack3)
    as [H1 H2].
  destruct (H1 eq_refl) as [s' Hs']. exists s'. split; [exact Hs'|].
  exact (H2 s' Hs').
Defined.

(** C9.  Every plugin that [vst2_plugin_new] returns has, for every channel
    below the channel count of the context, the wet/dry value 1.0. *)
Theorem new_plugin_fully_wet E desc ctx s p s' :
  vst2_plugin_new E desc ctx s = Some (Some p, s') →
  ∀ i, (i < N.to_nat (channels ctx))%nat →
    ∃ x, plugins s' !! p = Some x
         ∧ wet_dry_values x !! i = Some (Some 1%Q).
Proof.
  intros Hrun i Hi.
  destruct (vst2_plugin_new_wet_dry _ _ _ _ _ _ Hrun) as (v & Hv & _ & Hall).
  unfold wet_dry_of in Hv. destruct (plugins s' !! p) as [x|]; [|done].
  injection Hv as <-. exists x. split; [done|]. by apply Hall.
Qed.

Lemma new_plugin_fully_wet_witness :
  ∃ x, plugins demo_created !! 2%positive = Some x
       ∧ wet_dry_values x !! 1%nat = Some (Some 1%Q).
Proof.
  apply (new_plugin_fully_wet demo_extern demo_desc demo_context nothing
           2%positive demo_created).
  - vm_compute. reflexivity.
  - vm_compute. lia.
Defined.

(** C10.  Remove and replace leave the links of the plugin they return as
    they were: it still points at its former neighbours. *)
Theorem returned_plugin_keeps_links s l1 p l2 :
  chain_ok s (l1 ++ p :: l2) → aux_ready s →
  (∃ s',
     vst2_process_remove_plugin p s = Some (p, s')
     ∧ prev_of s' p = prev_of s p ∧ next_of s' p = next_of s p
     ∧ prev_of s' p = Some (last l1) ∧ next_of s' p = Some (head l2))
  ∧ (∀ d, d ∉ l1 ++ p :: l2 → is_Some (plugins s !! d) →
       ∃ s',
         vst2_process_change_plugin p d s = Some (p, s')
         ∧ prev_of s' p = prev_of s p ∧ next_of s' p = next_of s p
         ∧ prev_of s' p = Some (last l1) ∧ next_of s' p = Some (head l2)).
Proof.
  intros Hok Hready. destruct (chain_ok_links _ _ _ _ Hok) as [Hp Hn]. split.
  - destruct (remove_plugin_run _ _ _ _ Hok Hready)
      as (x & s' & _ & Hrun & _ & _ & _ & _ & _ & _ & Hp' & Hn' & _).
    exists s'. rewrite Hp', Hn'. done.
  - intros d Hd Hxd.
    destruct (change_plugin_run _ _ _ _ _ Hok Hready Hd Hxd)
      as (x & s' & _ & Hrun & _ & _ & _ & _ & _ & _ & Hp' & Hn' & _).
    exists s'. rewrite Hp', Hn'. done.
Qed.

Lemma returned_plugin_keeps_links_witness :
  (∃ s',
     vst2_process_remove_plugin 2%positive rack3 = Some (2%positive, s')
     ∧ prev_of s' 2%positive = prev_of rack3 2%positive
     ∧ next_of s' 2%positive = next_of rack3 2%positive
     ∧ prev_of s' 2%positive = Some (last [1%positive])
     ∧ next_of s' 2%positive = Some (head [3%positive]))
  ∧ (∀ d, d ∉ [1%positive] ++ 2%positive :: [3%positive] →
       is_Some (plugins rack3 !! d) →
       ∃ s',
         vst2_process_change_plugin 2%positive d rack3 = Some (2%positive, s')
         ∧ prev_of s' 2%positive = prev_of rack3 2%positive
         ∧ next_of s' 2%positive = next_of rack3 2%positive
         ∧ prev_of s' 2%positive = Some (last [1%positive])
         ∧ next_of s' 2%positive = Some (head [3%positive])).
Proof.
  apply (returned_plugin_keeps_links rack3 [1%positive] 2%positive
           [3%positive]).
  - by apply chain_okb_correct.
  - refine (bool_decide_unpack _ _). vm_compute. exact I.
Defined.

(* ===================================================================== *)
(** ** What an edit of the chain leaves alone *)
(* ===================================================================== *)

Lemma links_and_ports_aside_refl s : links_and_ports_aside s s.
Proof. done. Qed.

Lemma links_and_ports_aside_trans s1 s2 s3 :
  links_and_ports_aside s1 s2 → links_and_ports_aside s2 s3 →
  links_and_ports_aside s1 s3.
Proof. unfold links_and_ports_aside. intros (?&?&?&?) (?&?&?&?). repeat split; congruence. Qed.

Lemma core_insert (m : gmap ptr vst2_plugin_t) p x y :
  m !! p = Some x → core y = core x → core <$> <[p := y]> m = core <$> m.
Proof.
  intros Hx E. rewrite fmap_insert. apply insert_id.
  rewrite lookup_fmap, Hx. cbn. congruence.
Qed.

(** An assignment to a link. *)
Lemma aside_store p f :
  (∀ x, core (f x) = core x) → preserves links_and_ports_aside (store p f).
Proof.
  intros Hf s. unfold wp, store.
  destruct (plugins s !! p) as [x|] eqn:Hx; [|done].
  repeat split. snorm. by apply core_insert with x.
Qed.

(** An assignment to the auxiliary ports of a holder. *)
Lemma ports_aside_refl s : ports_aside s s.
Proof. done. Qed.

Lemma ports_aside_trans s1 s2 s3 :
  ports_aside s1 s2 → ports_aside s2 s3 → ports_aside s1 s3.
Proof.
  unfold ports_aside, same_but_aux. intros (?&?&?&?) (?&?&?&?).
  repeat split; congruence.
Qed.

Lemma ports_aside_store_aux_ports p copy v :
  preserves ports_aside (store_aux_ports p copy v).
Proof.
  intros s. unfold wp, store_aux_ports, load, array_get, store.
  rewrite !bind_run.
  destruct (plugins s !! p) as [x|] eqn:Hx; [|done].
  rewrite bind_run.
  destruct (holders x !! copy) as [h|] eqn:Hh; [|done].
  rewrite ret_run, Hx. repeat split. snorm.
  unfold same_but_aux. rewrite fmap_insert. apply insert_id.
  rewrite lookup_fmap, Hx. cbn. f_equal.
  unfold erase_aux, set_holders. cbn. f_equal.
  rewrite list_fmap_insert. symmetry. apply list_insert_id.
  by rewrite list_lookup_fmap, Hh.
Qed.

Ltac ports_aside_tac :=
  repeat first
    [ apply ports_aside_store_aux_ports
    | apply preserves_ret; [apply ports_aside_refl]
    | apply preserves_fault
    | apply preserves_load; [apply ports_aside_refl]
    | apply preserves_array_get; [apply ports_aside_refl]
    | apply preserves_get_procinfo; [apply ports_aside_refl]
    | apply preserves_get_state; [apply ports_aside_refl]
    | apply preserves_for_loop;
        [apply ports_aside_refl|apply ports_aside_trans|intros ? ?]
    | apply preserves_bind; [apply ports_aside_trans| |intros ?]
    | match goal with
      | |- preserves _ (if ?c then _ else _) => destruct c
      | |- preserves _ (match ?x with _ => _ end) => destruct x
      end ].

Lemma ports_aside_swap_aux_ports plugin other :
  preserves ports_aside (vst2_plugin_swap_aux_ports plugin other).
Proof.
  unfold vst2_plugin_swap_aux_ports, swap_aux_ports_copy, load_aux_ports.
  ports_aside_tac.
Qed.

Lemma ports_aside_swap_matching_successors fuel plugin : ∀ other,
  preserves ports_aside (swap_matching_successors fuel plugin other).
Proof.
  induction fuel as [|fuel IH]; intros [o|]; cbn [swap_matching_successors];
    [by ports_aside_tac| by ports_aside_tac| |by ports_aside_tac].
  apply preserves_bind; [apply ports_aside_trans|ports_aside_tac|intros x].
  apply preserves_bind; [apply ports_aside_trans|ports_aside_tac|intros y].
  apply preserves_bind; [apply ports_aside_trans| |intros _].
  { case_decide; [apply ports_aside_swap_aux_ports|ports_aside_tac]. }
  apply preserves_bind; [apply ports_aside_trans|ports_aside_tac|intros y'].
  apply IH.
Qed.

Lemma ports_aside_sort_out_aux_ports plugin :
  preserves ports_aside (sort_out_aux_ports plugin).
Proof.
  unfold sort_out_aux_ports.
  apply preserves_bind; [apply ports_aside_trans|ports_aside_tac|intros pi].
  apply preserves_bind; [apply ports_aside_trans|ports_aside_tac|intros x].
  case_decide; [|ports_aside_tac].
  apply preserves_bind; [apply ports_aside_trans|ports_aside_tac|intros s].
  apply ports_aside_swap_matching_successors.
Qed.

Lemma ports_aside_move_swap_aux_ports plugin up :
  preserves ports_aside (move_swap_aux_ports plugin up).
Proof.
  unfold move_swap_aux_ports.
  apply preserves_bind; [apply ports_aside_trans|ports_aside_tac|intros pi].
  apply preserves_bind; [apply ports_aside_trans|ports_aside_tac|intros x].
  case_decide; [|ports_aside_tac].
  destruct (if decide (up ≠ 0) then next x else prev x); [|ports_aside_tac].
  apply preserves_bind; [apply ports_aside_trans|ports_aside_tac|intros y].
  case_decide; [apply ports_aside_swap_aux_ports|ports_aside_tac].
Qed.

Lemma erase_links_erase_aux x : erase_links (erase_aux x) = core x.
Proof. reflexivity. Qed.

Lemma ports_aside_links s s' : ports_aside s s' → links_and_ports_aside s s'.
Proof.
  intros (Hp & Hb & Ht & Hc). repeat split; try done.
  unfold same_but_aux in Hc.
  transitivity (erase_links <$> (erase_aux <$> plugins s')).
  { rewrite <-map_fmap_compose. by apply map_fmap_ext. }
  rewrite Hc, <-map_fmap_compose. by apply map_fmap_ext.
Qed.

Lemma preserves_weaken {A} (R R' : state → state → Prop) (m : M A) :
  (∀ s s', R s s' → R' s s') → preserves R m → preserves R' m.
Proof. intros H Hm s. eapply wp_mono; [|apply Hm]. intros a s'. apply H. Qed.

Lemma preserves_run {A} (R : state → state → Prop) (m : M A) s a s' :
  preserves R m → m s = Some (a, s') → R s s'.
Proof. intros Hm E. specialize (Hm s). unfold wp in Hm. by rewrite E in Hm. Qed.

Ltac aside_tac :=
  repeat first
    [ apply aside_store; [reflexivity]
    | apply preserves_ret; [apply links_and_ports_aside_refl]
    | apply preserves_fault
    | apply preserves_load; [apply links_and_ports_aside_refl]
    | apply preserves_array_get; [apply links_and_ports_aside_refl]
    | apply preserves_get_procinfo; [apply links_and_ports_aside_refl]
    | apply preserves_get_state; [apply links_and_ports_aside_refl]
    | apply preserves_bind; [apply links_and_ports_aside_trans| |intros ?]
    | match goal with
      | |- preserves _ (if ?c then _ else _) => destruct c
      | |- preserves _ (match ?x with _ => _ end) => destruct x
      end ].

Lemma aside_sort_out_aux_ports plugin :
  preserves links_and_ports_aside (sort_out_aux_ports plugin).
Proof.
  eapply preserves_weaken;
    [apply ports_aside_links|apply ports_aside_sort_out_aux_ports].
Qed.

Lemma aside_move_swap_aux_ports plugin up :
  preserves links_and_ports_aside (move_swap_aux_ports plugin up).
Proof.
  eapply preserves_weaken;
    [apply ports_aside_links|apply ports_aside_move_swap_aux_ports].
Qed.

Lemma aside_move_neighbours plugin :
  preserves links_and_ports_aside (move_neighbours plugin).
Proof. unfold move_neighbours. aside_tac. Qed.

(* --------------------------------------------------------------------- *)
(** *** The rules of [edits] *)

Lemma edits_only_refl s : edits_only s s.
Proof. done. Qed.

Lemma edits_bind {A B} s0 (P : A → Prop) (Q : B → Prop) (m : M A)
  (k : A → M B) :
  edits s0 P m → (∀ a, P a → edits s0 Q (k a)) → edits s0 Q (m ≫= k).
Proof.
  intros Hm Hk s Hs. apply wp_bind. eapply wp_mono; [|by apply Hm].
  intros a s1 [Hs1 Pa]. cbn beta. by apply Hk.
Qed.

Lemma edits_aside {A} s0 (m : M A) :
  preserves links_and_ports_aside m → edits s0 (λ _, True) m.
Proof.
  intros Hm s Hs. eapply wp_mono; [|apply Hm].
  intros a s1 (Hp & Hb & Ht & Hc). cbn beta. split; [|done].
  destruct Hs as (Hj & Hb0 & Ht0 & Hc0).
  unfold edits_only. rewrite Hp, Hb, Ht, Hc. done.
Qed.

Lemma edits_get_procinfo s0 :
  edits s0 (λ pi, jack_client pi = jack_client (procinfo s0)) get_procinfo.
Proof. intros s Hs. split; [done|]. apply Hs. Qed.

Lemma edits_put_procinfo s0 v :
  jack_client v = jack_client (procinfo s0) →
  edits s0 (λ _, True) (put_procinfo v).
Proof. intros Hv s (Hj & Hb & Ht & Hc). done. Qed.

Lemma edits_ret {A} s0 (P : A → Prop) a : P a → edits s0 P (mret a).
Proof. intros Pa s Hs. done. Qed.

Lemma edits_weaken {A} s0 (P Q : A → Prop) (m : M A) :
  (∀ a, P a → Q a) → edits s0 P m → edits s0 Q m.
Proof.
  intros H Hm s Hs. eapply wp_mono; [|by apply Hm].
  intros a s1 [? ?]. split; auto.
Qed.

(** [procinfo->chain = v] and [procinfo->chain_end = v]. *)
Lemma edits_set_chain s0 (f : vst2_process_info_t → vst2_process_info_t) :
  (∀ pi, jack_client (f pi) = jack_client pi) →
  edits s0 (λ _, True) (procinfo ← get_procinfo; put_procinfo (f procinfo)).
Proof.
  intros Hf. eapply edits_bind; [apply edits_get_procinfo|].
  intros pi Hpi. apply edits_put_procinfo. by rewrite Hf.
Qed.

Ltac edits_tac :=
  repeat first
    [ apply edits_set_chain; [reflexivity]
    | apply edits_aside; [by aside_tac]
    | apply edits_ret; [exact I]
    | match goal with
      | |- edits _ _ (match ?x with _ => _ end) => destruct x
      | |- edits _ _ (_ ≫= _) =>
        eapply (edits_bind _ (λ _, True)); [|intros ? _]
      end ].

Lemma edits_add_plugin s0 plugin :
  edits s0 (λ _, True) (vst2_process_add_plugin plugin).
Proof.
  unfold vst2_process_add_plugin.
  eapply (edits_bind _ (λ _, True)); [edits_tac|intros _ _].
  eapply edits_bind; [apply edits_get_procinfo|]. intros pi Hpi.
  eapply (edits_bind _ (λ _, True)); [edits_tac|intros _ _].
  eapply (edits_bind _ (λ _, True)); [|intros _ _; edits_tac].
  destruct (chain_end pi); [edits_tac|]. by apply edits_put_procinfo.
Qed.

Lemma edits_remove_plugin s0 plugin :
  edits s0 (λ _, True) (vst2_process_remove_plugin plugin).
Proof.
  unfold vst2_process_remove_plugin, remove_chain_pointers.
  eapply (edits_bind _ (λ _, True)); [edits_tac|intros _ _].
  eapply (edits_bind _ (λ _, True)); [|intros _ _; edits_tac].
  apply edits_aside, aside_sort_out_aux_ports.
Qed.

Lemma edits_change_plugin s0 plugin new_plugin :
  edits s0 (λ _, True) (vst2_process_change_plugin plugin new_plugin).
Proof.
  unfold vst2_process_change_plugin, change_chain_pointers.
  eapply (edits_bind _ (λ _, True)); [edits_tac|intros _ _].
  eapply (edits_bind _ (λ _, True)); [|intros _ _; edits_tac].
  apply edits_aside, aside_sort_out_aux_ports.
Qed.

Lemma edits_move_plugin s0 plugin up :
  edits s0 (λ _, True) (vst2_process_move_plugin plugin up).
Proof.
  unfold vst2_process_move_plugin.
  eapply (edits_bind _ (λ _, True));
    [apply edits_aside, aside_move_neighbours|].
  intros [[[pp p] n] nn] _.
  eapply (edits_bind _ (λ _, True)).
  { case_decide; [unfold move_up|unfold move_down]; edits_tac. }
  intros [] _; [|edits_tac].
  apply edits_aside, aside_move_swap_aux_ports.
Qed.

Lemma edits_run_operation s0 o : edits s0 (λ _, True) (run_operation o).
Proof.
  destruct o; cbn [run_operation].
  - apply edits_add_plugin.
  - eapply (edits_bind _ (λ _, True)); [apply edits_remove_plugin|].
    intros _ _. by apply edits_ret.
  - apply edits_move_plugin.
  - eapply (edits_bind _ (λ _, True)); [apply edits_change_plugin|].
    intros _ _. by apply edits_ret.
Qed.

Lemma edits_only_trans s1 s2 s3 :
  edits_only s1 s2 → edits_only s2 s3 → edits_only s1 s3.
Proof. unfold edits_only. intros (?&?&?&?) (?&?&?&?). repeat split; congruence. Qed.

Lemma run_operation_edits_only o s r s' :
  run_operation o s = Some (r, s') → edits_only s s'.
Proof.
  intros Hrun.
  pose proof (edits_run_operation s o s (edits_only_refl s)) as H.
  unfold wp in H. rewrite Hrun in H. apply H.
Qed.

(* ===================================================================== *)
(** ** The plugins an edit of the chain does not reach *)
(* ===================================================================== *)

Ltac frame_tac :=
  let r := fresh "r" in let Hr := fresh "Hr" in
  intros r Hr; nd_rw_in Hr; nodup_hyps; snorm;
  rewrite ?lookup_insert_ne by congruence; reflexivity.

Lemma move_up_frame s l0 q p l3 :
  chain_ok s (l0 ++ q :: p :: l3) →
  ∃ s1,
    move_up p (last_or l0 None) (Some q) (hd_or l3 None) s = Some (true, s1)
    ∧ ∀ r, r ∉ l0 ++ q :: p :: l3 → plugins s1 !! r = plugins s !! r.
Proof.
  intros (Hnd & Hh & Ht & Hs).
  apply dseg_app in Hs as [Hs1 Hs2].
  apply dseg_cons in Hs2 as [(y & Hy & Hpy & Hny) Hs2].
  apply dseg_cons in Hs2 as [(x & Hx & Hpx & Hnx) Hs2].
  unfold move_up.
  destruct l0 as [|a l0 _] using rev_ind; destruct l3 as [|c l3].
  - nodup_hyps. cbn in *. run. eexists. split; [reflexivity|]. frame_tac.
  - apply dseg_cons in Hs2 as [(z & Hz & Hpz & Hnz) Hs2].
    nodup_hyps. revert Hh Ht. list_rw. intros Hh Ht. cbn in Hpx, Hnx, Hpy, Hny.
    run. eexists. split; [reflexivity|]. frame_tac.
  - rewrite last_or_snoc in Hpy |- *.
    apply dseg_snoc in Hs1 as (Hs1 & w & Hw & Hpw & Hnw).
    nodup_hyps. revert Hh Ht. list_rw. intros Hh Ht. cbn in Hpx, Hnx, Hpy, Hny.
    run. eexists. split; [reflexivity|]. frame_tac.
  - rewrite last_or_snoc in Hpy |- *.
    apply dseg_snoc in Hs1 as (Hs1 & w & Hw & Hpw & Hnw).
    apply dseg_cons in Hs2 as [(z & Hz & Hpz & Hnz) Hs2].
    nodup_hyps. revert Hh Ht. list_rw. intros Hh Ht. cbn in Hpx, Hnx, Hpy, Hny.
    run. eexists. split; [reflexivity|]. frame_tac.
Qed.

Lemma move_down_frame s l0 p n l3 :
  chain_ok s (l0 ++ p :: n :: l3) →
  ∃ s1,
    move_down p (last_or l0 None) (Some n) (hd_or l3 None) s = Some (true, s1)
    ∧ ∀ r, r ∉ l0 ++ p :: n :: l3 → plugins s1 !! r = plugins s !! r.
Proof.
  intros (Hnd & Hh & Ht & Hs).
  apply dseg_app in Hs as [Hs1 Hs2].
  apply dseg_cons in Hs2 as [(x & Hx & Hpx & Hnx) Hs2].
  apply dseg_cons in Hs2 as [(y & Hy & Hpy & Hny) Hs2].
  unfold move_down.
  destruct l0 as [|a l0 _] using rev_ind; destruct l3 as [|c l3].
  - nodup_hyps. cbn in *. run. eexists. split; [reflexivity|]. frame_tac.
  - apply dseg_cons in Hs2 as [(z & Hz & Hpz & Hnz) Hs2].
    nodup_hyps. revert Hh Ht. list_rw. intros Hh Ht. cbn in Hpx, Hnx, Hpy, Hny.
    run. eexists. split; [reflexivity|]. frame_tac.
  - rewrite last_or_snoc in Hpx |- *.
    apply dseg_snoc in Hs1 as (Hs1 & w & Hw & Hpw & Hnw).
    nodup_hyps. revert Hh Ht. list_rw. intros Hh Ht. cbn in Hpx, Hnx, Hpy, Hny.
    run. eexists. split; [reflexivity|]. frame_tac.
  - rewrite last_or_snoc in Hpx |- *.
    apply dseg_snoc in Hs1 as (Hs1 & w & Hw & Hpw & Hnw).
    apply dseg_cons in Hs2 as [(z & Hz & Hpz & Hnz) Hs2].
    nodup_hyps. revert Hh Ht. list_rw. intros Hh Ht. cbn in Hpx, Hnx, Hpy, Hny.
    run. eexists. split; [reflexivity|]. frame_tac.
Qed.

(* --------------------------------------------------------------------- *)
(** *** A plugin is its core, its links and its auxiliary ports *)

Lemma holders_ext (a : list vst2_holder_t) : ∀ b,
  set_aux_ports None <$> a = set_aux_ports None <$> b →
  aux_ports <$> a = aux_ports <$> b → a = b.
Proof.
  induction a as [|h a IH]; intros [|h' b]; cbn; try done.
  intros [= E1 E2] [= E3 E4]. f_equal; [|by apply IH].
  destruct h, h'. unfold set_aux_ports in E1. cbn in *. congruence.
Qed.

Lemma plugin_ext x y :
  core x = core y → prev x = prev y → next x = next y →
  aux_ports <$> holders x = aux_ports <$> holders y → x = y.
Proof.
  destruct x, y.
  unfold core, erase_aux, erase_links, set_holders, set_prev, set_next.
  cbn. intros E -> -> Ha.
  injection E as -> -> -> Hh -> -> -> ->. f_equal. by apply holders_ext.
Qed.

Lemma plugins_ext (m m' : gmap ptr vst2_plugin_t) :
  core <$> m' = core <$> m →
  (∀ r, prev <$> m' !! r = prev <$> m !! r) →
  (∀ r, next <$> m' !! r = next <$> m !! r) →
  (∀ r, aux_of m' r = aux_of m r) →
  m' = m.
Proof.
  intros Hc Hp Hn Ha. apply map_eq. intros r.
  pose proof (f_equal (.!! r) Hc) as Hcr. cbn in Hcr.
  rewrite !lookup_fmap in Hcr.
  specialize (Hp r). specialize (Hn r). specialize (Ha r).
  unfold aux_of in Ha.
  destruct (m' !! r) as [x'|], (m !! r) as [x|]; cbn in *; try done.
  f_equal. apply plugin_ext; congruence.
Qed.

Lemma state_ext s s' :
  procinfo s' = procinfo s → blocks s' = blocks s → trace s' = trace s →
  plugins s' = plugins s → s' = s.
Proof. destruct s, s'. cbn. congruence. Qed.

Lemma procinfo_ext (a b : vst2_process_info_t) :
  chain a = chain b → chain_end a = chain_end b →
  jack_client a = jack_client b → a = b.
Proof. destruct a, b. cbn. congruence. Qed.

(** The links of the plugins of a chain are determined by the chain. *)
Lemma chain_ok_same_links s s' l r :
  chain_ok s l → chain_ok s' l → r ∈ l →
  prev_of s' r = prev_of s r ∧ next_of s' r = next_of s r.
Proof.
  intros (_ & _ & _ & Hs) (_ & _ & _ & Hs') Hr.
  apply list_elem_of_lookup in Hr as [i Hi]. unfold prev_of, next_of.
  rewrite (dseg_prev _ _ _ _ _ _ Hs Hi), (dseg_prev _ _ _ _ _ _ Hs' Hi).
  by rewrite (dseg_next _ _ _ _ _ _ Hs Hi), (dseg_next _ _ _ _ _ _ Hs' Hi).
Qed.

(* --------------------------------------------------------------------- *)
(** *** The links outside the chain *)

Lemma move_plugin_up_frame s l0 q p l3 up s' :
  up ≠ 0 → chain_ok s (l0 ++ q :: p :: l3) →
  vst2_process_move_plugin p up s = Some ((), s') →
  ∀ r, r ∉ l0 ++ q :: p :: l3 →
    prev_of s' r = prev_of s r ∧ next_of s' r = next_of s r.
Proof.
  intros Hup Hok Hrun r Hr.
  assert (chain_ok s ((l0 ++ [q]) ++ p :: l3)) as Hok'
    by (by rewrite <-app_assoc).
  destruct (move_neighbours_run _ _ _ _ Hok') as (x & Hx & Hpx & Hnx & Hnb).
  rewrite removelast_last, last_or_snoc in Hnb.
  destruct (move_up_frame _ _ _ _ _ Hok) as (s1 & Hmu & Hfr).
  unfold vst2_process_move_plugin in Hrun.
  rewrite bind_run, Hnb, decide_True, bind_run, Hmu in Hrun by done.
  pose proof (preserves_run _ _ _ _ _
                (ports_aside_move_swap_aux_ports p up) Hrun)
    as (_ & _ & _ & Hsb).
  destruct (same_but_aux_links _ _ r Hsb) as [E1 E2].
  unfold prev_of, next_of. by rewrite E1, E2, Hfr.
Qed.

Lemma move_plugin_down_frame s l0 p n l3 s' :
  chain_ok s (l0 ++ p :: n :: l3) →
  vst2_process_move_plugin p 0 s = Some ((), s') →
  ∀ r, r ∉ l0 ++ p :: n :: l3 →
    prev_of s' r = prev_of s r ∧ next_of s' r = next_of s r.
Proof.
  intros Hok Hrun r Hr.
  destruct (move_neighbours_run _ _ _ _ Hok) as (x & Hx & Hpx & Hnx & Hnb).
  cbn [hd_or tail] in Hnb.
  destruct (move_down_frame _ _ _ _ _ Hok) as (s1 & Hmd & Hfr).
  unfold vst2_process_move_plugin in Hrun.
  rewrite bind_run, Hnb, decide_False, bind_run, Hmd in Hrun by tauto.
  pose proof (preserves_run _ _ _ _ _
                (ports_aside_move_swap_aux_ports p 0) Hrun)
    as (_ & _ & _ & Hsb).
  destruct (same_but_aux_links _ _ r Hsb) as [E1 E2].
  unfold prev_of, next_of. by rewrite E1, E2, Hfr.
Qed.

Lemma remove_plugin_frame s l1 p l2 s' :
  chain_ok s (l1 ++ p :: l2) →
  vst2_process_remove_plugin p s = Some (p, s') →
  ∀ r, r ∉ l1 ++ l2 →
    prev_of s' r = prev_of s r ∧ next_of s' r = next_of s r.
Proof.
  intros Hok Hrun r Hr.
  destruct (remove_chain_pointers_run _ _ _ _ Hok)
    as (x & s1 & _ & _ & _ & Hrc & _ & _ & _ & _ & _ & _ & Hfr).
  unfold vst2_process_remove_plugin in Hrun.
  rewrite bind_run, Hrc, bind_run in Hrun.
  destruct (sort_out_aux_ports p s1) as [[[] s'']|] eqn:Hso; [|done].
  injection Hrun as <-.
  pose proof (preserves_run _ _ _ _ _
                (ports_aside_sort_out_aux_ports p) Hso)
    as (_ & _ & _ & Hsb).
  destruct (same_but_aux_links _ _ r Hsb) as [E1 E2].
  unfold prev_of, next_of. rewrite E1, E2, Hfr; [done| |].
  - intros Hl. symmetry in Hl. apply last_Some_elem_of in Hl.
    apply Hr, elem_of_app. by left.
  - intros Hl. symmetry in Hl. apply head_Some_elem_of in Hl.
    apply Hr, elem_of_app. by right.
Qed.

(* ===================================================================== *)
(** ** Further properties of the edits of the chain *)
(* ===================================================================== *)

Lemma edits_run {A} s (m : M A) a s' :
  edits s (λ _, True) m → m s = Some (a, s') → edits_only s s'.
Proof.
  intros Hm E. specialize (Hm s (edits_only_refl s)).
  unfold wp in Hm. rewrite E in Hm. apply Hm.
Qed.

(** Two states with the same chain that differ at most in links and
    auxiliary ports, and differ in none of these, are one state. *)
Lemma state_restored s s2 l :
  chain_ok s l → chain_ok s2 l → edits_only s s2 →
  (∀ r, r ∉ l → prev_of s2 r = prev_of s r ∧ next_of s2 r = next_of s r) →
  (∀ r, aux_of (plugins s2) r = aux_of (plugins s) r) →
  s2 = s.
Proof.
  intros Hok Hok2 (Hj & Hb & Ht & Hc) Hfr Ha.
  assert (∀ r, prev_of s2 r = prev_of s r ∧ next_of s2 r = next_of s r)
    as Hl.
  { intros r. destruct (decide (r ∈ l)); [|by apply Hfr].
    by apply (chain_ok_same_links _ _ l). }
  apply state_ext; try done.
  - destruct Hok as (_ & Hh & He & _), Hok2 as (_ & Hh2 & He2 & _).
    apply procinfo_ext; congruence.
  - apply plugins_ext; try done; intros r; apply Hl.
Qed.

Lemma same_shape_desc m m' p x x' :
  same_shape m m' → m !! p = Some x → m' !! p = Some x' → desc x' = desc x.
Proof.
  intros Hsh Hx Hx'.
  destruct (same_shape_lookup _ _ _ _ Hsh Hx) as (x'' & Hx'' & [= E _ _]).
  congruence.
Qed.

(** Two exchanges of the ports of the same two plugins undo each other. *)
Lemma ports_exchanged_twice b m m1 m2 p q :
  ports_exchanged b m m1 p q → ports_exchanged b m1 m2 p q →
  ∀ r, aux_of m2 r = aux_of m r.
Proof.
  unfold ports_exchanged. destruct b.
  - intros (H1 & H2 & H3) (H1' & H2' & H3') r.
    destruct (decide (r = p)) as [->|]; [congruence|].
    destruct (decide (r = q)) as [->|]; [congruence|].
    rewrite H3', H3; done.
  - intros H H' r. by rewrite H', H.
Qed.

(** X5.  Move up and move down undo each other: moving a plugin that has a
    predecessor up and then down again, or a plugin that has a successor
    down and then up again, returns both times and ends in the very state it
    started from, the auxiliary ports included; in between, the plugin and
    its neighbour have changed places in a consistent chain and every other
    plugin has kept its place. *)
Theorem move_up_and_down_are_inverse s l0 a b l3 up :
  up ≠ 0 → chain_ok s (l0 ++ a :: b :: l3) → aux_ready s →
  (∃ s1, vst2_process_move_plugin b up s = Some ((), s1)
         ∧ consistent s1 (l0 ++ b :: a :: l3)
         ∧ vst2_process_move_plugin b 0 s1 = Some ((), s))
  ∧ (∃ s1, vst2_process_move_plugin a 0 s = Some ((), s1)
           ∧ consistent s1 (l0 ++ b :: a :: l3)
           ∧ vst2_process_move_plugin a up s1 = Some ((), s)).
Proof.
  intros Hup Hok Hready.
  assert (∀ r, r ∉ l0 ++ a :: b :: l3 → r ∉ l0 ++ b :: a :: l3) as Hperm.
  { intros r. nd_rw. tauto. }
  split.
  - destruct (move_plugin_up_run _ _ _ _ _ _ Hup Hok Hready)
      as (x & y & s1 & Hx & Hy & Hrun1 & Hok1 & Hready1 & Hj1 & Hb1 & Ht1
          & Hsh1 & Hports1).
    destruct (move_plugin_down_run _ _ _ _ _ 0 eq_refl Hok1 Hready1)
      as (x1 & y1 & s2 & Hx1 & Hy1 & Hrun2 & Hok2 & _ & Hj2 & Hb2 & Ht2
          & Hsh2 & Hports2).
    exists s1. split; [done|]. split; [by apply chain_ok_consistent|].
    rewrite Hrun2. do 2 f_equal.
    apply (state_restored s s2 _ Hok Hok2).
    + eapply edits_only_trans; eapply edits_run;
        [apply edits_move_plugin|exact Hrun1
        |apply edits_move_plugin|exact Hrun2].
    + intros r Hr.
      destruct (move_plugin_up_frame _ _ _ _ _ _ _ Hup Hok Hrun1 r Hr)
        as [E1 E2].
      destruct (move_plugin_down_frame _ _ _ _ _ _ Hok1 Hrun2 r (Hperm r Hr))
        as [E3 E4].
      split; congruence.
    + rewrite Hj1 in Hports2.
      rewrite (same_shape_desc _ _ _ _ _ Hsh1 Hx Hx1) in Hports2.
      rewrite (same_shape_desc _ _ _ _ _ Hsh1 Hy Hy1) in Hports2.
      by eapply ports_exchanged_twice.
  - destruct (move_plugin_down_run _ _ _ _ _ 0 eq_refl Hok Hready)
      as (x & y & s1 & Hx & Hy & Hrun1 & Hok1 & Hready1 & Hj1 & Hb1 & Ht1
          & Hsh1 & Hports1).
    destruct (move_plugin_up_run _ _ _ _ _ _ Hup Hok1 Hready1)
      as (x1 & y1 & s2 & Hx1 & Hy1 & Hrun2 & Hok2 & _ & Hj2 & Hb2 & Ht2
          & Hsh2 & Hports2).
    exists s1. split; [done|]. split; [by apply chain_ok_consistent|].
    rewrite Hrun2. do 2 f_equal.
    apply (state_restored s s2 _ Hok Hok2).
    + eapply edits_only_trans; eapply edits_run;
        [apply edits_move_plugin|exact Hrun1
        |apply edits_move_plugin|exact Hrun2].
    + intros r Hr.
      destruct (move_plugin_down_frame _ _ _ _ _ _ Hok Hrun1 r Hr)
        as [E1 E2].
      destruct (move_plugin_up_frame _ _ _ _ _ _ _ Hup Hok1 Hrun2 r
                  (Hperm r Hr)) as [E3 E4].
      split; congruence.
    + rewrite Hj1 in Hports2.
      rewrite (same_shape_desc _ _ _ _ _ Hsh1 Hx Hx1) in Hports2.
      rewrite (same_shape_desc _ _ _ _ _ Hsh1 Hy Hy1) in Hports2.
      by eapply ports_exchanged_twice.
Qed.

Lemma move_up_and_down_are_inverse_witness :
  (∃ s1, vst2_process_move_plugin 2%positive 1 rack3 = Some ((), s1)
         ∧ consistent s1 ([] ++ 2%positive :: 1%positive :: [3%positive])
         ∧ vst2_process_move_plugin 2%positive 0 s1 = Some ((), rack3))
  ∧ (∃ s1, vst2_process_move_plugin 1%positive 0 rack3 = Some ((), s1)
           ∧ consistent s1 ([] ++ 2%positive :: 1%positive :: [3%positive])
           ∧ vst2_process_move_plugin 1%positive 1 s1 = Some ((), rack3)).
Proof.
  apply (move_up_and_down_are_inverse rack3 [] 1%positive 2%positive
           [3%positive] 1).
  - lia.
  - by apply chain_okb_correct.
  - refine (bool_decide_unpack _ _). vm_compute. exact I.
Defined.

Lemma edits_only_sym s s' : edits_only s s' → edits_only s' s.
Proof. unfold edits_only. intros (?&?&?&?). repeat split; congruence. Qed.

(** X6.  Append and remove undo each other: appending a plugin that is not
    in the chain and removing it again returns both times and leaves the
    process info, the auxiliary ports and every other plugin exactly as they
    were; the plugin itself is as before but for its links, which are those
    of a tail: [prev] the tail of the chain, [next] NULL. *)
Theorem add_then_remove_restores s l p x :
  chain_ok s l → aux_ready s → p ∉ l → plugins s !! p = Some x →
  ∃ s1,
    vst2_process_add_plugin p s = Some ((), s1)
    ∧ consistent s1 (l ++ [p])
    ∧ vst2_process_remove_plugin p s1
      = Some (p, with_plugins
                   (<[p := set_prev (last l) (set_next None x)]> (plugins s))
                   s).
Proof.
  intros Hok Hready Hp Hx.
  destruct (add_plugin_run _ _ _ _ Hok Hp Hx)
    as (s1 & Hrun1 & Hok1 & Hj1 & Hb1 & Ht1 & Hlinks1 & Hp1 & _ & Hfr1).
  assert (aux_ready s1) as Hready1.
  { eapply aux_ready_same_shape; [done| |done].
    by apply same_shape_sym, same_but_links_shape. }
  destruct (remove_plugin_run s1 l p [] Hok1 Hready1)
    as (x1 & s2 & Hx1 & Hrun2 & Hok2 & _ & Hj2 & Hb2 & Ht2 & Hsh2 & Hpp & Hnp
        & Hports2).
  rewrite app_nil_r in Hok2.
  exists s1. split; [done|]. split; [by apply chain_ok_consistent|].
  rewrite Hrun2. do 2 f_equal.
  set (t := with_plugins
              (<[p := set_prev (last l) (set_next None x)]> (plugins s)) s).
  assert (chain_ok t l) as Hokt.
  { destruct Hok as (Hnd & Hh & He & Hs). repeat split; try done.
    eapply dseg_frame; [|exact Hs]. intros q Hq. subst t. snorm.
    rewrite lookup_insert_ne; [done|]. by intros ->. }
  assert (edits_only s t) as Hst.
  { repeat split. subst t. snorm. by apply core_insert with x. }
  apply (state_restored t s2 l Hokt Hok2).
  - eapply edits_only_trans; [apply edits_only_sym, Hst|].
    eapply edits_only_trans; eapply edits_run;
      [apply edits_add_plugin|exact Hrun1
      |apply edits_remove_plugin|exact Hrun2].
  - intros r Hr. rewrite <-(app_nil_r l) in Hr.
    destruct (decide (r = p)) as [->|Hne].
    + rewrite Hpp, Hnp. unfold prev_of, next_of. subst t. snorm.
      by rewrite Hp1, lookup_insert_eq.
    + destruct (remove_plugin_frame _ _ _ _ _ Hok1 Hrun2 r Hr) as [-> ->].
      unfold prev_of, next_of. subst t. snorm.
      rewrite lookup_insert_ne by done. rewrite Hfr1; [done|done|].
      intros Hl. symmetry in Hl. apply last_Some_elem_of in Hl.
      rewrite app_nil_r in Hr. done.
  - intros r. transitivity (aux_of (plugins s1) r).
    + unfold ports_handed_down in Hports2. cbn [filter app] in Hports2.
      destruct (bool_decide _); [|done].
      destruct Hports2 as [[= E] Hq].
      destruct (decide (r = p)) as [->|]; [done|].
      apply Hq; [done|]. apply not_elem_of_nil.
    + rewrite (aux_of_same_but_links _ _ r Hlinks1). subst t. snorm.
      unfold aux_of. destruct (decide (r = p)) as [->|].
      * by rewrite lookup_insert_eq, Hx.
      * by rewrite lookup_insert_ne.
Qed.

Lemma add_then_remove_restores_witness :
  ∃ s1,
    vst2_process_add_plugin 4%positive rack3 = Some ((), s1)
    ∧ consistent s1 ([1; 2; 3]%positive ++ [4%positive])
    ∧ vst2_process_remove_plugin 4%positive s1
      = Some (4%positive,
              with_plugins
                (<[4%positive :=
                     set_prev (last [1; 2; 3]%positive)
                       (set_next None (demo_plugin 40%positive None None))]>
                   (plugins rack3)) rack3).
Proof.
  apply (add_then_remove_restores rack3 [1; 2; 3]%positive 4%positive
           (demo_plugin 40%positive None None)).
  - by apply chain_okb_correct.
  - refine (bool_decide_unpack _ _). vm_compute. exact I.
  - refine (bool_decide_unpack _ _). vm_compute. exact I.
  - reflexivity.
Defined.

(** X3.  Remove takes the plugin out of the chain and nothing else: for a
    chain [l1 ++ p :: l2] the call returns [p] and leaves the consistent
    chain [l1 ++ l2], which both traversals visit in this order and its
    reverse; [p] is no longer linked, and every other plugin is in the chain
    if and only if it was. *)
Theorem remove_plugin_unlinks s l1 p l2 :
  chain_ok s (l1 ++ p :: l2) → aux_ready s →
  ∃ s',
    vst2_process_remove_plugin p s = Some (p, s')
    ∧ consistent s' (l1 ++ l2)
    ∧ ¬ linked s' p
    ∧ (∀ q, q ≠ p → linked s' q ↔ linked s q).
Proof.
  intros Hok Hready.
  destruct (remove_plugin_run _ _ _ _ Hok Hready)
    as (x & s' & _ & Hrun & Hok' & _).
  exists s'. split; [done|]. split; [by apply chain_ok_consistent|].
  destruct Hok as (Hnd & Hrest).
  assert (chain_ok s (l1 ++ p :: l2)) as Hok by done.
  split.
  - rewrite (chain_ok_linked _ _ _ Hok'). nodup_hyps.
    rewrite elem_of_app. tauto.
  - intros q Hq.
    rewrite (chain_ok_linked _ _ _ Hok'), (chain_ok_linked _ _ _ Hok).
    rewrite !elem_of_app, elem_of_cons. tauto.
Qed.

Lemma remove_plugin_unlinks_witness :
  ∃ s',
    vst2_process_remove_plugin 2%positive rack3 = Some (2%positive, s')
    ∧ consistent s' ([1%positive] ++ [3%positive])
    ∧ ¬ linked s' 2%positive
    ∧ (∀ q, q ≠ 2%positive → linked s' q ↔ linked rack3 q).
Proof.
  apply (remove_plugin_unlinks rack3 [1%positive] 2%positive [3%positive]).
  - by apply chain_okb_correct.
  - refine (bool_decide_unpack _ _). vm_compute. exact I.
Defined.

(** X7.  An edit of the chain changes nothing but links and auxiliary
    ports: whatever the state, after any sequence of appends, removes, moves
    and replaces that returns, the JACK client, the live allocations and the
    calls made so far are what they were, and the plugins in memory are the
    same plugins, each with every field and every field of its holders
    unchanged, apart from [next], [prev] and [aux_ports]. *)
Theorem operations_edit_links_and_ports_only ops : ∀ s s',
  run_operations ops s = Some s' →
  jack_client (procinfo s') = jack_client (procinfo s)
  ∧ blocks s' = blocks s ∧ trace s' = trace s
  ∧ core <$> plugins s' = core <$> plugins s.
Proof.
  induction ops as [|o ops IH]; intros s s' Hrun; cbn in Hrun.
  - by injection Hrun as <-.
  - destruct (run_operation o s) as [[[] s1]|] eqn:Ho; [|done].
    apply (edits_only_trans s s1 s'); [|by apply IH].
    eapply edits_run; [apply edits_run_operation|exact Ho].
Qed.

Lemma operations_edit_links_and_ports_only_witness :
  jack_client (procinfo demo_edited) = jack_client (procinfo pool4)
  ∧ blocks demo_edited = blocks pool4 ∧ trace demo_edited = trace pool4
  ∧ core <$> plugins demo_edited = core <$> plugins pool4.
Proof.
  apply (operations_edit_links_and_ports_only demo_operations pool4
           demo_edited).
  vm_compute. reflexivity.
Defined.

(* --------------------------------------------------------------------- *)
(** *** The auxiliary ports under the edits *)

(** X9.  Without a JACK client, or for a plugin whose descriptor declares no
    auxiliary channels, remove, move and replace leave the auxiliary ports
    of every plugin as they were. *)
Theorem ports_untouched_without_aux s l1 p l2 x :
  chain_ok s (l1 ++ p :: l2) → aux_ready s → plugins s !! p = Some x →
  jack_client (procinfo s) = None ∨ desc_aux_channels (desc x) = 0%N →
  (∃ s', vst2_process_remove_plugin p s = Some (p, s')
         ∧ ∀ r, aux_of (plugins s') r = aux_of (plugins s) r)
  ∧ (∀ up, ∃ s', vst2_process_move_plugin p up s = Some ((), s')
                 ∧ ∀ r, aux_of (plugins s') r = aux_of (plugins s) r)
  ∧ (∀ d, d ∉ l1 ++ p :: l2 → is_Some (plugins s !! d) →
       ∃ s', vst2_process_change_plugin p d s = Some (p, s')
             ∧ ∀ r, aux_of (plugins s') r = aux_of (plugins s) r).
Proof.
  intros Hok Hready Hx Hno.
  assert (¬ (is_Some (jack_client (procinfo s))
             ∧ (0 < desc_aux_channels (desc x))%N)) as Hc.
  { intros [[j Hj] Ha]. destruct Hno as [E|E]; [congruence|lia]. }
  split; [|split].
  - destruct (remove_plugin_run _ _ _ _ Hok Hready)
      as (x' & s' & Hx' & Hrun & _ & _ & _ & _ & _ & _ & _ & _ & Hports).
    assert (x' = x) as -> by congruence.
    rewrite bool_decide_eq_false_2 in Hports by done. by exists s'.
  - intros up. destruct (decide (up ≠ 0)) as [Hup|Hup].
    + destruct l1 as [|q l0 _] using rev_ind.
      * exists s. split; [|done].
        apply (move_plugin_boundary_run s [] p l2 up Hok).
        by rewrite decide_True.
      * rewrite <-app_assoc in Hok. cbn [app] in Hok.
        destruct (move_plugin_up_run _ _ _ _ _ _ Hup Hok Hready)
          as (x' & y & s' & Hx' & _ & Hrun & _ & _ & _ & _ & _ & _ & Hports).
        assert (x' = x) as -> by congruence.
        rewrite bool_decide_eq_false_2 in Hports by tauto. by exists s'.
    + assert (up = 0) as Hup0 by lia. destruct l2 as [|n l3].
      * exists s. split; [|done].
        apply (move_plugin_boundary_run s l1 p [] up Hok).
        by rewrite decide_False.
      * destruct (move_plugin_down_run _ _ _ _ _ _ Hup0 Hok Hready)
          as (x' & y & s' & Hx' & _ & Hrun & _ & _ & _ & _ & _ & _ & Hports).
        assert (x' = x) as -> by congruence.
        rewrite bool_decide_eq_false_2 in Hports by tauto. by exists s'.
  - intros d Hd Hxd.
    destruct (change_plugin_run _ _ _ _ _ Hok Hready Hd Hxd)
      as (x' & s' & Hx' & Hrun & _ & _ & _ & _ & _ & _ & _ & _ & Hports).
    assert (x' = x) as -> by congruence.
    rewrite bool_decide_eq_false_2 in Hports by done. by exists s'.
Qed.

Lemma ports_untouched_without_aux_witness :
  (∃ s', vst2_process_remove_plugin 2%positive quiet3 = Some (2%positive, s')
         ∧ ∀ r, aux_of (plugins s') r = aux_of (plugins quiet3) r)
  ∧ (∀ up, ∃ s', vst2_process_move_plugin 2%positive up quiet3 = Some ((), s')
                 ∧ ∀ r, aux_of (plugins s') r = aux_of (plugins quiet3) r)
  ∧ (∀ d, d ∉ [1%positive] ++ 2%positive :: [3%positive] →
       is_Some (plugins quiet3 !! d) →
       ∃ s', vst2_process_change_plugin 2%positive d quiet3
             = Some (2%positive, s')
             ∧ ∀ r, aux_of (plugins s') r = aux_of (plugins quiet3) r).
Proof.
  apply (ports_untouched_without_aux quiet3 [1%positive] 2%positive
           [3%positive]
           (demo_plugin 20%positive (Some 1%positive) (Some 3%positive))).
  - by apply chain_okb_correct.
  - refine (bool_decide_unpack _ _). vm_compute. exact I.
  - reflexivity.
  - left. reflexivity.
Defined.

(** X10.  Replace hands the auxiliary ports of the replaced plugin down the
    chain and gives none to the replacement: with a JACK client and a
    descriptor that declares auxiliary channels, the plugins [F] of the
    descriptor id of the replaced plugin [p] that follow it each take over
    the ports of the one before, the first those of [p], and [p] is left
    with the ports of the last; the new plugin keeps the ports it came
    with, and so does every other plugin. *)
Theorem change_hands_ports_down s l1 p l2 d x :
  chain_ok s (l1 ++ p :: l2) → aux_ready s →
  d ∉ l1 ++ p :: l2 → is_Some (plugins s !! d) →
  plugins s !! p = Some x →
  is_Some (jack_client (procinfo s)) →
  (0 < desc_aux_channels (desc x))%N →
  ∃ s',
    vst2_process_change_plugin p d s = Some (p, s')
    ∧ let F := filter (has_id (plugins s) (desc_id (desc x))) l2 in
      aux_of (plugins s') <$> (F ++ [p]) = aux_of (plugins s) <$> (p :: F)
      ∧ aux_of (plugins s') d = aux_of (plugins s) d
      ∧ (∀ q, q ≠ p → q ∉ F →
           aux_of (plugins s') q = aux_of (plugins s) q).
Proof.
  intros Hok Hready Hd Hxd Hx Hj Ha.
  destruct (change_plugin_run _ _ _ _ _ Hok Hready Hd Hxd)
    as (x' & s' & Hx' & Hrun & _ & _ & _ & _ & _ & _ & _ & _ & Hports).
  assert (x' = x) as -> by congruence.
  rewrite bool_decide_eq_true_2 in Hports by done.
  destruct Hports as [Hrot Hfr].
  exists s'. split; [done|]. cbn zeta. split; [done|]. split; [|done].
  nd_rw_in Hd. destruct Hd as (_ & Hdp & Hd2).
  apply Hfr; [done|]. rewrite list_elem_of_filter. tauto.
Qed.

Lemma change_hands_ports_down_witness :
  ∃ s',
    vst2_process_change_plugin 1%positive 4%positive rack3
    = Some (1%positive, s')
    ∧ let F := filter (has_id (plugins rack3) 7) [2; 3]%positive in
      aux_of (plugins s') <$> (F ++ [1%positive])
      = aux_of (plugins rack3) <$> (1%positive :: F)
      ∧ aux_of (plugins s') 4%positive = aux_of (plugins rack3) 4%positive
      ∧ (∀ q, q ≠ 1%positive → q ∉ F →
           aux_of (plugins s') q = aux_of (plugins rack3) q).
Proof.
  apply (change_hands_ports_down rack3 [] 1%positive [2; 3]%positive
           4%positive (demo_plugin 10%positive None (Some 2%positive))).
  - by apply chain_okb_correct.
  - refine (bool_decide_unpack _ _). vm_compute. exact I.
  - refine (bool_decide_unpack _ _). vm_compute. exact I.
  - by eexists.
  - reflexivity.
  - by eexists.
  - reflexivity.
Defined.

(* --------------------------------------------------------------------- *)
(** *** The auxiliary ports are conserved *)

Lemma perm_of_eq {A} (l k : list A) : l = k → l ≡ₚ k.
Proof. by intros ->. Qed.

(** Values handed round a cycle of addresses are rearranged. *)
Lemma rotation_permutation {B} (g g' : ptr → B) (F : list ptr) p K :
  NoDup (F ++ [p]) → NoDup K → (∀ q, q ∈ F ++ [p] → q ∈ K) →
  g' <$> (F ++ [p]) = g <$> (p :: F) →
  (∀ q, q ≠ p → q ∉ F → g' q = g q) →
  g' <$> K ≡ₚ g <$> K.
Proof.
  intros HndA HndK Hsub Hrot Hfr.
  assert (K ≡ₚ (F ++ [p]) ++ filter (λ q, q ∉ F ++ [p]) K) as HK.
  { apply NoDup_Permutation; [done| |].
    - apply NoDup_app. split; [done|]. split; [|by apply NoDup_filter].
      intros q Hq. rewrite list_elem_of_filter. tauto.
    - intros q. rewrite elem_of_app, list_elem_of_filter.
      destruct (decide (q ∈ F ++ [p])); [|tauto].
      split; [tauto|]. intros _. by apply Hsub. }
  rewrite HK, (fmap_app g'), (fmap_app g), Hrot.
  apply Permutation_app.
  - apply fmap_Permutation, Permutation_cons_append.
  - apply perm_of_eq, list_fmap_ext. intros i q Hq.
    apply list_elem_of_lookup_2, list_elem_of_filter in Hq as [Hq _].
    rewrite elem_of_app, list_elem_of_singleton in Hq. apply Hfr; tauto.
Qed.

Lemma ports_handed_down_permutation jack m m' p F K :
  ports_handed_down jack m m' p F →
  NoDup (F ++ [p]) → NoDup K → (∀ q, q ∈ F ++ [p] → q ∈ K) →
  aux_of m' <$> K ≡ₚ aux_of m <$> K.
Proof.
  unfold ports_handed_down. destruct jack.
  - intros [Hrot Hfr] HndA HndK Hsub. by apply (rotation_permutation _ _ F p).
  - intros H _ _ _. apply perm_of_eq, list_fmap_ext. intros ? q _. apply H.
Qed.

Lemma ports_exchanged_permutation b m m' p q K :
  ports_exchanged b m m' p q →
  p ≠ q → NoDup K → p ∈ K → q ∈ K →
  aux_of m' <$> K ≡ₚ aux_of m <$> K.
Proof.
  unfold ports_exchanged. destruct b.
  - intros (H1 & H2 & H3) Hne HndK Hp Hq.
    apply (rotation_permutation _ _ [q] p); try done.
    + cbn. nodup_goal.
    + intros r. rewrite elem_of_app, !list_elem_of_singleton.
      by intros [->| ->].
    + cbn. by rewrite H1, H2.
    + intros r Hr1 Hr2. apply H3; [done|].
      by rewrite list_elem_of_singleton in Hr2.
  - intros H _ _ _ _. apply perm_of_eq, list_fmap_ext. intros ? r _. apply H.
Qed.

Lemma NoDup_filter_snoc (P : ptr → Prop) `{∀ q, Decision (P q)} l p :
  NoDup l → p ∉ l → NoDup (filter P l ++ [p]).
Proof.
  intros Hnd Hp. apply NoDup_app. split; [by apply NoDup_filter|].
  split; [|apply NoDup_singleton].
  intros q Hq. rewrite list_elem_of_singleton. intros ->.
  apply list_elem_of_filter in Hq. tauto.
Qed.

(** An operation applied within its precondition rearranges the auxiliary
    ports among the plugins of the chain. *)
Lemma run_operation_conserves_ports s l o :
  chain_ok s l → aux_ready s → precondition s o →
  ∃ s' l',
    run_operation o s = Some ((), s') ∧ chain_ok s' l' ∧ aux_ready s'
    ∧ same_shape (plugins s) (plugins s')
    ∧ ∀ K, NoDup K → (∀ q, q ∈ l → q ∈ K) →
        aux_of (plugins s') <$> K ≡ₚ aux_of (plugins s) <$> K.
Proof.
  intros Hok Hready Hpre. destruct o as [p|p|p up|p d]; cbn in Hpre.
  - destruct Hpre as [[x Hx] Hnl]. rewrite (chain_ok_linked _ _ _ Hok) in Hnl.
    destruct (add_plugin_run _ _ _ _ Hok Hnl Hx)
      as (s' & Hrun & Hok' & Hj & _ & _ & Hlinks & _).
    pose proof (same_shape_sym _ _ (same_but_links_shape _ _ Hlinks)) as Hsh.
    exists s', (l ++ [p]). split; [done|]. split; [done|].
    split; [by eapply aux_ready_same_shape|]. split; [done|].
    intros K _ _. apply perm_of_eq, list_fmap_ext. intros ? q _.
    by apply aux_of_same_but_links.
  - rewrite (chain_ok_linked _ _ _ Hok) in Hpre.
    apply list_elem_of_split in Hpre as (l1 & l2 & ->).
    destruct (remove_plugin_run _ _ _ _ Hok Hready)
      as (x & s' & _ & Hrun & Hok' & Hready' & _ & _ & _ & Hsh & _ & _
          & Hports).
    exists s', (l1 ++ l2). cbn. rewrite bind_run, Hrun.
    split; [done|]. split; [done|]. split; [done|]. split; [done|].
    intros K HndK Hsub. destruct Hok as (Hnd & _). nodup_hyps.
    eapply ports_handed_down_permutation; [exact Hports| |done|].
    + by apply NoDup_filter_snoc.
    + intros q Hq. apply Hsub. revert Hq.
      rewrite !elem_of_app, list_elem_of_filter, !elem_of_cons, elem_of_nil.
      tauto.
  - rewrite (chain_ok_linked _ _ _ Hok) in Hpre.
    apply list_elem_of_split in Hpre as (l1 & l2 & ->).
    destruct (decide (up ≠ 0)) as [Hup|Hup].
    + destruct l1 as [|q l0 _] using rev_ind.
      * exists s, ([] ++ p :: l2). cbn [run_operation].
        rewrite (move_plugin_boundary_run s [] p l2 up Hok);
          [done|by rewrite decide_True].
      * rewrite <-app_assoc in Hok. cbn [app] in Hok.
        destruct (move_plugin_up_run _ _ _ _ _ _ Hup Hok Hready)
          as (x & y & s' & _ & _ & Hrun & Hok' & Hready' & _ & _ & _ & Hsh
              & Hports).
        exists s', (l0 ++ p :: q :: l2).
        split; [done|]. split; [done|]. split; [done|]. split; [done|].
        intros K HndK Hsub. destruct Hok as (Hnd & _). nodup_hyps.
        eapply ports_exchanged_permutation; [exact Hports|congruence|done| |];
          apply Hsub; rewrite <-app_assoc, !elem_of_app, !elem_of_cons; tauto.
    + assert (up = 0) as Hup0 by lia. destruct l2 as [|n l3].
      * exists s, (l1 ++ [p]). cbn [run_operation].
        rewrite (move_plugin_boundary_run s l1 p [] up Hok);
          [done|by rewrite decide_False].
      * destruct (move_plugin_down_run _ _ _ _ _ _ Hup0 Hok Hready)
          as (x & y & s' & _ & _ & Hrun & Hok' & Hready' & _ & _ & _ & Hsh
              & Hports).
        exists s', (l1 ++ n :: p :: l3).
        split; [done|]. split; [done|]. split; [done|]. split; [done|].
        intros K HndK Hsub. destruct Hok as (Hnd & _). nodup_hyps.
        eapply ports_exchanged_permutation; [exact Hports|congruence|done| |];
          apply Hsub; rewrite !elem_of_app, !elem_of_cons; tauto.
  - destruct Hpre as (Hp & Hd & Hnl).
    rewrite (chain_ok_linked _ _ p Hok) in Hp.
    rewrite (chain_ok_linked _ _ d Hok) in Hnl.
    apply list_elem_of_split in Hp as (l1 & l2 & ->).
    destruct (change_plugin_run _ _ _ _ _ Hok Hready Hnl Hd)
      as (x & s' & _ & Hrun & Hok' & Hready' & _ & _ & _ & Hsh & _ & _
          & Hports).
    exists s', (l1 ++ d :: l2). cbn. rewrite bind_run, Hrun.
    split; [done|]. split; [done|]. split; [done|]. split; [done|].
    intros K HndK Hsub. destruct Hok as (Hnd & _). nodup_hyps.
    eapply ports_handed_down_permutation; [exact Hports| |done|].
    + by apply NoDup_filter_snoc.
    + intros q Hq. apply Hsub. revert Hq.
      rewrite !elem_of_app, list_elem_of_filter, !elem_of_cons, elem_of_nil.
      tauto.
Qed.

(** X8.  The edits conserve the auxiliary ports: over the plugins in
    memory, the auxiliary ports held after a sequence of appends, removes,
    moves and replaces, each applied within its precondition to a well
    formed chain, are the ports held before, rearranged; none is lost and
    none is held twice. *)
Theorem operations_conserve_ports ops : ∀ s l K,
  chain_ok s l → aux_ready s → preconditions s ops →
  NoDup K → map_Forall (λ q _, q ∈ K) (plugins s) →
  ∃ s',
    run_operations ops s = Some s'
    ∧ aux_of (plugins s') <$> K ≡ₚ aux_of (plugins s) <$> K.
Proof.
  induction ops as [|o ops IH]; intros s l K Hok Hready Hpre HndK HK.
  - by exists s.
  - destruct Hpre as [Hpo Hpre].
    destruct (run_operation_conserves_ports s l o Hok Hready Hpo)
      as (s1 & l' & Hrun & Hok1 & Hready1 & Hsh & Hperm).
    rewrite Hrun in Hpre. cbn [run_operations]. rewrite Hrun.
    destruct (IH s1 l' K Hok1 Hready1 Hpre HndK) as (s' & Hrun' & Hperm').
    { intros q x1 Hq.
      destruct (same_shape_lookup _ _ _ _ (same_shape_sym _ _ Hsh) Hq)
        as (x & Hx & _).
      by apply (HK q x). }
    exists s'. split; [done|]. rewrite Hperm'. apply Hperm; [done|].
    intros q Hq. destruct (chain_ok_lookup _ _ _ Hok Hq) as [x Hx].
    by apply (HK q x).
Qed.

Lemma operations_conserve_ports_witness :
  ∃ s',
    run_operations demo_operations pool4 = Some s'
    ∧ aux_of (plugins s') <$> [1; 2; 3; 4]%positive
      ≡ₚ aux_of (plugins pool4) <$> [1; 2; 3; 4]%positive.
Proof.
  apply (operations_conserve_ports demo_operations pool4 []
           [1; 2; 3; 4]%positive).
  - by apply chain_okb_correct.
  - refine (bool_decide_unpack _ _). vm_compute. exact I.
  - refine (bool_decide_unpack _ _). vm_compute. exact I.
  - refine (bool_decide_unpack _ _). vm_compute. exact I.
  - refine (bool_decide_unpack _ _). vm_compute. exact I.
Defined.

(* --------------------------------------------------------------------- *)
(** *** The exchange of auxiliary ports *)

Lemma ports_aside_swap_aux_ports_copy plugin other copy :
  preserves ports_aside (swap_aux_ports_copy plugin other copy).
Proof. unfold swap_aux_ports_copy, load_aux_ports. ports_aside_tac. Qed.

Lemma ports_aside_holders s s' p x :
  ports_aside s s' → plugins s !! p = Some x →
  ∃ x', plugins s' !! p = Some x'
        ∧ length (holders x') = length (holders x).
Proof.
  intros (_ & _ & _ & Hsb) Hx.
  destruct (same_but_aux_lookup _ _ _ _ (same_but_aux_sym _ _ Hsb) Hx)
    as (x' & Hx' & E).
  exists x'. split; [done|]. by apply erase_aux_links in E as (_&_&_&_&?).
Qed.

(** The loop of the exchange has no result once it is past the holders of
    one of the two plugins. *)
Lemma swap_copy_out_of_bounds plugin other k s x y :
  plugins s !! plugin = Some x → plugins s !! other = Some y →
  (length (holders x) `min` length (holders y) ≤ k)%nat →
  swap_aux_ports_copy plugin other k s = None.
Proof.
  intros Hx Hy Hk. unfold swap_aux_ports_copy, load_aux_ports.
  destruct (holders y !! k) as [hy|] eqn:Hhy.
  - do 4 mstep. apply lookup_lt_Some in Hhy.
    rewrite !bind_run. unfold array_get.
    rewrite (lookup_ge_None_2 (holders x) k) by lia. done.
  - mstep. rewrite !bind_run. unfold array_get. by rewrite Hhy.
Qed.

Lemma swap_loop_out_of_bounds plugin other n : ∀ k s x y,
  plugins s !! plugin = Some x → plugins s !! other = Some y →
  (k ≤ length (holders x) `min` length (holders y) < k + n)%nat →
  for_loop n k (λ copy _, swap_aux_ports_copy plugin other copy) () s = None.
Proof.
  induction n as [|n IH]; intros k s x y Hx Hy Hk; [lia|].
  cbn [for_loop]. rewrite bind_run.
  destruct (swap_aux_ports_copy plugin other k s) as [[[] s1]|] eqn:E;
    [|done].
  destruct (decide (k = length (holders x) `min` length (holders y))%nat)
    as [Hkl|Hkl].
  { rewrite (swap_copy_out_of_bounds _ _ _ _ _ _ Hx Hy) in E by lia. done. }
  pose proof (preserves_run _ _ _ _ _
                (ports_aside_swap_aux_ports_copy plugin other k) E) as Hs1.
  destruct (ports_aside_holders _ _ _ _ Hs1 Hx) as (x1 & Hx1 & Ex).
  destruct (ports_aside_holders _ _ _ _ Hs1 Hy) as (y1 & Hy1 & Ey).
  apply (IH (S k) s1 x1 y1 Hx1 Hy1). lia.
Qed.

(** X2.  The exchange of auxiliary ports runs over the copies of the first
    plugin and indexes the holders of both: where one of the two plugins
    has fewer holders than the first has copies, or the number of copies is
    negative, it reads [holders] out of bounds and has no defined result. *)
Theorem swap_aux_ports_out_of_bounds plugin other s x y :
  plugins s !! plugin = Some x → plugins s !! other = Some y →
  (length (holders x) `min` length (holders y) < to_guint (copies x))%nat →
  vst2_plugin_swap_aux_ports plugin other s = None.
Proof.
  intros Hx Hy Hlt. unfold vst2_plugin_swap_aux_ports.
  rewrite bind_run, (load_run _ _ _ Hx).
  apply (swap_loop_out_of_bounds _ _ _ 0%nat s x y Hx Hy). lia.
Qed.

Lemma swap_aux_ports_out_of_bounds_witness :
  vst2_plugin_swap_aux_ports 1%positive 2%positive short2 = None.
Proof.
  apply (swap_aux_ports_out_of_bounds 1%positive 2%positive short2
           (demo_plugin 10%positive None None)
           (set_holders [] (demo_plugin 20%positive None None))).
  - reflexivity.
  - reflexivity.
  - vm_compute. lia.
Defined.

(** X1.  The exchange of auxiliary ports is its own inverse: between two
    distinct plugins with as many holders as the first has copies, it
    returns with each plugin holding, copy by copy, the ports the other one
    held, and a second exchange restores the state exactly. *)
Theorem swap_aux_ports_twice plugin other s x y :
  plugin ≠ other →
  plugins s !! plugin = Some x → plugins s !! other = Some y →
  holders_ok x → length (holders y) = length (holders x) →
  ∃ s1,
    vst2_plugin_swap_aux_ports plugin other s = Some ((), s1)
    ∧ aux_of (plugins s1) plugin = aux_of (plugins s) other
    ∧ aux_of (plugins s1) other = aux_of (plugins s) plugin
    ∧ vst2_plugin_swap_aux_ports plugin other s1 = Some ((), s).
Proof.
  intros Hne Hx Hy Hok Hlen.
  pose proof (swap_aux_ports_run plugin other x y s Hne Hx Hy Hlen Hok)
    as Hrun1.
  destruct (aux_of_swapped (plugins s) plugin other x y Hne Hlen)
    as (Ap & Ao & Afr).
  set (s1 := with_plugins (swapped plugin other x y (plugins s)) s) in *.
  set (x1 := set_holders (take_aux_ports (holders x) (holders y)) x).
  set (y1 := set_holders (take_aux_ports (holders y) (holders x)) y).
  assert (plugins s1 !! plugin = Some x1) as Hx1.
  { subst s1. unfold swapped. snorm. by rewrite lookup_insert_eq. }
  assert (plugins s1 !! other = Some y1) as Hy1.
  { subst s1. unfold swapped. snorm.
    by rewrite lookup_insert_ne, lookup_insert_eq. }
  assert (length (holders y1) = length (holders x1)) as Hlen1.
  { subst x1 y1. cbn. unfold take_aux_ports. rewrite !length_zip_with. lia. }
  assert (holders_ok x1) as Hok1.
  { destruct Hok as [Hc Hl]. split; [done|]. subst x1. cbn.
    unfold take_aux_ports. rewrite length_zip_with. cbn in Hl. lia. }
  pose proof (swap_aux_ports_run plugin other x1 y1 s1 Hne Hx1 Hy1 Hlen1 Hok1)
    as Hrun2.
  destruct (aux_of_swapped (plugins s1) plugin other x1 y1 Hne Hlen1)
    as (Ap1 & Ao1 & Afr1).
  exists s1. split; [done|]. unfold aux_of at 2 4. rewrite Hx, Hy.
  split; [done|]. split; [done|].
  rewrite Hrun2. do 2 f_equal.
  pose proof (preserves_run _ _ _ _ _
                (ports_aside_swap_aux_ports plugin other) Hrun1) as H1.
  pose proof (preserves_run _ _ _ _ _
                (ports_aside_swap_aux_ports plugin other) Hrun2) as H2.
  pose proof (ports_aside_trans _ _ _ H1 H2) as H12.
  pose proof (ports_aside_links _ _ H12) as (Hp & Hb & Ht & Hc).
  destruct H12 as (_ & _ & _ & Hsb).
  apply state_ext; try done.
  apply plugins_ext; try done.
  - intros r. apply (same_but_aux_links _ _ r Hsb).
  - intros r. apply (same_but_aux_links _ _ r Hsb).
  - intros r. snorm.
    destruct (decide (r = plugin)) as [->|].
    { rewrite Ap1. subst y1. cbn [holders set_holders].
      rewrite aux_take_aux_ports by done. unfold aux_of. by rewrite Hx. }
    destruct (decide (r = other)) as [->|].
    { rewrite Ao1. subst x1. cbn [holders set_holders].
      rewrite aux_take_aux_ports by done. unfold aux_of. by rewrite Hy. }
    unfold aux_of. rewrite Afr1 by done. subst s1. snorm.
    by rewrite Afr.
Qed.

Lemma swap_aux_ports_twice_witness :
  ∃ s1,
    vst2_plugin_swap_aux_ports 1%positive 2%positive rack3 = Some ((), s1)
    ∧ aux_of (plugins s1) 1%positive = aux_of (plugins rack3) 2%positive
    ∧ aux_of (plugins s1) 2%positive = aux_of (plugins rack3) 1%positive
    ∧ vst2_plugin_swap_aux_ports 1%positive 2%positive s1 = Some ((), rack3).
Proof.
  apply (swap_aux_ports_twice 1%positive 2%positive rack3
           (demo_plugin 10%positive None (Some 2%positive))
           (demo_plugin 20%positive (Some 1%positive) (Some 3%positive))).
  - done.
  - reflexivity.
  - reflexivity.
  - refine (bool_decide_unpack _ _). vm_compute. exact I.
  - reflexivity.
Defined.

(* --------------------------------------------------------------------- *)
(** *** Enabling a plugin *)

Lemma chain_ok_store s l p x f :
  plugins s !! p = Some x →
  prev (f x) = prev x → next (f x) = next x →
  chain_ok s l → chain_ok (with_plugins (<[p := f x]> (plugins s)) s) l.
Proof.
  intros Hx Hp Hn (Hnd & Hh & He & Hs). repeat split; try done. snorm.
  clear Hnd Hh He. revert Hs. generalize (@None ptr) at 1 3.
  generalize (@None ptr).
  induction l as [|q l IH]; intros qn pp; [done|]. cbn [dseg].
  intros (y & Hy & Hpy & Hny & Hs).
  destruct (decide (q = p)) as [->|].
  - exists (f x). rewrite lookup_insert_eq.
    assert (y = x) as -> by congruence.
    repeat split; [congruence|congruence|by apply IH].
  - exists y. rewrite lookup_insert_ne by done. repeat split; try done.
    by apply IH.
Qed.

(** X11.  Enabling or disabling a plugin, or its wet/dry mix, sets that one
    flag of that one plugin: the call returns, the chain is the consistent
    chain it was, the other flag keeps its value, no auxiliary port changes
    hands and every other plugin is as before. *)
Theorem ablise_sets_one_flag s l plugin enable x :
  chain_ok s l → plugins s !! plugin = Some x →
  (∃ s',
     vst2_process_ablise_plugin plugin enable s = Some ((), s')
     ∧ consistent s' l ∧ procinfo s' = procinfo s
     ∧ plugins s' !! plugin = Some (set_enabled enable x)
     ∧ wet_dry_enabled <$> plugins s' !! plugin = Some (wet_dry_enabled x)
     ∧ (∀ r, aux_of (plugins s') r = aux_of (plugins s) r)
     ∧ (∀ q, q ≠ plugin → plugins s' !! q = plugins s !! q))
  ∧ (∃ s',
       vst2_process_ablise_vst2_plugin_wet_dry plugin enable s
       = Some ((), s')
       ∧ consistent s' l ∧ procinfo s' = procinfo s
       ∧ plugins s' !! plugin = Some (set_wet_dry_enabled enable x)
       ∧ enabled <$> plugins s' !! plugin = Some (enabled x)
       ∧ (∀ r, aux_of (plugins s') r = aux_of (plugins s) r)
       ∧ (∀ q, q ≠ plugin → plugins s' !! q = plugins s !! q)).
Proof.
  intros Hok Hx. split.
  - eexists. split.
    { unfold vst2_process_ablise_plugin. by erewrite store_run. }
    split.
    { apply chain_ok_consistent. by apply (chain_ok_store s l plugin x). }
    snorm. rewrite lookup_insert_eq. repeat split; try done.
    + intros r. unfold aux_of. destruct (decide (r = plugin)) as [->|].
      * by rewrite lookup_insert_eq, Hx.
      * by rewrite lookup_insert_ne.
    + intros q Hq. by rewrite lookup_insert_ne.
  - eexists. split.
    { unfold vst2_process_ablise_vst2_plugin_wet_dry. by erewrite store_run. }
    split.
    { apply chain_ok_consistent. by apply (chain_ok_store s l plugin x). }
    snorm. rewrite lookup_insert_eq. repeat split; try done.
    + intros r. unfold aux_of. destruct (decide (r = plugin)) as [->|].
      * by rewrite lookup_insert_eq, Hx.
      * by rewrite lookup_insert_ne.
    + intros q Hq. by rewrite lookup_insert_ne.
Qed.

Lemma ablise_sets_one_flag_witness :
  (∃ s',
     vst2_process_ablise_plugin 2%positive true rack3 = Some ((), s')
     ∧ consistent s' [1; 2; 3]%positive ∧ procinfo s' = procinfo rack3
     ∧ plugins s' !! 2%positive
       = Some (set_enabled true
                 (demo_plugin 20%positive (Some 1%positive)
                    (Some 3%positive)))
     ∧ wet_dry_enabled <$> plugins s' !! 2%positive
       = Some (wet_dry_enabled
                 (demo_plugin 20%positive (Some 1%positive)
                    (Some 3%positive)))
     ∧ (∀ r, aux_of (plugins s') r = aux_of (plugins rack3) r)
     ∧ (∀ q, q ≠ 2%positive → plugins s' !! q = plugins rack3 !! q))
  ∧ (∃ s',
       vst2_process_ablise_vst2_plugin_wet_dry 2%positive true rack3
       = Some ((), s')
       ∧ consistent s' [1; 2; 3]%positive ∧ procinfo s' = procinfo rack3
       ∧ plugins s' !! 2%positive
         = Some (set_wet_dry_enabled true
                   (demo_plugin 20%positive (Some 1%positive)
                      (Some 3%positive)))
       ∧ enabled <$> plugins s' !! 2%positive
         = Some (enabled
                   (demo_plugin 20%positive (Some 1%positive)
                      (Some 3%positive)))
       ∧ (∀ r, aux_of (plugins s') r = aux_of (plugins rack3) r)
       ∧ (∀ q, q ≠ 2%positive → plugins s' !! q = plugins rack3 !! q)).
Proof.
  apply (ablise_sets_one_flag rack3 [1; 2; 3]%positive 2%positive true
           (demo_plugin 20%positive (Some 1%positive) (Some 3%positive))).
  - by apply chain_okb_correct.
  - reflexivity.
Defined.

(* ===================================================================== *)
(** ** The plugin that creation returns *)
(* ===================================================================== *)

(** A step that keeps a relation to a state [s0]. *)
Lemma wp_rel {A B} (R : state → state → Prop) (m : M A) (k : A → M B) Q s0 s :
  (∀ s1 s2 s3, R s1 s2 → R s2 s3 → R s1 s3) →
  preserves R m → R s0 s →
  (∀ a s1, R s0 s1 → wp (k a) Q s1) →
  wp (m ≫= k) Q s.
Proof.
  intros Htr Hm Hs Hk. apply wp_bind. eapply wp_mono; [|apply Hm].
  intros a s1 H1. cbn beta. apply Hk. by eapply Htr.
Qed.

Lemma wp_preserved {A} (R : state → state → Prop) (m : M A)
  (Q : A → state → Prop) s :
  preserves R m → (∀ a s', R s s' → Q a s') → wp m Q s.
Proof. intros Hm HQ. eapply wp_mono; [|apply Hm]. intros a s'. apply HQ. Qed.

Lemma wp_conj {A} (m : M A) (Q1 Q2 : A → state → Prop) s :
  wp m Q1 s → wp m Q2 s → wp m (λ a s', Q1 a s' ∧ Q2 a s') s.
Proof. unfold wp. by destruct (m s) as [[]|]. Qed.

(* --------------------------------------------------------------------- *)
(** *** Before the plugin is allocated *)

Lemma grows_refl s : grows s s.
Proof. done. Qed.

Lemma grows_trans s1 s2 s3 : grows s1 s2 → grows s2 s3 → grows s1 s3.
Proof.
  intros (?&?&?) (?&?&?). repeat split; [congruence..|]. by etrans.
Qed.

Lemma grows_emit e : preserves grows (emit e).
Proof. by intros s. Qed.

Lemma grows_g_malloc n : preserves grows (g_malloc n).
Proof.
  intros s. unfold wp, g_malloc. repeat case_decide; try done.
  repeat split. cbn. apply union_subseteq_r.
Qed.

Lemma grows_instantiate E effect index copies effects :
  preserves grows (vst2_plugin_instantiate E effect index copies effects).
Proof.
  unfold vst2_plugin_instantiate.
  repeat first
    [ apply grows_emit
    | apply preserves_ret; [apply grows_refl]
    | apply preserves_array_set; [apply grows_refl]
    | apply preserves_deref; [apply grows_refl]
    | apply preserves_for_loop; [apply grows_refl|apply grows_trans|intros ? ?]
    | apply preserves_bind; [apply grows_trans| |intros ?] ].
Qed.

(** [g_malloc (sizeof (vst2_plugin_t))] returns a block that is neither in
    use nor the address of a plugin. *)
Lemma wp_alloc_plugin_fresh x s :
  wp (alloc_plugin x)
     (λ p s', plugins s !! p = None ∧ (p ∉ blocks s) ∧ p ∈ blocks s'
              ∧ blocks s ⊆ blocks s' ∧ procinfo s' = procinfo s
              ∧ plugins s' = <[p := x]> (plugins s)) s.
Proof.
  unfold wp, alloc_plugin, g_malloc, deref, place_plugin.
  rewrite !bind_run. rewrite decide_False, decide_False by lia.
  unfold mbind, M_bind, mret, M_ret. snorm.
  pose proof (is_fresh (blocks s ∪ dom (plugins s))) as Hf.
  rewrite not_elem_of_union, not_elem_of_dom in Hf. destruct Hf as [Hb Hp].
  repeat split; try done.
  - apply elem_of_union_l, elem_of_singleton. done.
  - apply union_subseteq_r.
Qed.

(* --------------------------------------------------------------------- *)
(** *** After the plugin is allocated *)

Section aside_from.
Variable p : ptr.

Lemma aside_from_refl s : aside_from p s s.
Proof. done. Qed.

Lemma aside_from_trans s1 s2 s3 :
  aside_from p s1 s2 → aside_from p s2 s3 → aside_from p s1 s3.
Proof.
  intros (H1 & H2 & H3 & H4) (H1' & H2' & H3' & H4').
  split; [congruence|]. split; [by etrans|]. split; [|congruence].
  intros q Hq. by rewrite H3', H3.
Qed.

Lemma aside_from_emit e : preserves (aside_from p) (emit e).
Proof. by intros s. Qed.

Lemma aside_from_g_malloc n : preserves (aside_from p) (g_malloc n).
Proof.
  intros s. unfold wp, g_malloc. repeat case_decide; try done.
  repeat split. cbn. apply union_subseteq_r.
Qed.

Lemma aside_from_store f :
  (∀ x, header (f x) = header x) → preserves (aside_from p) (store p f).
Proof.
  intros Hf s. unfold wp, store.
  destruct (plugins s !! p) as [x|] eqn:Hx; [|done].
  repeat split; snorm.
  - done.
  - intros q Hq. by rewrite lookup_insert_ne.
  - rewrite lookup_insert_eq, Hx. cbn. by rewrite Hf.
Qed.

Ltac aside_from_tac :=
  repeat first
    [ apply aside_from_emit | apply aside_from_g_malloc
    | apply aside_from_store; [reflexivity]
    | apply preserves_ret; [apply aside_from_refl]
    | apply preserves_fault
    | apply preserves_load; [apply aside_from_refl]
    | apply preserves_array_get; [apply aside_from_refl]
    | apply preserves_array_set; [apply aside_from_refl]
    | apply preserves_deref; [apply aside_from_refl]
    | apply preserves_get_procinfo; [apply aside_from_refl]
    | apply preserves_get_state; [apply aside_from_refl]
    | apply preserves_for_loop;
        [apply aside_from_refl|apply aside_from_trans|intros ? ?]
    | apply preserves_bind; [apply aside_from_trans| |intros ?]
    | match goal with
      | |- preserves _ (if ?c then _ else _) => destruct c
      | |- preserves _ (match ?x with _ => _ end) => destruct x
      end ].

Lemma aside_from_modify_holder copy f :
  preserves (aside_from p) (modify_holder p copy f).
Proof. unfold modify_holder. aside_from_tac. Qed.

Lemma aside_from_load_holder q copy :
  preserves (aside_from p) (load_holder q copy).
Proof. unfold load_holder. aside_from_tac. Qed.

Lemma aside_from_lff_init a b : preserves (aside_from p) (lff_init a b).
Proof. unfold lff_init. aside_from_tac. Qed.

Lemma aside_from_push_control copy i d :
  preserves (aside_from p) (push_control p copy i d).
Proof.
  unfold push_control.
  repeat first [ apply aside_from_load_holder | aside_from_tac ].
Qed.

Lemma aside_from_create_aux_ports E copy ctx :
  preserves (aside_from p) (vst2_plugin_create_aux_ports E p copy ctx).
Proof.
  unfold vst2_plugin_create_aux_ports.
  repeat first [ apply aside_from_load_holder | apply aside_from_modify_holder
               | aside_from_tac ].
Qed.

Lemma aside_from_init_holder E copy e ctx :
  preserves (aside_from p) (vst2_plugin_init_holder E p copy e ctx).
Proof.
  unfold vst2_plugin_init_holder.
  repeat first [ apply aside_from_load_holder | apply aside_from_modify_holder
               | apply aside_from_lff_init | apply aside_from_push_control
               | apply aside_from_create_aux_ports
               | aside_from_tac ].
Qed.

(** The part of [vst2_plugin_new] that follows the allocation of the
    plugin. *)
Lemma wp_fill_plugin E ctx copies effects s :
  wp (let n := N.to_nat (channels ctx) in
      _ ← g_malloc (Z.of_N (channels ctx));
      store p (set_audio_output_memory (replicate n None));;
      _ ← g_malloc (Z.of_N (channels ctx));
      store p (set_wet_dry_fifos (replicate n None));;
      _ ← g_malloc (Z.of_N (channels ctx));
      store p (set_wet_dry_values (replicate n None));;
      for_loop n 0 (λ i _,
        buffer ← g_malloc (Z.of_N (vst2_buffer_size E));
        x ← load p;
        memory ← array_set (audio_output_memory x) i (Some buffer);
        store p (set_audio_output_memory memory);;
        f ← lff_init CONTROL_FIFO_SIZE sizeof_LADSPA_Data;
        x ← load p;
        fifos ← array_set (wet_dry_fifos x) i (Some f);
        store p (set_wet_dry_fifos fifos);;
        x ← load p;
        values ← array_set (wet_dry_values x) i (Some 1%Q);
        store p (set_wet_dry_values values)) ();;
      _ ← g_malloc copies;
      store p
        (set_holders (replicate (Z.to_nat copies) indeterminate_holder));;
      for_loop (Z.to_nat copies) 0 (λ i _,
        c ← array_get effects i;
        effect ← deref c;
        vst2_plugin_init_holder E p i effect ctx) ();;
      mret (Some p))
     (λ r s', r = Some p ∧ aside_from p s s') s.
Proof.
  cbn zeta. pose proof (aside_from_refl s) as H0.
  repeat (eapply (wp_rel (aside_from p) _ _ _ s);
          [ apply aside_from_trans
          | solve [ repeat first [ apply aside_from_lff_init
                                 | apply aside_from_init_holder
                                 | aside_from_tac ] ]
          | eassumption
          | clear H0; intros ? ? H0 ]).
  by apply wp_ret.
Qed.
End aside_from.

(** The plugin that [vst2_plugin_new] returns, and the rest of the state. *)
Lemma vst2_plugin_new_frame E d ctx s p s' :
  vst2_plugin_new E d ctx s = Some (Some p, s') →
  plugins s !! p = None ∧ (p ∉ blocks s) ∧ p ∈ blocks s'
  ∧ blocks s ⊆ blocks s' ∧ procinfo s' = procinfo s
  ∧ (∀ q, q ≠ p → plugins s' !! q = plugins s !! q)
  ∧ header <$> plugins s' !! p
    = Some (d, false, vst2_plugin_desc_get_copies E d (channels ctx), false,
            None, None).
Proof.
  intros Hrun.
  refine (wp_run _ (λ r s', ∀ p, r = Some p → _) _ _ _ _ Hrun p eq_refl).
  clear Hrun p s'. unfold vst2_plugin_new, vst2_plugin_open_plugin.
  destruct (desc_effect d) as [e|]; [|done].
  apply wp_bind. apply wp_ret. cbn beta iota. rewrite decide_False by lia.
  eapply (wp_rel grows); [apply grows_trans|apply grows_g_malloc
                         |apply grows_refl|].
  intros blk s1 H1.
  eapply (wp_rel grows); [apply grows_trans|apply grows_instantiate
                         |exact H1|].
  intros [err effects] s2 (Hp2 & Hm2 & Hb2). cbn beta iota.
  case_decide; [by repeat (apply wp_bind_any; intros)|].
  apply wp_bind. eapply wp_mono; [|apply wp_alloc_plugin_fresh].
  intros q s3 (Hq & Hqb & Hqb3 & Hb3 & Hp3 & Hm3). cbn beta.
  eapply wp_mono; [|apply (wp_fill_plugin q E ctx)].
  cbn beta. intros r s' [-> (Hp' & Hb' & Hfr & Hh)] p [= <-].
  split; [congruence|]. split; [set_solver|]. split; [set_solver|].
  split; [set_solver|]. split; [congruence|]. split.
  - intros q' Hq'. rewrite Hfr, Hm3, lookup_insert_ne by done. congruence.
  - by rewrite Hh, Hm3, lookup_insert_eq.
Qed.

(* --------------------------------------------------------------------- *)
(** *** The holders of a new plugin *)

Section holder_field.
Context {T : Type} (proj : vst2_holder_t → T) (p : ptr) (copy : nat).

Lemma field_refl s : same_holder_field proj p copy s s.
Proof. done. Qed.

Lemma field_trans s1 s2 s3 :
  same_holder_field proj p copy s1 s2 → same_holder_field proj p copy s2 s3 →
  same_holder_field proj p copy s1 s3.
Proof. unfold same_holder_field. congruence. Qed.

Lemma field_emit e : preserves (same_holder_field proj p copy) (emit e).
Proof. by intros s. Qed.

Lemma field_g_malloc n : preserves (same_holder_field proj p copy) (g_malloc n).
Proof. intros s. unfold wp, g_malloc. by repeat case_decide. Qed.

Lemma field_lff_init a b :
  preserves (same_holder_field proj p copy) (lff_init a b).
Proof. by intros s. Qed.

(** An update of a holder that is another one, or not one of the field. *)
Lemma field_modify_holder q c f :
  c ≠ copy ∨ (∀ h, proj (f h) = proj h) →
  preserves (same_holder_field proj p copy) (modify_holder q c f).
Proof.
  intros Hf s. unfold wp, modify_holder, load, array_get, store.
  rewrite !bind_run.
  destruct (plugins s !! q) as [x|] eqn:Hx; [|done].
  rewrite bind_run.
  destruct (holders x !! c) as [h|] eqn:Hh; [|done].
  rewrite ret_run, Hx.
  unfold same_holder_field, holder_of. snorm.
  destruct (decide (p = q)) as [->|]; [|by rewrite lookup_insert_ne].
  rewrite lookup_insert_eq, Hx. cbn [holders set_holders].
  destruct (decide (copy = c)) as [->|]; [|by rewrite list_lookup_insert_ne].
  rewrite list_lookup_insert_eq by (by eapply lookup_lt_Some).
  rewrite Hh. cbn. destruct Hf as [?|Hf]; [done|]. by rewrite Hf.
Qed.

Lemma field_load_holder q c :
  preserves (same_holder_field proj p copy) (load_holder q c).
Proof.
  unfold load_holder. apply preserves_bind; [apply field_trans| |].
  - apply preserves_load, field_refl.
  - intros x. apply preserves_array_get, field_refl.
Qed.

Ltac field_tac :=
  repeat first
    [ apply field_load_holder | apply field_emit | apply field_g_malloc
    | apply field_lff_init
    | apply field_modify_holder; [first [by left | by right]]
    | apply preserves_fault
    | apply preserves_ret; [apply field_refl]
    | apply preserves_load; [apply field_refl]
    | apply preserves_get_state; [apply field_refl]
    | apply preserves_get_procinfo; [apply field_refl]
    | apply preserves_array_get; [apply field_refl]
    | apply preserves_array_set; [apply field_refl]
    | apply preserves_deref; [apply field_refl]
    | apply preserves_for_loop; [apply field_refl|apply field_trans|intros ? ?]
    | apply preserves_bind; [apply field_trans| |intros ?]
    | match goal with
      | |- preserves _ (if ?c then _ else _) => destruct c
      | |- preserves _ (match ?x with _ => _ end) => destruct x
      end ].

Lemma field_push_control q c i d :
  preserves (same_holder_field proj p copy) (push_control q c i d).
Proof. unfold push_control. field_tac. Qed.

Lemma field_create_aux_ports E q c ctx :
  c ≠ copy ∨ (∀ v h, proj (set_aux_ports v h) = proj h) →
  preserves (same_holder_field proj p copy)
    (vst2_plugin_create_aux_ports E q c ctx).
Proof.
  intros [Hc|Hf]; unfold vst2_plugin_create_aux_ports; field_tac.
Qed.

(** The initialisation of another holder. *)
Lemma field_init_holder_other E q c e ctx :
  c ≠ copy →
  preserves (same_holder_field proj p copy)
    (vst2_plugin_init_holder E q c e ctx).
Proof.
  intros Hc. unfold vst2_plugin_init_holder.
  repeat first [ apply field_push_control
               | apply field_create_aux_ports; [by left]
               | field_tac ].
Qed.
End holder_field.

Ltac field_tac :=
  repeat first
    [ apply field_push_control
    | apply field_load_holder | apply field_emit | apply field_g_malloc
    | apply field_lff_init
    | apply field_modify_holder; [first [by left | by right]]
    | apply field_create_aux_ports; [first [by left | by right]]
    | apply preserves_fault
    | apply preserves_ret; [apply field_refl]
    | apply preserves_load; [apply field_refl]
    | apply preserves_get_state; [apply field_refl]
    | apply preserves_get_procinfo; [apply field_refl]
    | apply preserves_array_get; [apply field_refl]
    | apply preserves_array_set; [apply field_refl]
    | apply preserves_deref; [apply field_refl]
    | apply preserves_for_loop; [apply field_refl|apply field_trans|intros ? ?]
    | apply preserves_bind; [apply field_trans| |intros ?]
    | match goal with
      | |- preserves _ (if ?c then _ else _) => destruct c
      | |- preserves _ (match ?x with _ => _ end) => destruct x
      end ].

(** [holder->effect = effect]. *)
Lemma wp_set_holder_effect p copy v s :
  wp (modify_holder p copy (set_holder_effect v))
     (λ _ s', holder_effect <$> holder_of p copy s' = Some v) s.
Proof.
  unfold wp, modify_holder, load, array_get, store. rewrite !bind_run.
  destruct (plugins s !! p) as [x|] eqn:Hx; [|done].
  rewrite bind_run.
  destruct (holders x !! copy) as [h|] eqn:Hh; [|done].
  rewrite ret_run, Hx. unfold holder_of. snorm.
  rewrite lookup_insert_eq. cbn [holders set_holders].
  by rewrite list_lookup_insert_eq by (by eapply lookup_lt_Some).
Qed.

Lemma init_holder_sets_effect E p copy e ctx s :
  wp (vst2_plugin_init_holder E p copy e ctx)
     (λ _ s', holder_effect <$> holder_of p copy s' = Some e) s.
Proof.
  unfold vst2_plugin_init_holder. apply wp_bind_any. intros x s1. cbn zeta.
  apply wp_bind. eapply wp_mono; [|apply wp_set_holder_effect].
  intros [] s2 H2. cbn beta.
  eapply (wp_preserved (same_holder_field holder_effect p copy));
    [by field_tac|].
  intros a s' H. unfold same_holder_field in H. congruence.
Qed.

Lemma control_memory_of_holder p copy s :
  control_memory_of p copy s = control_memory <$> holder_of p copy s.
Proof. unfold control_memory_of, holder_of. by destruct (plugins s !! p). Qed.

(** What [vst2_plugin_init_holder] has made of its holder. *)
Lemma init_holder_done E p copy e ctx s s' x :
  plugins s !! p = Some x →
  vst2_plugin_init_holder E p copy e ctx s = Some ((), s') →
  ∃ h, holder_of p copy s' = Some h ∧ holder_effect h = e
       ∧ mirror_seeded E (desc x) h.
Proof.
  intros Hx Hrun.
  pose proof (wp_run _ _ _ _ _ (init_holder_sets_effect E p copy e ctx s) Hrun)
    as He.
  pose proof (init_holder_seeds_mirror _ _ _ _ _ _ _ _ Hx Hrun) as Hm.
  cbn zeta in Hm. cbn beta in He. rewrite !control_memory_of_holder in Hm.
  destruct (holder_of p copy s') as [h|]; [|done].
  exists h. split; [done|]. cbn in He. split; [congruence|].
  unfold mirror_seeded. cbn zeta. cbn in Hm. case_decide.
  - destruct Hm as (v & Hv & Hl & Hs). exists v. split; [congruence|done].
  - congruence.
Qed.

(* --------------------------------------------------------------------- *)
(** *** The instances of the effect *)

Lemma instantiate_loop_run E e n : ∀ k effects s,
  (k + n ≤ length effects)%nat →
  for_loop n k (λ i effects,
    effects ← array_set effects i (Some (Some e));
    e' ← deref (Some e);
    emit (EvDispatcher (effect_addr e') effSetSampleRate
            (sample_rate_float E));;
    mret effects) effects s
  = Some (take k effects ++ replicate n (Some (Some e))
            ++ drop (k + n) effects,
          with_trace
            (replicate n (EvDispatcher (effect_addr e) effSetSampleRate
                            (sample_rate_float E)) ++ trace s) s).
Proof.
  induction n as [|n IH]; intros k effects s Hk.
  - cbn. rewrite Nat.add_0_r, take_drop. by destruct s.
  - cbn [for_loop]. rewrite bind_run. unfold array_set.
    rewrite decide_True by lia.
    unfold deref, emit, mbind, M_bind, mret, M_ret. cbv beta iota.
    rewrite IH by (rewrite length_insert; lia). snorm. do 2 f_equal.
    + rewrite drop_insert_lt by lia.
      rewrite (take_S_r _ _ (Some (Some e)))
        by (apply list_lookup_insert_eq; lia).
      rewrite take_insert_ge by lia.
      rewrite <-app_assoc. cbn. by rewrite Nat.add_succ_r.
    + unfold with_trace. cbn. f_equal.
      by rewrite cons_middle, app_assoc, <-replicate_S_end.
Qed.

Lemma instantiate_run E e index copies effects s :
  (Z.to_nat copies ≤ length effects)%nat →
  vst2_plugin_instantiate E (Some e) index copies effects s
  = Some ((0, replicate (Z.to_nat copies) (Some (Some e))
                ++ drop (Z.to_nat copies) effects),
          with_trace
            (replicate (Z.to_nat copies)
               (EvDispatcher (effect_addr e) effSetSampleRate
                  (sample_rate_float E)) ++ trace s) s).
Proof.
  intros Hlen. unfold vst2_plugin_instantiate.
  rewrite bind_run, (instantiate_loop_run E e _ 0 effects s) by exact Hlen.
  by rewrite take_0.
Qed.



(* --------------------------------------------------------------------- *)
(** *** Every holder of a new plugin *)

Lemma wp_g_malloc_count n s : wp (g_malloc n) (λ _ _, 0 ≤ n) s.
Proof. unfold wp, g_malloc. repeat case_decide; lia. Qed.

Lemma header_lookup s p hdr :
  header <$> plugins s !! p = Some hdr →
  ∃ x, plugins s !! p = Some x ∧ header x = hdr.
Proof.
  destruct (plugins s !! p) as [x|]; [|done]. intros [= <-]. by exists x.
Qed.

(** The holders of the plugin that [vst2_plugin_new] returns: one for each
    copy, each with the effect of the descriptor and a seeded mirror. *)
Lemma vst2_plugin_new_holders E d ctx s p s' :
  vst2_plugin_new E d ctx s = Some (Some p, s') →
  0 ≤ vst2_plugin_desc_get_copies E d (channels ctx)
  ∧ ∀ i,
      if decide (i < Z.to_nat (vst2_plugin_desc_get_copies E d
                                 (channels ctx)))%nat
      then ∃ h, holder_of p i s' = Some h
                ∧ holder_effect h = desc_effect d ∧ mirror_seeded E d h
      else holder_of p i s' = None.
Proof.
  intros Hrun.
  refine (wp_run _ (λ r s', ∀ p, r = Some p → _) _ _ _ _ Hrun p eq_refl).
  clear Hrun p s'. unfold vst2_plugin_new, vst2_plugin_open_plugin.
  destruct (desc_effect d) as [e|] eqn:He; [|done].
  apply wp_bind. apply wp_ret. cbn beta iota. rewrite decide_False by lia.
  set (copies := vst2_plugin_desc_get_copies E d (channels ctx)).
  apply wp_bind. eapply wp_mono; [|apply wp_g_malloc_count].
  intros blk s1 Hc. cbn beta.
  apply wp_bind. unfold wp at 1.
  rewrite instantiate_run by (by rewrite length_replicate).
  rewrite drop_replicate, Nat.sub_diag, app_nil_r. cbn [replicate].
  rewrite decide_False by lia.
  apply wp_bind. eapply wp_mono; [|apply wp_alloc_plugin].
  intros q s3 Hq. cbn beta.
  set (hdr := (d, false, copies, false, @None ptr, @None ptr)).
  assert (header <$> plugins s3 !! q = Some hdr) as H3 by (by rewrite Hq).
  assert (∀ s4, aside_from q s3 s4 → header <$> plugins s4 !! q = Some hdr)
    as Hkeep.
  { intros s4 (_ & _ & _ & H4). by rewrite H4. }
  clear Hq. pose proof (aside_from_refl q s3) as H0.
  do 8 (eapply (wp_rel (aside_from q) _ _ _ s3);
        [ apply aside_from_trans
        | solve [ repeat first [ apply aside_from_lff_init
                               | apply aside_from_store; [reflexivity]
                               | apply aside_from_g_malloc
                               | apply preserves_bind;
                                   [apply aside_from_trans| |intros ?]
                               | apply preserves_for_loop;
                                   [apply aside_from_refl
                                   |apply aside_from_trans|intros ? ?]
                               | apply preserves_load; [apply aside_from_refl]
                               | apply preserves_array_set;
                                   [apply aside_from_refl] ] ]
        | eassumption
        | clear H0; intros ? ? H0 ]).
  apply Hkeep in H0. clear Hkeep H3.
  apply header_lookup in H0 as (x8 & Hx8 & Hh8).
  apply wp_bind. unfold wp at 1, store. rewrite Hx8.
  apply wp_bind. eapply wp_mono.
  2:{ apply (wp_for_loop (λ k _ s',
        header <$> plugins s' !! q = Some hdr
        ∧ ∀ i, if decide (i < k)%nat
               then ∃ h, holder_of q i s' = Some h
                         ∧ holder_effect h = Some e ∧ mirror_seeded E d h
               else holder_of q i s'
                    = replicate (Z.to_nat copies) indeterminate_holder !! i)).
      - intros k [] t Hk [Hht Hit].
        unfold array_get. rewrite lookup_replicate_2 by lia.
        apply wp_bind, wp_ret. cbn beta. apply wp_bind, wp_ret. cbn beta.
        unfold wp.
        destruct (vst2_plugin_init_holder E q k (Some e) ctx t)
          as [[[] t']|] eqn:Hrun; [|done].
        pose proof (preserves_run _ _ _ _ _
                      (aside_from_init_holder q E k (Some e) ctx) Hrun)
          as (_ & _ & _ & Hht').
        split; [congruence|]. intros i.
        apply header_lookup in Hht as (xt & Hxt & Hhxt).
        destruct (decide (i = k)) as [->|Hik].
        + rewrite decide_True by lia.
          destruct (init_holder_done _ _ _ _ _ _ _ _ Hxt Hrun)
            as (h & Hh & Heff & Hm).
          exists h. split; [done|]. split; [done|].
          injection Hhxt as Hd _ _ _ _ _. by rewrite <-Hd.
        + pose proof (preserves_run _ _ _ _ _
                        (field_init_holder_other (λ h, h) q i E q k (Some e)
                           ctx (not_eq_sym Hik)) Hrun) as Hkept.
          unfold same_holder_field in Hkept. rewrite !option_fmap_id in Hkept.
          rewrite Hkept. specialize (Hit i).
          destruct (decide (i < k)%nat).
          * by rewrite decide_True by lia.
          * by rewrite decide_False by lia.
      - snorm. rewrite lookup_insert_eq. cbn. split; [by rewrite <-Hh8|].
        intros i. rewrite decide_False by lia.
        unfold holder_of. snorm. by rewrite lookup_insert_eq. }
  cbn beta. intros [] s' [_ Hall]. apply wp_ret. intros p [= <-].
  split; [done|]. intros i. specialize (Hall i). cbn in Hall.
  case_decide; [done|]. rewrite Hall. apply lookup_replicate_None. lia.
Qed.

(** X12.  Creation returns a new, unlinked, disabled plugin and touches
    nothing else: the address of a plugin that [vst2_plugin_new] returns was
    neither a plugin nor a live block before, no block has been released,
    the process info, with the head and the tail of the chain, and every
    other plugin are unchanged, and the plugin carries the descriptor and
    the number of copies asked of the descriptor, is not enabled, has the
    wet/dry mix disabled and has both links NULL. *)
Theorem new_plugin_is_fresh_and_unlinked E d ctx s p s' :
  vst2_plugin_new E d ctx s = Some (Some p, s') →
  plugins s !! p = None ∧ (p ∉ blocks s) ∧ p ∈ blocks s'
  ∧ blocks s ⊆ blocks s' ∧ procinfo s' = procinfo s
  ∧ (∀ q, q ≠ p → plugins s' !! q = plugins s !! q)
  ∧ ∃ x, plugins s' !! p = Some x
         ∧ desc x = d
         ∧ copies x = vst2_plugin_desc_get_copies E d (channels ctx)
         ∧ enabled x = false ∧ wet_dry_enabled x = false
         ∧ next x = None ∧ prev x = None.
Proof.
  intros Hrun.
  destruct (vst2_plugin_new_frame _ _ _ _ _ _ Hrun)
    as (H1 & H2 & H3 & H4 & H5 & H6 & H7).
  repeat (split; [done|]).
  apply header_lookup in H7 as (x & Hx & [= ? ? ? ? ? ?]). by exists x.
Qed.

Lemma new_plugin_is_fresh_and_unlinked_witness :
  plugins rack3 !! 6%positive = None ∧ (6%positive ∉ blocks rack3)
  ∧ 6%positive ∈ blocks rack3_created
  ∧ blocks rack3 ⊆ blocks rack3_created
  ∧ procinfo rack3_created = procinfo rack3
  ∧ (∀ q, q ≠ 6%positive → plugins rack3_created !! q = plugins rack3 !! q)
  ∧ ∃ x, plugins rack3_created !! 6%positive = Some x
         ∧ desc x = demo_desc
         ∧ copies x
           = vst2_plugin_desc_get_copies demo_extern demo_desc
               (channels demo_context)
         ∧ enabled x = false ∧ wet_dry_enabled x = false
         ∧ next x = None ∧ prev x = None.
Proof.
  apply (new_plugin_is_fresh_and_unlinked demo_extern demo_desc demo_context
           rack3 6%positive rack3_created).
  vm_compute. reflexivity.
Defined.

(** X13.  The plugin that creation returns has one holder for each copy,
    and the copies share one effect: its number of copies is not negative
    and is the length of [holders], every holder has as its effect the one
    effect of the descriptor, and the mirror of its control ports is NULL
    for a descriptor without control ports and holds the default of every
    control port otherwise. *)
Theorem new_plugin_has_its_holders E d ctx s p s' :
  vst2_plugin_new E d ctx s = Some (Some p, s') →
  ∃ x, plugins s' !! p = Some x
       ∧ 0 ≤ copies x
       ∧ length (holders x) = Z.to_nat (copies x)
       ∧ ∀ h, h ∈ holders x →
           holder_effect h = desc_effect d ∧ mirror_seeded E d h.
Proof.
  intros Hrun.
  destruct (vst2_plugin_new_frame _ _ _ _ _ _ Hrun)
    as (_ & _ & _ & _ & _ & _ & H7).
  destruct (vst2_plugin_new_holders _ _ _ _ _ _ Hrun) as [Hc Hall].
  apply header_lookup in H7 as (x & Hx & [= _ _ Hcx _ _ _]).
  rewrite <-Hcx in Hc, Hall.
  assert (∀ i, holder_of p i s' = holders x !! i) as Hof.
  { intros i. unfold holder_of. by rewrite Hx. }
  exists x. split; [done|]. split; [done|]. split.
  - apply Nat.le_antisymm.
    + specialize (Hall (Z.to_nat (copies x))).
      rewrite decide_False, Hof in Hall by lia.
      by apply lookup_ge_None in Hall.
    + destruct (decide (length (holders x) < Z.to_nat (copies x))%nat)
        as [Hlt|]; [|lia].
      specialize (Hall (length (holders x))).
      rewrite decide_True, Hof in Hall by done.
      destruct Hall as (h & Hh & _). apply lookup_lt_Some in Hh. lia.
  - intros h Hh. apply list_elem_of_lookup in Hh as [i Hi].
    specialize (Hall i). rewrite Hof, Hi in Hall.
    case_decide; [|done]. destruct Hall as (h' & [= <-] & ? & ?). done.
Qed.

Lemma new_plugin_has_its_holders_witness :
  ∃ x, plugins demo_created !! 2%positive = Some x
       ∧ 0 ≤ copies x
       ∧ length (holders x) = Z.to_nat (copies x)
       ∧ ∀ h, h ∈ holders x →
           holder_effect h = desc_effect demo_desc
           ∧ mirror_seeded demo_extern demo_desc h.
Proof.
  apply (new_plugin_has_its_holders demo_extern demo_desc demo_context
           nothing 2%positive demo_created).
  vm_compute. reflexivity.
Defined.

(** X16.  A plugin fresh from creation can be appended: created in a state
    with a consistent chain, it is not in the chain, which is as it was,
    and appending it returns and makes it the tail of a consistent chain. *)
Theorem new_plugin_can_be_appended E d ctx s l p s' :
  chain_ok s l →
  vst2_plugin_new E d ctx s = Some (Some p, s') →
  consistent s' l ∧ ¬ linked s' p
  ∧ ∃ s'', vst2_process_add_plugin p s' = Some ((), s'')
           ∧ consistent s'' (l ++ [p]).
Proof.
  intros Hok Hrun.
  destruct (vst2_plugin_new_frame _ _ _ _ _ _ Hrun)
    as (Hp & _ & _ & _ & Hpi & Hfr & Hh).
  assert (p ∉ l) as Hpl.
  { intros Hin. destruct (chain_ok_lookup _ _ _ Hok Hin) as [x Hx].
    congruence. }
  assert (chain_ok s' l) as Hok'.
  { destruct Hok as (Hnd & Hc & He & Hs). unfold chain_ok. rewrite Hpi.
    repeat split; try done. eapply dseg_frame; [|exact Hs].
    intros q Hq. apply Hfr. by intros ->. }
  apply header_lookup in Hh as (x & Hx & _).
  split; [by apply chain_ok_consistent|].
  split; [by rewrite (chain_ok_linked _ _ _ Hok')|].
  destruct (add_plugin_run _ _ _ _ Hok' Hpl Hx) as (s'' & Hadd & Hok'' & _).
  exists s''. split; [done|]. by apply chain_ok_consistent.
Qed.

Lemma new_plugin_can_be_appended_witness :
  consistent rack3_created [1; 2; 3]%positive
  ∧ ¬ linked rack3_created 6%positive
  ∧ ∃ s'', vst2_process_add_plugin 6%positive rack3_created = Some ((), s'')
           ∧ consistent s'' ([1; 2; 3]%positive ++ [6%positive]).
Proof.
  apply (new_plugin_can_be_appended demo_extern demo_desc demo_context rack3
           [1; 2; 3]%positive 6%positive rack3_created).
  - by apply chain_okb_correct.
  - vm_compute. reflexivity.
Defined.

(* --------------------------------------------------------------------- *)
(** *** The pushes of defaults *)

Lemma same_calls_refl s : same_calls s s.
Proof. done. Qed.

Lemma same_calls_trans s1 s2 s3 :
  same_calls s1 s2 → same_calls s2 s3 → same_calls s1 s3.
Proof. unfold same_calls. congruence. Qed.

Lemma set_parameter_calls_cons e tr :
  set_parameter_calls (e :: tr)
  = set_parameter_calls tr
    ++ match e with
       | EvSetParameter a i v => [(a, i, v)]
       | _ => []
       end.
Proof.
  unfold set_parameter_calls. cbn [rev]. rewrite omap_app. f_equal.
  by destruct e.
Qed.

(** A call to something else than [setParameter]. *)
Lemma same_calls_emit e :
  match e with EvSetParameter _ _ _ => False | _ => True end →
  preserves same_calls (emit e).
Proof.
  intros He s. unfold wp, emit, same_calls. snorm.
  rewrite set_parameter_calls_cons. destruct e; try done; apply app_nil_r.
Qed.

Lemma same_calls_g_malloc n : preserves same_calls (g_malloc n).
Proof. intros s. unfold wp, g_malloc. by repeat case_decide. Qed.

Lemma same_calls_store p f : preserves same_calls (store p f).
Proof. intros s. unfold wp, store. by destruct (plugins s !! p). Qed.

Ltac calls_tac :=
  repeat first
    [ apply same_calls_g_malloc | apply same_calls_store
    | apply same_calls_emit; [exact I]
    | apply preserves_fault
    | apply preserves_ret; [apply same_calls_refl]
    | apply preserves_load; [apply same_calls_refl]
    | apply preserves_get_state; [apply same_calls_refl]
    | apply preserves_get_procinfo; [apply same_calls_refl]
    | apply preserves_array_get; [apply same_calls_refl]
    | apply preserves_array_set; [apply same_calls_refl]
    | apply preserves_deref; [apply same_calls_refl]
    | apply preserves_for_loop;
        [apply same_calls_refl|apply same_calls_trans|intros ? ?]
    | apply preserves_bind; [apply same_calls_trans| |intros ?]
    | match goal with
      | |- preserves _ (if ?c then _ else _) => destruct c
      | |- preserves _ (match ?x with _ => _ end) => destruct x
      end ].

Lemma same_calls_modify_holder p copy f :
  preserves same_calls (modify_holder p copy f).
Proof. unfold modify_holder. calls_tac. Qed.

Lemma same_calls_load_holder p copy :
  preserves same_calls (load_holder p copy).
Proof. unfold load_holder. calls_tac. Qed.

Lemma same_calls_lff_init a b : preserves same_calls (lff_init a b).
Proof. unfold lff_init. calls_tac. Qed.

Lemma same_calls_create_aux_ports E p copy ctx :
  preserves same_calls (vst2_plugin_create_aux_ports E p copy ctx).
Proof.
  unfold vst2_plugin_create_aux_ports.
  repeat first [ apply same_calls_load_holder | apply same_calls_modify_holder
               | calls_tac ].
Qed.

Section pushes.
Variables (p : ptr) (copy : nat).

(** A step that neither assigns the effect or the mirror of the holder nor
    calls [setParameter]. *)
Lemma keep_pushes_state {A} (m : M A) :
  preserves (same_holder_field holder_effect p copy) m →
  preserves (same_holder_field control_memory p copy) m →
  preserves same_calls m →
  preserves (λ s s', pushes_state p copy s' = pushes_state p copy s) m.
Proof.
  intros H1 H2 H3 s. specialize (H1 s). specialize (H2 s). specialize (H3 s).
  unfold wp in *. destruct (m s) as [[a s']|]; [|done].
  unfold pushes_state, same_holder_field, same_calls in *. congruence.
Qed.

(** [setParameter (effect, control_port_indicies[i] - ..., control_memory[i])]
    needs both elements and changes the trace only. *)
Lemma wp_push_control i d e v s :
  holder_effect <$> holder_of p copy s = Some (Some e) →
  control_memory <$> holder_of p copy s = Some (Some v) →
  wp (push_control p copy i d)
     (λ _ s', ∃ port c,
        desc_control_port_indicies d !! i = Some port
        ∧ v !! i = Some (Some c)
        ∧ s' = with_trace
                 (EvSetParameter (effect_addr e)
                    (to_int32 (Z.of_N port - (numInputs e + numOutputs e))) c
                  :: trace s) s) s.
Proof.
  intros He Hv. unfold holder_of in He, Hv.
  unfold wp, push_control, load_holder, load, array_get, deref, emit, fault,
    mbind, M_bind, mret, M_ret.
  destruct (plugins s !! p) as [x|]; cbv beta iota; [|done].
  destruct (holders x !! copy) as [h|]; cbv beta iota; [|done].
  cbn in He, Hv. injection He as He. injection Hv as Hv.
  rewrite He. cbv beta iota.
  destruct (desc_control_port_indicies d !! i) as [port|]; cbv beta iota;
    [|done].
  rewrite Hv. cbv beta iota.
  match goal with
  | |- context [@lookup ?K ?A ?B ?I i v] =>
    destruct (@lookup K A B I i v) as [c0|] eqn:Hvi
  end; cbv beta iota; [|done].
  destruct c0 as [c|]; cbv beta iota; [|done].
  exists port, c. split; [done|]. split; [exact Hvi|done].
Qed.

Lemma holder_of_with_trace tr s : holder_of p copy (with_trace tr s) = holder_of p copy s.
Proof. done. Qed.

(** [holder = plugin->holders + copy], a field of it being known. *)
Lemma wp_load_holder_field {T} (proj : vst2_holder_t → T) t
  (Q : vst2_holder_t → state → Prop) s :
  proj <$> holder_of p copy s = Some t →
  (∀ h, proj h = t → Q h s) →
  wp (load_holder p copy) Q s.
Proof.
  intros Ht HQ. unfold holder_of in Ht.
  unfold wp, load_holder, load, array_get, fault, mbind, M_bind, mret, M_ret.
  destruct (plugins s !! p) as [x|]; cbv beta iota; [|done].
  destruct (holders x !! copy) as [h|]; cbv beta iota; [|done].
  apply HQ. cbn in Ht. congruence.
Qed.

Ltac keep_tac :=
  apply keep_pushes_state;
  [ by field_tac
  | by field_tac
  | solve [ repeat first [ apply same_calls_load_holder
                         | apply same_calls_modify_holder
                         | apply same_calls_lff_init
                         | apply same_calls_create_aux_ports
                         | calls_tac ] ] ].

Lemma default_pushes_S E d e i port :
  desc_control_port_indicies d !! i = Some port →
  default_pushes E d e (S i)
  = default_pushes E d e i
    ++ [(effect_addr e,
         to_int32 (Z.of_N port - (numInputs e + numOutputs e)),
         vst2_plugin_desc_get_default_control_value E d port
           (vst2_sample_rate E))].
Proof.
  intros Hport. unfold default_pushes.
  by rewrite (take_S_r _ _ _ Hport), fmap_app.
Qed.

(** The loop of [vst2_plugin_init_holder] over the control ports. *)
Lemma wp_pushes_first_loop E d e n C : ∀ s,
  holder_effect <$> holder_of p copy s = Some (Some e) →
  (∃ v, control_memory <$> holder_of p copy s = Some (Some v)
        ∧ length v = n) →
  set_parameter_calls (trace s) = C →
  wp (for_loop n 0 (λ i _,
        f ← lff_init CONTROL_FIFO_SIZE sizeof_LADSPA_Data;
        h ← load_holder p copy;
        fifos ← deref (ui_control_fifos h);
        fifos ← array_set fifos i (Some f);
        modify_holder p copy (set_ui_control_fifos (Some fifos));;
        port ← array_get (desc_control_port_indicies d) i;
        h ← load_holder p copy;
        memory ← deref (control_memory h);
        memory ← array_set memory i
          (Some (vst2_plugin_desc_get_default_control_value E d port
                   (vst2_sample_rate E)));
        modify_holder p copy (set_control_memory (Some memory));;
        push_control p copy i d) ())
     (λ _ s', ∃ v,
        pushes_state p copy s'
        = (Some (Some e), Some (Some v), C ++ default_pushes E d e n)
        ∧ length v = n ∧ seeded E d n v
        ∧ (n ≤ length (desc_control_port_indicies d))%nat) s.
Proof.
  intros s He Hv HC.
  eapply wp_mono;
    [|apply (wp_for_loop (λ i _ s', ∃ v,
               pushes_state p copy s'
               = (Some (Some e), Some (Some v), C ++ default_pushes E d e i)
               ∧ length v = n ∧ seeded E d i v
               ∧ (i ≤ length (desc_control_port_indicies d))%nat))].
  - cbn beta. intros _ s' (v & ? & ? & ? & ?). eauto.
  - intros i [] t Hi (v & HO & Hl & Hj & Hle).
    eapply (wp_keep (pushes_state p copy)); [keep_tac|exact HO|].
    intros f t2 H2.
    eapply (wp_keep (pushes_state p copy)); [keep_tac|exact H2|].
    intros h t3 H3.
    eapply (wp_keep (pushes_state p copy)); [keep_tac|exact H3|].
    intros fs t4 H4.
    eapply (wp_keep (pushes_state p copy)); [keep_tac|exact H4|].
    intros fs' t5 H5.
    eapply (wp_keep (pushes_state p copy)); [keep_tac|exact H5|].
    intros _ t6 H6. clear t t2 t3 t4 t5 HO H2 H3 H4 H5.
    unfold array_get at 1.
    destruct (desc_control_port_indicies d !! i) as [port|] eqn:Hport;
      [|done].
    apply wp_bind, wp_ret. cbn beta.
    injection H6 as He6 Hv6 HC6.
    apply wp_bind.
    apply (wp_load_holder_field control_memory (Some v)); [done|].
    intros h' ->. apply wp_bind, wp_ret. cbn beta.
    unfold array_set. case_decide as Hlt; [|done].
    apply wp_bind, wp_ret. cbn beta.
    apply wp_bind. eapply wp_mono.
    2:{ apply wp_conj; [apply wp_set_control_memory|].
        apply wp_conj;
          [apply (field_modify_holder holder_effect p copy); by right
          |apply same_calls_modify_holder]. }
    cbn beta. intros [] t7 (Hv7 & He7 & HC7).
    rewrite control_memory_of_holder in Hv7.
    unfold same_holder_field in He7. unfold same_calls in HC7.
    rewrite He6 in He7. rewrite HC6 in HC7.
    eapply wp_mono; [|apply (wp_push_control i d e _ t7 He7 Hv7)].
    cbn beta. intros [] t8 (port' & c & Hport' & Hc & ->).
    rewrite list_lookup_insert_eq in Hc by done.
    assert (port' = port) as -> by congruence.
    injection Hc as <-.
    eexists. split; [|split; [|split]].
    + unfold pushes_state. rewrite holder_of_with_trace, He7, Hv7. snorm.
      rewrite set_parameter_calls_cons, HC7, <-app_assoc.
      by rewrite (default_pushes_S _ _ _ _ _ Hport).
    + by rewrite length_insert.
    + intros j port'' Hjs Hport''.
      destruct (decide (j = i)) as [->|].
      * rewrite list_lookup_insert_eq by done. congruence.
      * rewrite list_lookup_insert_ne by done. apply Hj; [lia|done].
    + apply lookup_lt_Some in Hport. lia.
  - destruct Hv as (v & Hv & Hl). exists v.
    split; [|split; [done|split; [|lia]]].
    + unfold pushes_state. rewrite He, Hv, HC. unfold default_pushes.
      by rewrite take_0, app_nil_r.
    + intros j port Hj. lia.
Qed.

(** The loop of [vst2_plugin_init_holder] over the status ports. *)
Lemma wp_pushes_second_loop E d e n m v C : ∀ s,
  pushes_state p copy s = (Some (Some e), Some (Some v), C) →
  length v = n → seeded E d n v →
  wp (for_loop m 0 (λ i _, push_control p copy i d) ())
     (λ _ s',
        pushes_state p copy s'
        = (Some (Some e), Some (Some v), C ++ default_pushes E d e m)
        ∧ (m ≤ n)%nat) s.
Proof.
  intros s HO Hl Hseed.
  eapply wp_mono;
    [|apply (wp_for_loop (λ i _ s',
               pushes_state p copy s'
               = (Some (Some e), Some (Some v), C ++ default_pushes E d e i)
               ∧ (i ≤ n)%nat))].
  - cbn beta. by intros _ s' ?.
  - intros i [] t Hi [Ht Hin]. injection Ht as He Hv HC.
    eapply wp_mono; [|apply (wp_push_control i d e v t He Hv)].
    cbn beta. intros [] t' (port & c & Hport & Hc & ->).
    assert (i < n)%nat as Hlt.
    { rewrite <-Hl. eapply lookup_lt_Some. exact Hc. }
    rewrite (Hseed i port Hlt Hport) in Hc. injection Hc as <-.
    split; [|lia].
    unfold pushes_state. rewrite holder_of_with_trace, He, Hv. snorm.
    rewrite set_parameter_calls_cons, HC, <-app_assoc.
    by rewrite (default_pushes_S _ _ _ _ _ Hport).
  - split; [|lia]. rewrite HO. unfold default_pushes.
    by rewrite take_0, app_nil_r.
Qed.
End pushes.

Ltac keep_tac :=
  apply keep_pushes_state;
  [ by field_tac
  | by field_tac
  | solve [ repeat first [ apply same_calls_load_holder
                         | apply same_calls_modify_holder
                         | apply same_calls_lff_init
                         | apply same_calls_create_aux_ports
                         | calls_tac ] ] ].

(** What follows the loop over the control ports in
    [vst2_plugin_init_holder]. *)
Lemma wp_pushes_rest E p copy ctx d e n cm C s :
  pushes_state p copy s = (Some (Some e), Some cm, C) →
  (∀ v, cm = Some v → length v = n ∧ seeded E d n v) →
  wp ((if decide (0 < desc_status_port_count d)%N then
         _ ← g_malloc (Z.of_N (desc_status_port_count d));
         modify_holder p copy
           (set_status_memory
              (Some (replicate (N.to_nat (desc_status_port_count d)) None)))
       else modify_holder p copy (set_status_memory None));;
      h ← load_holder p copy;
      (if control_memory h is Some _ then
         for_loop (N.to_nat (desc_status_port_count d)) 0
           (λ i _, push_control p copy i d) ()
       else mret ());;
      procinfo ← get_procinfo;
      if decide (is_Some (jack_client procinfo)
                 ∧ (0 < desc_aux_channels d)%N)
      then vst2_plugin_create_aux_ports E p copy ctx
      else mret ())
     (λ _ s',
        set_parameter_calls (trace s')
        = C ++ (if cm is Some _
                then default_pushes E d e
                       (N.to_nat (desc_status_port_count d))
                else [])
        ∧ (is_Some cm → (N.to_nat (desc_status_port_count d) ≤ n)%nat)) s.
Proof.
  intros HO Hcm.
  eapply (wp_keep (pushes_state p copy)); [keep_tac|exact HO|].
  intros _ s1 H1. clear s HO.
  apply wp_bind.
  apply (wp_load_holder_field p copy control_memory cm);
    [by injection H1 as _ -> _|].
  intros h <-.
  destruct (control_memory h) as [v|].
  - destruct (Hcm v eq_refl) as [Hl Hseed].
    apply wp_bind. eapply wp_mono;
      [|by apply (wp_pushes_second_loop p copy E d e n _ v C)].
    cbn beta. intros [] s2 [H2 Hle].
    eapply (wp_preserved
              (λ s s', pushes_state p copy s' = pushes_state p copy s));
      [keep_tac|].
    intros a s' H'. rewrite H2 in H'. injection H' as _ _ ->.
    split; [done|]. done.
  - apply wp_bind, wp_ret. cbn beta.
    eapply (wp_preserved
              (λ s s', pushes_state p copy s' = pushes_state p copy s));
      [keep_tac|].
    intros a s' H'. rewrite H1 in H'. injection H' as _ _ ->.
    rewrite app_nil_r. split; [done|]. by intros [? ?].
Qed.

(** The calls of [setParameter] that [vst2_plugin_init_holder] makes. *)
Lemma init_holder_pushes E p copy e ctx s s' x :
  plugins s !! p = Some x →
  vst2_plugin_init_holder E p copy (Some e) ctx s = Some ((), s') →
  set_parameter_calls (trace s')
  = set_parameter_calls (trace s)
    ++ default_pushes E (desc x) e
         (N.to_nat (desc_control_port_count (desc x)))
    ++ (if decide (0 < desc_control_port_count (desc x))%N
        then default_pushes E (desc x) e
               (N.to_nat (desc_status_port_count (desc x)))
        else [])
  ∧ (N.to_nat (desc_control_port_count (desc x))
     ≤ length (desc_control_port_indicies (desc x)))%nat
  ∧ ((0 < desc_control_port_count (desc x))%N →
     (desc_status_port_count (desc x) ≤ desc_control_port_count (desc x))%N).
Proof.
  intros Hx Hrun.
  refine (wp_run _ (λ _ s', _) _ _ _ _ Hrun). clear Hrun.
  unfold vst2_plugin_init_holder. apply wp_bind. unfold wp at 1, load.
  rewrite Hx. cbn zeta.
  set (d := desc x). set (n := N.to_nat (desc_control_port_count d)).
  set (C := set_parameter_calls (trace s)).
  apply wp_bind. eapply wp_mono.
  2:{ apply wp_conj;
        [apply wp_set_holder_effect|apply same_calls_modify_holder]. }
  cbn beta. intros [] s1 [He1 HC1]. unfold same_calls in HC1. fold C in HC1.
  clearbody C. clear s Hx.
  destruct (decide (0 < desc_control_port_count d)%N) as [Hc|Hc].
  - apply wp_bind. 
    eapply (wp_keep (pushes_state p copy)); [keep_tac|reflexivity|].
    intros _ s2 H2.
    eapply (wp_keep (pushes_state p copy)); [keep_tac|exact H2|].
    intros _ s3 H3.
    eapply (wp_keep (pushes_state p copy)); [keep_tac|exact H3|].
    intros _ s4 H4. injection H4 as He4 _ HC4.
    rewrite He1 in He4. rewrite HC1 in HC4.
    eapply wp_mono.
    2:{ apply wp_conj; [apply wp_set_control_memory|].
        apply wp_conj;
          [apply (field_modify_holder holder_effect p copy); by right
          |apply same_calls_modify_holder]. }
    cbn beta. intros [] s5 (Hv5 & He5 & HC5).
    rewrite control_memory_of_holder in Hv5.
    unfold same_holder_field in He5. unfold same_calls in HC5.
    rewrite He4 in He5. rewrite HC4 in HC5.
    apply wp_bind. eapply wp_mono.
    2:{ apply (wp_pushes_first_loop p copy E d e n C); [done| |done].
        eexists. split; [done|]. by rewrite length_replicate. }
    cbn beta. intros [] s6 (v & H6 & Hl & Hseed & Hle).
    eapply wp_mono;
      [|apply (wp_pushes_rest E p copy ctx d e n (Some v) _ s6 H6)].
    + cbn beta. intros [] t' [HC' Hm]. rewrite HC', <-app_assoc.
      split; [done|]. split; [done|]. intros _.
      specialize (Hm (ltac:(by eexists))). unfold n in Hm. lia.
    + by intros ? [= <-].
  - apply wp_bind.
    eapply (wp_keep (pushes_state p copy)); [keep_tac|reflexivity|].
    intros _ s2 H2. injection H2 as He2 _ HC2.
    rewrite He1 in He2. rewrite HC1 in HC2.
    eapply wp_mono.
    2:{ apply wp_conj; [apply wp_set_control_memory|].
        apply wp_conj;
          [apply (field_modify_holder holder_effect p copy); by right
          |apply same_calls_modify_holder]. }
    cbn beta. intros [] s3 (Hv3 & He3 & HC3).
    rewrite control_memory_of_holder in Hv3.
    unfold same_holder_field in He3. unfold same_calls in HC3.
    rewrite He2 in He3. rewrite HC2 in HC3.
    replace n with 0%nat by lia. cbn [for_loop].
    apply wp_bind, wp_ret. cbn beta.
    eapply wp_mono;
      [|apply (wp_pushes_rest E p copy ctx d e 0 None C s3)].
    + cbn beta. intros [] t' [HC' _]. rewrite HC'.
      unfold default_pushes. rewrite take_0. cbn. split; [done|].
      split; [lia|]. intros ?. lia.
    + unfold pushes_state. by rewrite He3, Hv3, HC3.
    + done.
Qed.

(** X15.  The defaults pushed to the effect: when
    [vst2_plugin_init_holder] returns, the calls of [setParameter] it has
    made are, in this order, one for each control port, with the index of
    the port less the number of audio ports of the effect and the default
    value of the port, and then, for a descriptor with control ports, the
    same calls over again for the first [status_port_count] control ports;
    it makes no other call of [setParameter]. *)
Theorem init_holder_set_parameter_calls E p copy e ctx s s' x :
  plugins s !! p = Some x →
  vst2_plugin_init_holder E p copy (Some e) ctx s = Some ((), s') →
  set_parameter_calls (trace s')
  = set_parameter_calls (trace s)
    ++ default_pushes E (desc x) e
         (N.to_nat (desc_control_port_count (desc x)))
    ++ (if decide (0 < desc_control_port_count (desc x))%N
        then default_pushes E (desc x) e
               (N.to_nat (desc_status_port_count (desc x)))
        else []).
Proof.
  intros Hx Hrun. by destruct (init_holder_pushes _ _ _ _ _ _ _ _ Hx Hrun).
Qed.

Lemma init_holder_set_parameter_calls_witness :
  set_parameter_calls (trace bare1_initialised)
  = set_parameter_calls (trace bare1)
    ++ default_pushes demo_extern demo_desc demo_effect
         (N.to_nat (desc_control_port_count demo_desc))
    ++ (if decide (0 < desc_control_port_count demo_desc)%N
        then default_pushes demo_extern demo_desc demo_effect
               (N.to_nat (desc_status_port_count demo_desc))
        else []).
Proof.
  apply (init_holder_set_parameter_calls demo_extern 1%positive 0%nat
           demo_effect demo_context bare1 bare1_initialised
           {| desc := demo_desc; enabled := false; copies := 1;
              holders := [indeterminate_holder];
              audio_output_memory := []; wet_dry_enabled := false;
              wet_dry_values := []; wet_dry_fifos := [];
              next := None; prev := None |}).
  - reflexivity.
  - vm_compute. reflexivity.
Defined.

(** X17.  The bounds of the control port arrays: the initialisation of a
    holder has no defined result for a descriptor whose
    [control_port_indicies] has fewer than [control_port_count] elements,
    nor for one with control ports and more status ports than control
    ports, for which the loop over the status ports reads
    [control_port_indicies] and the mirror out of bounds. *)
Theorem init_holder_out_of_bounds E p copy e ctx s x :
  plugins s !! p = Some x →
  (length (desc_control_port_indicies (desc x))
   < N.to_nat (desc_control_port_count (desc x)))%nat
  ∨ (0 < desc_control_port_count (desc x)
     < desc_status_port_count (desc x))%N →
  vst2_plugin_init_holder E p copy (Some e) ctx s = None.
Proof.
  intros Hx Hb.
  destruct (vst2_plugin_init_holder E p copy (Some e) ctx s)
    as [[[] s']|] eqn:Hrun; [|done].
  destruct (init_holder_pushes _ _ _ _ _ _ _ _ Hx Hrun) as (_ & Hn & Hm).
  destruct Hb as [Hb|[Hb1 Hb2]]; [lia|]. specialize (Hm Hb1). lia.
Qed.

Lemma init_holder_out_of_bounds_witness :
  vst2_plugin_init_holder demo_extern 1%positive 0 (Some demo_effect)
    demo_context bare_heavy = None.
Proof.
  apply (init_holder_out_of_bounds demo_extern 1%positive 0%nat demo_effect
           demo_context bare_heavy
           {| desc := status_heavy_desc; enabled := false; copies := 1;
              holders := [indeterminate_holder];
              audio_output_memory := []; wet_dry_enabled := false;
              wet_dry_values := []; wet_dry_fifos := [];
              next := None; prev := None |}).
  - reflexivity.
  - right. vm_compute. done.
Defined.

(* ===================================================================== *)
(** ** The names of the auxiliary ports *)
(* ===================================================================== *)

Lemma string_length_app (s1 s2 : string) :
  String.length (s1 +:+ s2) = (String.length s1 + String.length s2)%nat.
Proof. induction s1 as [|c s1 IH]; simpl; [done|]. by f_equal. Qed.

Lemma length_map_string f s : String.length (map_string f s) = String.length s.
Proof. induction s as [|c s IH]; simpl; [done|]. by f_equal. Qed.

Lemma length_g_strndup s n : (String.length (g_strndup s n) ≤ n)%nat.
Proof.
  revert s. induction n as [|n IH]; intros [|c s]; cbn; try lia.
  specialize (IH s). lia.
Qed.

Lemma jack_worthy_ok c : jack_worthy_char (jack_worthy c).
Proof.
  unfold jack_worthy, jack_worthy_char. cbn zeta.
  pose proof (nat_ascii_bounded c) as Hb.
  repeat case_decide.
  - change (nat_of_ascii "_") with 95%nat. lia.
  - rewrite nat_ascii_embedding by lia. lia.
  - lia.
Qed.

Lemma string_Forall_map_jack_worthy s :
  string_Forall jack_worthy_char (map_string jack_worthy s).
Proof.
  induction s as [|c s IH]; cbn; [done|]. split; [apply jack_worthy_ok|done].
Qed.

(** The decimal numeral of a number below [10 ^ k] has at most [k]
    digits. *)
Lemma length_pretty_N_go k : ∀ x s,
  (x < 10 ^ N.of_nat k)%N →
  (String.length (pretty_N_go x s) ≤ k + String.length s)%nat.
Proof.
  induction k as [|k IH]; intros x s Hx.
  - assert (x = 0%N) as -> by (cbn in Hx; lia). rewrite pretty_N_go_0. lia.
  - destruct (decide (x = 0%N)) as [->|Hne].
    { rewrite pretty_N_go_0. lia. }
    rewrite pretty_N_go_step by lia.
    etrans; [apply IH|cbn; lia].
    rewrite Nat2N.inj_succ, N.pow_succ_r' in Hx.
    apply N.Div0.div_lt_upper_bound. lia.
Qed.

Lemma length_pretty_N k x :
  (0 < k)%nat → (x < 10 ^ N.of_nat k)%N →
  (String.length (pretty x) ≤ k)%nat.
Proof.
  intros Hk Hx. unfold pretty, pretty_N. case_decide; [cbn; lia|].
  etrans; [by apply length_pretty_N_go|]. cbn. lia.
Qed.

(** X18.  The name of an auxiliary port is jack worthy and fits its
    buffer: it begins with at most seven characters of the name of the
    plugin, none of them a blank or an upper case letter, followed by the
    plugin index 1, the number of the copy and the direction and number of
    the channel; for a copy and a channel that [%d] and [%ld] print as they
    are, it is shorter than the 64 bytes of [port_name]. *)
Theorem aux_port_name_fits d copy aux_channel :
  (N.of_nat copy + 1 < 2 ^ 31)%N → (aux_channel < 2 ^ 63)%N →
  aux_port_name d copy aux_channel
  = (aux_port_prefix d +:+ "_1-" +:+ pretty (N.of_nat copy + 1)%N +:+ "_"
     +:+ (if desc_aux_are_input d then "i" else "o")
     +:+ pretty aux_channel)%string
  ∧ (String.length (aux_port_prefix d) ≤ 7)%nat
  ∧ string_Forall jack_worthy_char (aux_port_prefix d)
  ∧ (String.length (aux_port_name d copy aux_channel) < port_name_size)%nat.
Proof.
  intros Hcopy Hch. split; [reflexivity|].
  assert (String.length (aux_port_prefix d) ≤ 7)%nat as Hp.
  { unfold aux_port_prefix. rewrite length_map_string.
    apply length_g_strndup. }
  split; [done|]. split; [apply string_Forall_map_jack_worthy|].
  unfold aux_port_name, port_name_size. cbn zeta. fold (aux_port_prefix d).
  rewrite !string_length_app.
  pose proof (length_pretty_N 10 (N.of_nat copy + 1)%N) as H1.
  pose proof (length_pretty_N 19 aux_channel) as H2.
  assert (String.length
            (if desc_aux_are_input d then "i" else "o")%string = 1%nat) as H3
    by (by destruct (desc_aux_are_input d)).
  rewrite H3. cbn [String.length pretty pretty_N decide].
  assert (String.length (pretty 1%N) = 1%nat) as H4 by reflexivity.
  rewrite H4.
  specialize (H1 ltac:(lia) ltac:(cbn; lia)).
  specialize (H2 ltac:(lia) ltac:(cbn; lia)).
  cbn in *. lia.
Qed.

Lemma aux_port_name_fits_witness :
  aux_port_name demo_desc 0 1
  = (aux_port_prefix demo_desc +:+ "_1-" +:+ pretty (N.of_nat 0 + 1)%N +:+ "_"
     +:+ (if desc_aux_are_input demo_desc then "i" else "o")
     +:+ pretty 1%N)%string
  ∧ (String.length (aux_port_prefix demo_desc) ≤ 7)%nat
  ∧ string_Forall jack_worthy_char (aux_port_prefix demo_desc)
  ∧ (String.length (aux_port_name demo_desc 0 1) < port_name_size)%nat.
Proof.
  apply (aux_port_name_fits demo_desc 0%nat 1%N).
  - vm_compute. reflexivity.
  - vm_compute. reflexivity.
Defined.

(* --------------------------------------------------------------------- *)
(** *** The registration of the auxiliary ports *)

Lemma port_registrations_cons e tr :
  port_registrations (e :: tr)
  = port_registrations tr
    ++ match e with
       | EvPortRegister name is_input => [(name, is_input)]
       | _ => []
       end.
Proof.
  unfold port_registrations. cbn [rev]. rewrite omap_app. f_equal.
  by destruct e.
Qed.

Lemma same_registrations_modify_holder p copy f :
  preserves same_registrations (modify_holder p copy f).
Proof.
  intros s. unfold wp, modify_holder, load, array_get, store, fault,
    mbind, M_bind, mret, M_ret.
  destruct (plugins s !! p) as [x|] eqn:Hx; cbv beta iota; [|done].
  destruct (holders x !! copy) as [h|]; cbv beta iota; [|done].
  by rewrite Hx.
Qed.

Lemma same_registrations_g_malloc n :
  preserves same_registrations (g_malloc n).
Proof. intros s. unfold wp, g_malloc. by repeat case_decide. Qed.

(** [holder->aux_ports = v]. *)
Lemma wp_set_aux_ports p copy v s :
  wp (modify_holder p copy (set_aux_ports v))
     (λ _ s', aux_ports <$> holder_of p copy s' = Some v) s.
Proof.
  unfold wp, modify_holder, load, array_get, store. rewrite !bind_run.
  destruct (plugins s !! p) as [x|] eqn:Hx; [|done].
  rewrite bind_run.
  destruct (holders x !! copy) as [h|] eqn:Hh; [|done].
  rewrite ret_run, Hx. unfold holder_of. snorm.
  rewrite lookup_insert_eq. cbn [holders set_holders].
  by rewrite list_lookup_insert_eq by (by eapply lookup_lt_Some).
Qed.

Lemma aux_port_registrations_S d copy i :
  aux_port_registrations d copy (S i)
  = aux_port_registrations d copy i
    ++ [(aux_port_name d copy (1 + N.of_nat i), desc_aux_are_input d)].
Proof.
  unfold aux_port_registrations. by rewrite seq_S, fmap_app.
Qed.

(** The ports that [vst2_plugin_create_aux_ports] registers. *)
Lemma create_aux_ports_run E p copy ctx s s' x :
  plugins s !! p = Some x →
  vst2_plugin_create_aux_ports E p copy ctx s = Some ((), s') →
  port_registrations (trace s')
  = port_registrations (trace s)
    ++ aux_port_registrations (desc x) copy
         (N.to_nat (desc_aux_channels (desc x)))
  ∧ ∃ ports,
      aux_ports <$> holder_of p copy s' = Some (Some ports)
      ∧ length ports = N.to_nat (desc_aux_channels (desc x))
      ∧ ∀ port, port ∈ ports → is_Some port.
Proof.
  intros Hx Hrun.
  refine (wp_run _ (λ _ s', _) _ _ _ _ Hrun). clear Hrun s'.
  unfold vst2_plugin_create_aux_ports. apply wp_bind. unfold wp at 1, load.
  rewrite Hx. cbn zeta.
  set (d := desc x). set (n := N.to_nat (desc_aux_channels d)).
  set (R := port_registrations (trace s)).
  apply wp_bind. eapply (wp_preserved same_registrations);
    [apply same_registrations_g_malloc|].
  intros blk s1 H1. unfold same_registrations in H1. fold R in H1.
  clearbody R. clear s Hx.
  apply wp_bind. eapply wp_mono.
  2:{ apply wp_conj;
        [apply wp_set_aux_ports|apply same_registrations_modify_holder]. }
  cbn beta. intros [] s2 [Ha2 H2]. unfold same_registrations in H2.
  rewrite H1 in H2. clear s1 H1.
  eapply wp_mono.
  2:{ apply (wp_for_loop (λ i _ s', ∃ ports,
        aux_ports <$> holder_of p copy s' = Some (Some ports)
        ∧ length ports = n
        ∧ (∀ j port, (j < i)%nat → ports !! j = Some port → is_Some port)
        ∧ port_registrations (trace s')
          = R ++ aux_port_registrations d copy i)).
      - intros i [] t Hi (ports & Ha & Hl & Hsome & HR).
        apply wp_bind. unfold wp at 1, get_state.
        apply wp_bind. unfold wp at 1, emit.
        apply wp_bind.
        apply (wp_load_holder_field p copy aux_ports (Some ports)); [done|].
        intros h ->. apply wp_bind, wp_ret. cbn beta.
        unfold array_set. case_decide as Hlt; [|done].
        apply wp_bind, wp_ret. cbn beta.
        apply wp_bind. eapply wp_mono.
        2:{ apply wp_conj;
              [apply wp_set_aux_ports
              |apply same_registrations_modify_holder]. }
        cbn beta. intros [] t' [Ha' HR'].
        unfold same_registrations in HR'. cbn [trace with_trace] in HR'.
        rewrite port_registrations_cons, HR, <-app_assoc,
          <-aux_port_registrations_S in HR'.
        destruct (jack_port_register E (trace t)
                    (aux_port_name d copy (1 + N.of_nat i))
                    (desc_aux_are_input d)) as [port|] eqn:Hport.
        + apply wp_ret. eexists. split; [done|].
          rewrite length_insert. split; [done|]. split; [|done].
          intros j port' Hj.
          destruct (decide (j = i)) as [->|].
          * rewrite list_lookup_insert_eq by done. by intros [= <-].
          * rewrite list_lookup_insert_ne by done. apply Hsome. lia.
        + by unfold wp, emit, fault, mbind, M_bind.
      - exists (replicate n None). split; [done|].
        rewrite length_replicate. split; [done|]. split; [intros; lia|].
        unfold aux_port_registrations. cbn. by rewrite app_nil_r. }
  cbn beta. intros [] s' (ports & Ha & Hl & Hsome & HR).
  split; [done|]. exists ports. split; [done|]. split; [done|].
  intros port Hin. apply list_elem_of_lookup in Hin as [j Hj].
  apply (Hsome j); [|done]. cbn [Nat.add]. rewrite <-Hl.
  by eapply lookup_lt_Some.
Qed.

Lemma same_registrations_refl s : same_registrations s s.
Proof. done. Qed.

Lemma same_registrations_trans s1 s2 s3 :
  same_registrations s1 s2 → same_registrations s2 s3 →
  same_registrations s1 s3.
Proof. unfold same_registrations. congruence. Qed.

(** A call to something else than [jack_port_register]. *)
Lemma same_registrations_emit e :
  match e with EvPortRegister _ _ => False | _ => True end →
  preserves same_registrations (emit e).
Proof.
  intros He s. unfold wp, emit, same_registrations. snorm.
  rewrite port_registrations_cons. destruct e; try done; apply app_nil_r.
Qed.

Lemma same_registrations_store p f : preserves same_registrations (store p f).
Proof. intros s. unfold wp, store. by destruct (plugins s !! p). Qed.

Ltac registrations_tac :=
  repeat first
    [ apply same_registrations_g_malloc | apply same_registrations_store
    | apply same_registrations_modify_holder
    | apply same_registrations_emit; [exact I]
    | apply preserves_fault
    | apply preserves_ret; [apply same_registrations_refl]
    | apply preserves_load; [apply same_registrations_refl]
    | apply preserves_get_state; [apply same_registrations_refl]
    | apply preserves_get_procinfo; [apply same_registrations_refl]
    | apply preserves_array_get; [apply same_registrations_refl]
    | apply preserves_array_set; [apply same_registrations_refl]
    | apply preserves_deref; [apply same_registrations_refl]
    | apply preserves_for_loop;
        [apply same_registrations_refl|apply same_registrations_trans
        |intros ? ?]
    | apply preserves_bind; [apply same_registrations_trans| |intros ?]
    | match goal with
      | |- preserves _ (if ?c then _ else _) => destruct c
      | |- preserves _ (match ?x with _ => _ end) => destruct x
      end ].

Lemma same_registrations_load_holder p copy :
  preserves same_registrations (load_holder p copy).
Proof. unfold load_holder. registrations_tac. Qed.

Lemma same_registrations_lff_init a b :
  preserves same_registrations (lff_init a b).
Proof. unfold lff_init. registrations_tac. Qed.

Lemma same_registrations_push_control p copy i d :
  preserves same_registrations (push_control p copy i d).
Proof.
  unfold push_control.
  repeat first [ apply same_registrations_load_holder | registrations_tac ].
Qed.

Lemma preserves_conj {A} (R1 R2 : state → state → Prop) (m : M A) :
  preserves R1 m → preserves R2 m → preserves (λ s s', R1 s s' ∧ R2 s s') m.
Proof. intros H1 H2 s. by apply wp_conj. Qed.

Lemma quiet_refl p s : quiet p s s.
Proof. done. Qed.

Lemma quiet_trans p s1 s2 s3 : quiet p s1 s2 → quiet p s2 s3 → quiet p s1 s3.
Proof.
  intros [? ?] [? ?].
  split; [by eapply aside_from_trans|by eapply same_registrations_trans].
Qed.

(** A step of the creation that registers no port. *)
Ltac quiet_tac :=
  apply preserves_conj;
  [ solve [ repeat first
      [ apply aside_from_lff_init | apply aside_from_push_control
      | apply aside_from_modify_holder | apply aside_from_load_holder
      | apply aside_from_emit | apply aside_from_g_malloc
      | apply aside_from_store; [reflexivity]
      | apply preserves_fault
      | apply preserves_ret; [apply aside_from_refl]
      | apply preserves_load; [apply aside_from_refl]
      | apply preserves_array_get; [apply aside_from_refl]
      | apply preserves_array_set; [apply aside_from_refl]
      | apply preserves_deref; [apply aside_from_refl]
      | apply preserves_get_procinfo; [apply aside_from_refl]
      | apply preserves_for_loop;
          [apply aside_from_refl|apply aside_from_trans|intros ? ?]
      | apply preserves_bind; [apply aside_from_trans| |intros ?]
      | match goal with
        | |- preserves _ (if ?c then _ else _) => destruct c
        | |- preserves _ (match ?x with _ => _ end) => destruct x
        end ] ]
  | solve [ repeat first [ apply same_registrations_load_holder
                         | apply same_registrations_lff_init
                         | apply same_registrations_push_control
                         | registrations_tac ] ] ].

(** The ports that the initialisation of a holder registers. *)
Lemma init_holder_registrations E p copy e ctx s s' x :
  plugins s !! p = Some x →
  vst2_plugin_init_holder E p copy e ctx s = Some ((), s') →
  port_registrations (trace s')
  = port_registrations (trace s)
    ++ (if decide (is_Some (jack_client (procinfo s))
                   ∧ (0 < desc_aux_channels (desc x))%N)
        then aux_port_registrations (desc x) copy
               (N.to_nat (desc_aux_channels (desc x)))
        else []).
Proof.
  intros Hx Hrun.
  refine (wp_run _ (λ _ s', _) _ _ _ _ Hrun). clear Hrun s'.
  unfold vst2_plugin_init_holder. apply wp_bind. unfold wp at 1, load.
  rewrite Hx. cbn zeta.
  pose proof (quiet_refl p s) as H0.
  do 4 (eapply (wp_rel (quiet p) _ _ _ s);
        [ apply quiet_trans | quiet_tac | eassumption
        | clear H0; intros ? ? H0 ]).
  eapply (wp_rel (quiet p) _ _ _ s);
    [ apply quiet_trans | quiet_tac | eassumption | clear H0; intros h ? H0 ].
  eapply (wp_rel (quiet p) _ _ _ s);
    [ apply quiet_trans | | eassumption | clear H0; intros ? t H0 ].
  { destruct (control_memory h); quiet_tac. }
  apply wp_bind. unfold wp at 1, get_procinfo.
  destruct H0 as [(Hp & _ & _ & Hh) HR]. rewrite Hp.
  unfold same_registrations in HR. rewrite Hx in Hh.
  apply header_lookup in Hh as (x' & Hx' & [= Hd _ _ _ _ _]).
  case_decide.
  - unfold wp.
    destruct (vst2_plugin_create_aux_ports E p copy ctx t)
      as [[[] s']|] eqn:Hrun; [|done].
    destruct (create_aux_ports_run _ _ _ _ _ _ _ Hx' Hrun) as [HR' _].
    by rewrite HR', HR, Hd.
  - apply wp_ret. by rewrite app_nil_r.
Qed.

Lemma registrations_aside_refl s : registrations_aside s s.
Proof. done. Qed.

Lemma registrations_aside_trans s1 s2 s3 :
  registrations_aside s1 s2 → registrations_aside s2 s3 →
  registrations_aside s1 s3.
Proof.
  unfold registrations_aside, same_registrations. intros [? ?] [? ?].
  split; congruence.
Qed.

Lemma registrations_aside_g_malloc n :
  preserves registrations_aside (g_malloc n).
Proof. intros s. unfold wp, g_malloc. by repeat case_decide. Qed.

Lemma registrations_aside_instantiate E effect index copies effects :
  preserves registrations_aside
    (vst2_plugin_instantiate E effect index copies effects).
Proof.
  unfold vst2_plugin_instantiate.
  repeat first
    [ apply preserves_ret; [apply registrations_aside_refl]
    | apply preserves_array_set; [apply registrations_aside_refl]
    | apply preserves_deref; [apply registrations_aside_refl]
    | apply preserves_for_loop;
        [apply registrations_aside_refl|apply registrations_aside_trans
        |intros ? ?]
    | apply preserves_bind; [apply registrations_aside_trans| |intros ?] ].
  intros s. unfold wp, emit, registrations_aside, same_registrations. snorm.
  split; [done|]. rewrite port_registrations_cons. apply app_nil_r.
Qed.

Lemma registrations_aside_alloc_plugin x :
  preserves registrations_aside (alloc_plugin x).
Proof.
  unfold alloc_plugin.
  apply preserves_bind;
    [apply registrations_aside_trans|apply registrations_aside_g_malloc|].
  intros b. apply preserves_bind; [apply registrations_aside_trans| |].
  { apply preserves_deref, registrations_aside_refl. }
  intros b'. apply preserves_bind; [apply registrations_aside_trans| |].
  { by intros s. }
  intros []. apply preserves_ret, registrations_aside_refl.
Qed.

Lemma copies_registrations_S d k :
  copies_registrations d (S k)
  = copies_registrations d k
    ++ aux_port_registrations d k (N.to_nat (desc_aux_channels d)).
Proof.
  unfold copies_registrations.
  rewrite seq_S, fmap_app, concat_app. cbn. by rewrite app_nil_r.
Qed.

(** The ports that the creation of a plugin registers. *)
Lemma vst2_plugin_new_registrations E d ctx s p s' :
  vst2_plugin_new E d ctx s = Some (Some p, s') →
  port_registrations (trace s')
  = port_registrations (trace s)
    ++ (if decide (is_Some (jack_client (procinfo s))
                   ∧ (0 < desc_aux_channels d)%N)
        then copies_registrations d
               (Z.to_nat (vst2_plugin_desc_get_copies E d (channels ctx)))
        else []).
Proof.
  intros Hrun.
  refine (wp_run _ (λ r s', ∀ p, r = Some p → _) _ _ _ _ Hrun p eq_refl).
  clear Hrun p s'. unfold vst2_plugin_new, vst2_plugin_open_plugin.
  destruct (desc_effect d) as [e|]; [|done].
  apply wp_bind. apply wp_ret. cbn beta iota. rewrite decide_False by lia.
  set (copies := vst2_plugin_desc_get_copies E d (channels ctx)).
  eapply (wp_rel registrations_aside _ _ _ s);
    [apply registrations_aside_trans|apply registrations_aside_g_malloc
    |apply registrations_aside_refl|].
  intros blk s1 H1.
  eapply (wp_rel registrations_aside _ _ _ s);
    [apply registrations_aside_trans|apply registrations_aside_instantiate
    |exact H1|].
  intros [err effects] s2 H2. cbn beta iota.
  case_decide.
  { repeat (apply wp_bind_any; intros). by apply wp_ret. }
  apply wp_bind. eapply wp_mono.
  2:{ apply wp_conj;
        [apply wp_alloc_plugin|apply registrations_aside_alloc_plugin]. }
  cbn beta. intros q s3 [Hq H3].
  pose proof (registrations_aside_trans _ _ _ H2 H3) as [Hp3 HR3].
  unfold same_registrations in HR3. clear s1 s2 H1 H2 H3 blk.
  set (hdr := (d, false, copies, false, @None ptr, @None ptr)).
  assert (header <$> plugins s3 !! q = Some hdr) as Hh3 by (by rewrite Hq).
  clear Hq. pose proof (quiet_refl q s3) as H0.
  do 9 (eapply (wp_rel (quiet q) _ _ _ s3);
        [ apply quiet_trans | quiet_tac | eassumption
        | clear H0; intros ? ? H0 ]).
  apply wp_bind. eapply wp_mono.
  2:{ apply (wp_for_loop (λ k _ t,
        procinfo t = procinfo s
        ∧ header <$> plugins t !! q = Some hdr
        ∧ port_registrations (trace t)
          = port_registrations (trace s)
            ++ (if decide (is_Some (jack_client (procinfo s))
                           ∧ (0 < desc_aux_channels d)%N)
                then copies_registrations d k else []))).
      - intros k [] t Hk (Hpt & Hht & HRt).
        unfold array_get. destruct (effects !! k) as [c|]; [|done].
        apply wp_bind, wp_ret. cbn beta.
        destruct c as [eff|]; [|done].
        apply wp_bind, wp_ret. cbn beta. unfold wp.
        destruct (vst2_plugin_init_holder E q k eff ctx t)
          as [[[] t']|] eqn:Hrun; [|done].
        pose proof (preserves_run _ _ _ _ _
                      (aside_from_init_holder q E k eff ctx) Hrun)
          as (Hpt' & _ & _ & Hht').
        apply header_lookup in Hht as (xt & Hxt & Hhxt).
        pose proof (init_holder_registrations _ _ _ _ _ _ _ _ Hxt Hrun)
          as HR'.
        assert (desc xt = d) as Hd by (by injection Hhxt).
        rewrite Hd, Hpt, HRt in HR'.
        split; [congruence|]. split; [by rewrite Hht', Hxt; cbn; rewrite Hhxt|].
        rewrite HR', <-app_assoc. f_equal.
        case_decide; [|done]. by rewrite copies_registrations_S.
      - destruct H0 as [(Hp0 & _ & _ & Hh0) HR0].
        unfold same_registrations in HR0.
        split; [congruence|]. split; [congruence|].
        rewrite HR0, HR3. unfold copies_registrations. cbn.
        case_decide; by rewrite app_nil_r. }
  cbn beta. intros [] s' (_ & _ & HR). apply wp_ret. by intros p [= <-].
Qed.

(** X19.  The ports that creation registers: when [vst2_plugin_new]
    returns a plugin, it has registered with JACK, if there is a JACK
    client and the descriptor declares auxiliary channels, one port for
    each auxiliary channel of each copy, copy by copy and channel by
    channel, with the name of that copy and channel and as inputs or as
    outputs as the descriptor says; otherwise it has registered none. *)
Theorem new_plugin_registers_aux_ports E d ctx s p s' :
  vst2_plugin_new E d ctx s = Some (Some p, s') →
  port_registrations (trace s')
  = port_registrations (trace s)
    ++ (if decide (is_Some (jack_client (procinfo s))
                   ∧ (0 < desc_aux_channels d)%N)
        then copies_registrations d
               (Z.to_nat (vst2_plugin_desc_get_copies E d (channels ctx)))
        else []).
Proof. apply vst2_plugin_new_registrations. Qed.

Lemma new_plugin_registers_aux_ports_witness :
  port_registrations (trace rack3_created)
  = port_registrations (trace rack3)
    ++ (if decide (is_Some (jack_client (procinfo rack3))
                   ∧ (0 < desc_aux_channels demo_desc)%N)
        then copies_registrations demo_desc
               (Z.to_nat (vst2_plugin_desc_get_copies demo_extern demo_desc
                            (channels demo_context)))
        else []).
Proof.
  apply (new_plugin_registers_aux_ports demo_extern demo_desc demo_context
           rack3 6%positive rack3_created).
  vm_compute. reflexivity.
Defined.

(* ===================================================================== *)
(** ** Connecting the outputs *)
(* ===================================================================== *)

Section connect_outputs.
Variable sample : ptr → option LADSPA_Data.
Variables (p : ptr) (x : vst2_plugin_t).

(** One call of [setParameter] and [rack_channel++]. *)
Lemma wp_connect_output_port copy channel rack_channel t :
  plugins t !! p = Some x →
  wp (connect_output_port sample p copy channel rack_channel)
     (λ r t', ∃ a i v,
        output_push sample x copy channel rack_channel = Some (a, i, v)
        ∧ r = S rack_channel
        ∧ t' = with_trace (EvSetParameter a i v :: trace t) t) t.
Proof.
  intros Hx.
  unfold wp, connect_output_port, output_push, load, array_get, deref, emit,
    fault, mbind, M_bind, mret, M_ret, option_bind.
  rewrite Hx. cbv beta iota.
  destruct (holders x !! copy) as [h|]; cbv beta iota; [|done].
  destruct (holder_effect h) as [e|]; cbv beta iota; [|done].
  destruct (desc_audio_input_port_indicies (desc x) !! channel) as [port|];
    cbv beta iota; [|done].
  match goal with
  | |- context [@lookup ?K ?A ?B ?I rack_channel (audio_output_memory x)] =>
    destruct (@lookup K A B I rack_channel (audio_output_memory x)) as [c|]
      eqn:Hc
  end; cbv beta iota.
  all: destruct (audio_output_memory x !! rack_channel) as [c'|] eqn:Hc';
    try done.
  injection Hc as ->.
  destruct c as [b|]; cbv beta iota; [|done].
  destruct b as [b|]; cbv beta iota; [|done].
  destruct (sample b) as [v|]; cbv beta iota; [|done].
  by eexists _, _, _.
Qed.

Lemma trace_aside_refl s : trace_aside s s.
Proof. done. Qed.

Lemma trace_aside_trans s1 s2 s3 :
  trace_aside s1 s2 → trace_aside s2 s3 → trace_aside s1 s3.
Proof.
  unfold trace_aside. intros (?&?&?) (?&?&?). repeat split; congruence.
Qed.

(** The loop over the channels of a copy. *)
Lemma wp_connect_channels copy n rack t :
  plugins t !! p = Some x →
  wp (for_loop n 0
        (λ channel rack_channel,
           connect_output_port sample p copy channel rack_channel) rack)
     (λ r t', r = (rack + n)%nat ∧ trace_aside t t'
        ∧ ∃ L, set_parameter_calls (trace t')
               = set_parameter_calls (trace t) ++ L
               ∧ length L = n
               ∧ ∀ channel, (channel < n)%nat →
                   L !! channel
                   = output_push sample x copy channel (rack + channel)) t.
Proof.
  intros Hx.
  eapply wp_mono;
    [|apply (wp_for_loop (λ i r t',
        r = (rack + i)%nat ∧ trace_aside t t'
        ∧ ∃ L, set_parameter_calls (trace t')
               = set_parameter_calls (trace t) ++ L
               ∧ length L = i
               ∧ ∀ channel, (channel < i)%nat →
                   L !! channel
                   = output_push sample x copy channel (rack + channel)))].
  - cbn beta. by intros r t' ?.
  - intros i r t1 Hi (-> & Ha & L & HL & Hlen & Hall).
    eapply wp_mono; [|apply wp_connect_output_port].
    2:{ destruct Ha as (_ & -> & _). done. }
    cbn beta. intros r' t2 (a & j & v & Hpush & -> & ->).
    split; [lia|]. split; [done|].
    exists (L ++ [(a, j, v)]). snorm.
    rewrite set_parameter_calls_cons, HL, <-app_assoc.
    split; [done|]. rewrite length_app. cbn. split; [lia|].
    intros channel Hch. destruct (decide (channel = i)) as [->|].
    + rewrite lookup_app_r, Hlen, Nat.sub_diag by lia. by rewrite Hpush.
    + rewrite lookup_app_l by lia. apply Hall. lia.
  - split; [lia|]. split; [done|]. exists []. rewrite app_nil_r.
    split; [done|]. split; [done|]. intros; lia.
Qed.

(** The loop over the copies. *)
Lemma wp_connect_copies k n s :
  plugins s !! p = Some x →
  wp (for_loop k 0 (λ copy rack_channel,
        for_loop n 0
          (λ channel rack_channel,
             connect_output_port sample p copy channel rack_channel)
          rack_channel) 0%nat)
     (λ _ s', trace_aside s s'
        ∧ ∃ L, set_parameter_calls (trace s')
               = set_parameter_calls (trace s) ++ L
               ∧ length L = (k * n)%nat
               ∧ ∀ copy channel, (copy < k)%nat → (channel < n)%nat →
                   L !! (copy * n + channel)%nat
                   = output_push sample x copy channel
                       (copy * n + channel)) s.
Proof.
  intros Hx.
  eapply wp_mono;
    [|apply (wp_for_loop (λ i r s',
        r = (i * n)%nat ∧ trace_aside s s'
        ∧ ∃ L, set_parameter_calls (trace s')
               = set_parameter_calls (trace s) ++ L
               ∧ length L = (i * n)%nat
               ∧ ∀ copy channel, (copy < i)%nat → (channel < n)%nat →
                   L !! (copy * n + channel)%nat
                   = output_push sample x copy channel
                       (copy * n + channel)))].
  - cbn beta. by intros r s' (_ & ?).
  - intros i r t Hi (-> & Ha & L & HL & Hlen & Hall).
    eapply wp_mono; [|apply wp_connect_channels].
    2:{ destruct Ha as (_ & -> & _). done. }
    cbn beta. intros r' t' (-> & Ha' & L' & HL' & Hlen' & Hall').
    split; [lia|]. split; [by eapply trace_aside_trans|].
    exists (L ++ L'). rewrite HL', HL, <-app_assoc.
    split; [done|]. rewrite length_app. split; [lia|].
    intros copy channel Hcopy Hch.
    destruct (decide (copy = i)) as [->|].
    + rewrite lookup_app_r by lia.
      replace (i * n + channel - length L)%nat with channel by lia.
      by apply Hall'.
    + rewrite lookup_app_l by nia. apply Hall; [lia|done].
  - split; [done|]. split; [done|]. exists []. rewrite app_nil_r.
    split; [done|]. split; [done|]. intros; lia.
Qed.
End connect_outputs.

(** X4.  Connecting the outputs: for no plugin (NULL) the call returns
    at once; for a plugin it changes nothing in memory and, when it returns,
    has called [setParameter] once for each channel of each copy, copy by
    copy, the call number [k] on the effect of the holder of that copy, with
    the index of the audio input port of the channel less the number of
    audio ports of the effect and the first sample of the output buffer of
    rack channel [k]; it returns only if the plugin has that many output
    buffers. *)
Theorem connect_output_ports_calls sample p s s' x :
  plugins s !! p = Some x →
  vst2_plugin_connect_output_ports sample (Some p) s = Some ((), s') →
  let k := Z.to_nat (copies x) in
  let n := N.to_nat (desc_channels (desc x)) in
  vst2_plugin_connect_output_ports sample None s = Some ((), s)
  ∧ procinfo s' = procinfo s ∧ plugins s' = plugins s
  ∧ blocks s' = blocks s
  ∧ (k * n ≤ length (audio_output_memory x))%nat
  ∧ ∃ L, set_parameter_calls (trace s')
         = set_parameter_calls (trace s) ++ L
         ∧ length L = (k * n)%nat
         ∧ ∀ copy channel, (copy < k)%nat → (channel < n)%nat →
             L !! (copy * n + channel)%nat
             = output_push sample x copy channel (copy * n + channel).
Proof.
  intros Hx Hrun k n. split; [done|].
  assert (trace_aside s s'
    ∧ ∃ L, set_parameter_calls (trace s')
           = set_parameter_calls (trace s) ++ L
           ∧ length L = (k * n)%nat
           ∧ ∀ copy channel, (copy < k)%nat → (channel < n)%nat →
               L !! (copy * n + channel)%nat
               = output_push sample x copy channel (copy * n + channel))
    as [(Hp & Hm & Hb) (L & HL & Hlen & Hall)].
  { refine (wp_run _ (λ _ s', _) _ _ _ _ Hrun). clear Hrun.
    unfold vst2_plugin_connect_output_ports.
    apply wp_bind. unfold wp at 1, load. rewrite Hx.
    apply wp_bind. eapply wp_mono; [|by apply (wp_connect_copies sample p x)].
    cbn beta. intros r t H. by apply wp_ret. }
  repeat (split; [done|]). split; [|by exists L].
  destruct (decide (k * n = 0)%nat) as [->|Hne]; [lia|].
  assert (0 < k ∧ 0 < n)%nat as [Hk Hn] by nia.
  specialize (Hall (k - 1)%nat (n - 1)%nat ltac:(lia) ltac:(lia)).
  destruct (lookup_lt_is_Some_2 L ((k - 1) * n + (n - 1))%nat) as [c Hc];
    [nia|].
  rewrite Hc in Hall. symmetry in Hall. unfold output_push in Hall.
  destruct (holders x !! (k - 1)%nat) as [h|]; [|done]. cbn in Hall.
  destruct (holder_effect h) as [e|]; [|done]. cbn in Hall.
  destruct (desc_audio_input_port_indicies (desc x) !! (n - 1)%nat)
    as [port|]; [|done]. cbn in Hall.
  destruct (audio_output_memory x !! ((k - 1) * n + (n - 1))%nat)
    as [b|] eqn:Hb'; [|done].
  apply lookup_lt_Some in Hb'. clear -Hb' Hk Hn. clearbody k n.
  set (m := length (audio_output_memory x)).
  assert (((k - 1) * n + (n - 1) < m)%nat) as Hm by exact Hb'.
  clear Hb'. clearbody m.
  destruct k as [|k']; [lia|]. destruct n as [|n']; [lia|].
  rewrite !Nat.sub_succ, !Nat.sub_0_r in Hm. simpl. lia.
Qed.

Lemma connect_output_ports_calls_witness :
  let x := default (demo_plugin 1%positive None None)
             (plugins demo_created !! 2%positive) in
  let k := Z.to_nat (copies x) in
  let n := N.to_nat (desc_channels (desc x)) in
  vst2_plugin_connect_output_ports demo_sample None demo_created
  = Some ((), demo_created)
  ∧ procinfo demo_connected = procinfo demo_created
  ∧ plugins demo_connected = plugins demo_created
  ∧ blocks demo_connected = blocks demo_created
  ∧ (k * n ≤ length (audio_output_memory x))%nat
  ∧ ∃ L, set_parameter_calls (trace demo_connected)
         = set_parameter_calls (trace demo_created) ++ L
         ∧ length L = (k * n)%nat
         ∧ ∀ copy channel, (copy < k)%nat → (channel < n)%nat →
             L !! (copy * n + channel)%nat
             = output_push demo_sample x copy channel (copy * n + channel).
Proof.
  apply (connect_output_ports_calls demo_sample 2%positive demo_created
           demo_connected).
  - vm_compute. reflexivity.
  - vm_compute. reflexivity.
Defined.
